(** * Barriers of conspacesampler: a shallow embedding of [conspacesampler/barriers.py]

    The module defines log-barriers over a box, an ellipsoid, a simplex and a
    polytope, and their composition.  Every class is embedded below under its
    own name, one Rocq definition per method, in the order of the source.

    Numbers.  The source computes in float64 ([torch.set_default_dtype]).  A
    scalar is modelled as a real number or one of the three IEEE special values
    (plus and minus infinity, not-a-number): arithmetic on finite values is the
    exact arithmetic of [R], and the special values follow IEEE 754, so that a
    division by zero or the logarithm of a non-positive number gives here what
    it gives in torch.  Rounding and the sign of zero are not modelled.

    Tensors.  A point is a tensor of shape [(d)], modelled as a list of
    scalars; torch applies every operation of the module independently along
    the leading (batch) dimensions, so a batch is a list of points and a batched
    method is the [map] of the method on a point ([batched] below).  Elementwise
    operations pair the entries of two lists; torch refuses operands whose
    shapes do not agree, so the statements below take operands of equal
    length. *)

From Stdlib Require Import Reals Lra Lia List Bool Arith.
Import ListNotations.
Local Open Scope R_scope.

(** ** Python exceptions *)

Inductive exn : Type :=
| NotImplementedError
| UnboundLocalError
| ValueError
| ZeroDivisionError
| IndexError
| RuntimeError.

Inductive res (A : Type) : Type :=
| Ok (a : A)
| Raise (e : exn).

Arguments Ok {A} a.
Arguments Raise {A} e.

Definition bind {A B : Type} (m : res A) (k : A -> res B) : res B :=
  match m with
  | Ok a => k a
  | Raise e => Raise e
  end.

Notation "x <- m ;; k" := (bind m (fun x => k))
  (at level 61, m at next level, right associativity).

Definition res_map {A B : Type} (f : A -> B) (r : res A) : res B :=
  match r with
  | Ok a => Ok (f a)
  | Raise e => Raise e
  end.

(** ** Scalars *)

Module f64.

Inductive t : Type :=
| Fin (r : R)
| PInf
| NInf
| NaN.

Definition Rleb (a b : R) : bool := if Rle_dec a b then true else false.
Definition Rltb (a b : R) : bool := if Rlt_dec a b then true else false.
Definition Reqb (a b : R) : bool := if Req_dec_T a b then true else false.

Definition is_finite (a : t) : bool :=
  match a with Fin _ => true | _ => false end.

Definition neg (a : t) : t :=
  match a with
  | Fin x => Fin (- x)
  | PInf => NInf
  | NInf => PInf
  | NaN => NaN
  end.

Definition add (a b : t) : t :=
  match a, b with
  | NaN, _ | _, NaN => NaN
  | Fin x, Fin y => Fin (x + y)
  | PInf, NInf | NInf, PInf => NaN
  | PInf, _ | _, PInf => PInf
  | NInf, _ | _, NInf => NInf
  end.

Definition sub (a b : t) : t := add a (neg b).

(** The infinity of the sign of [x], and not-a-number when [x] is zero. *)
Definition signed_inf (x : R) : t :=
  if Rltb 0 x then PInf else if Rltb x 0 then NInf else NaN.

Definition mul (a b : t) : t :=
  match a, b with
  | NaN, _ | _, NaN => NaN
  | Fin x, Fin y => Fin (x * y)
  | Fin x, PInf | PInf, Fin x => signed_inf x
  | Fin x, NInf | NInf, Fin x => signed_inf (- x)
  | PInf, PInf | NInf, NInf => PInf
  | PInf, NInf | NInf, PInf => NInf
  end.

(** A finite quotient by zero is the infinity of the sign of the numerator
    (the zero is read as positive), and [0 / 0] is not-a-number. *)
Definition div (a b : t) : t :=
  match a, b with
  | NaN, _ | _, NaN => NaN
  | Fin x, Fin y => if Reqb y 0 then signed_inf x else Fin (x / y)
  | Fin _, PInf | Fin _, NInf => Fin 0
  | PInf, Fin y => if Rltb y 0 then NInf else PInf
  | NInf, Fin y => if Rltb y 0 then PInf else NInf
  | _, _ => NaN
  end.

Definition reciprocal (a : t) : t := div (Fin 1) a.

Definition abs (a : t) : t :=
  match a with
  | Fin x => Fin (Rabs x)
  | PInf | NInf => PInf
  | NaN => NaN
  end.

Definition square (a : t) : t := mul a a.

Definition sqrt (a : t) : t :=
  match a with
  | Fin x => if Rltb x 0 then NaN else Fin (R_sqrt.sqrt x)
  | PInf => PInf
  | NInf | NaN => NaN
  end.

Definition log (a : t) : t :=
  match a with
  | Fin x => if Rltb 0 x then Fin (ln x) else if Rltb x 0 then NaN else NInf
  | PInf => PInf
  | NInf | NaN => NaN
  end.

Definition log1p (a : t) : t := log (add (Fin 1) a).

(** Comparisons: false as soon as an operand is not-a-number. *)
Definition le (a b : t) : bool :=
  match a, b with
  | NaN, _ | _, NaN => false
  | Fin x, Fin y => Rleb x y
  | NInf, _ | _, PInf => true
  | _, _ => false
  end.

Definition lt (a b : t) : bool :=
  match a, b with
  | NaN, _ | _, NaN => false
  | Fin x, Fin y => Rltb x y
  | PInf, _ | _, NInf => false
  | _, _ => true
  end.

Definition ge (a b : t) : bool := le b a.
Definition gt (a b : t) : bool := lt b a.

(** [torch.clamp_min] and [torch.clamp_max] with a Python float as the bound;
    not-a-number is kept. *)
Definition clamp_min (a : t) (m : R) : t := if lt a (Fin m) then Fin m else a.
Definition clamp_max (a : t) (m : R) : t := if gt a (Fin m) then Fin m else a.

(** The larger of two scalars as a reduction takes it: not-a-number wins. *)
Definition max (a b : t) : t :=
  match a, b with
  | NaN, _ | _, NaN => NaN
  | _, _ => if lt a b then b else a
  end.

(** [torch.isclose(a, b, atol, rtol)] with [equal_nan=False]:
    [|a - b| <= atol + rtol * |b|] on finite values, equality otherwise. *)
Definition isclose (a b : t) (rtol atol : R) : bool :=
  match a, b with
  | Fin x, Fin y => Rleb (Rabs (x - y)) (atol + rtol * Rabs y)
  | PInf, PInf | NInf, NInf => true
  | _, _ => false
  end.

End f64.

Abbreviation scalar := f64.t.
Abbreviation Fin := f64.Fin.
Abbreviation PInf := f64.PInf.
Abbreviation NInf := f64.NInf.
Abbreviation NaN := f64.NaN.

Abbreviation vec := (list scalar).
Abbreviation mat := (list (list scalar)).

(** ** The operations of torch the module uses *)

Module torch.

Fixpoint map2 {A B C : Type} (f : A -> B -> C) (a : list A) (b : list B) : list C :=
  match a, b with
  | x :: a', y :: b' => f x y :: map2 f a' b'
  | _, _ => []
  end.

Definition square (x : vec) : vec := map f64.square x.
Definition abs (x : vec) : vec := map f64.abs x.
Definition sqrt (x : vec) : vec := map f64.sqrt x.
Definition log (x : vec) : vec := map f64.log x.
Definition neg (x : vec) : vec := map f64.neg x.
Definition reciprocal (x : vec) : vec := map f64.reciprocal x.
Definition clamp_min (x : vec) (m : R) : vec := map (fun a => f64.clamp_min a m) x.
Definition clamp_max (x : vec) (m : R) : vec := map (fun a => f64.clamp_max a m) x.

Definition add (x y : vec) : vec := map2 f64.add x y.
Definition sub (x y : vec) : vec := map2 f64.sub x y.
Definition mul (x y : vec) : vec := map2 f64.mul x y.
Definition div (x y : vec) : vec := map2 f64.div x y.
Definition le (x y : vec) : list bool := map2 f64.le x y.
Definition gt (x y : vec) : list bool := map2 f64.gt x y.

(** A Python number or a zero-dimensional tensor against a tensor. *)
Definition adds (c : scalar) (x : vec) : vec := map (f64.add c) x.
Definition muls (c : scalar) (x : vec) : vec := map (f64.mul c) x.
Definition rsubs (c : scalar) (x : vec) : vec := map (f64.sub c) x.
Definition rdivs (c : scalar) (x : vec) : vec := map (f64.div c) x.
Definition divs (x : vec) (c : scalar) : vec := map (fun a => f64.div a c) x.
Definition addr (x : vec) (c : scalar) : vec := map (fun a => f64.add a c) x.

(** [torch.sum(x, dim=-1)]; the empty sum is zero. *)
Definition sum (x : vec) : scalar := fold_right f64.add (Fin 0) x.

(** [torch.all(m, dim=-1)] and [torch.any(m, dim=-1)]. *)
Definition all (m : list bool) : bool := forallb (fun b => b) m.
Definition any (m : list bool) : bool := existsb (fun b => b) m.


(** [torch.max(x, dim=-1)[0]]: torch refuses a reduction over no entry. *)
Definition max (x : vec) : res scalar :=
  match x with
  | [] => Raise RuntimeError
  | a :: x' => Ok (fold_left f64.max x' a)
  end.

(** [raw[mask] = c]: the entries where the mask holds are overwritten. *)
Definition masked_fill (x : vec) (mask : list bool) (c : scalar) : vec :=
  map2 (fun a (b : bool) => if b then c else a) x mask.

(** [torch.diag_embed(v)]: the square matrix with [v] on its diagonal. *)
Fixpoint diag_embed (v : vec) : mat :=
  match v with
  | [] => []
  | a :: v' => (a :: map (fun _ => Fin 0) v') :: map (cons (Fin 0)) (diag_embed v')
  end.

(** Matrices: entrywise sum, transpose, and [einsum("ij,...j->...i", M, x)]. *)
Definition madd (a b : mat) : mat := map2 add a b.

Definition dot (x y : vec) : scalar := sum (mul x y).

Definition einsum_ij_j (M : mat) (x : vec) : vec := map (fun row => dot row x) M.

Fixpoint transpose_aux (n : nat) (M : mat) : mat :=
  match n with
  | O => []
  | S n' => map (fun row => hd (Fin 0) row) M :: transpose_aux n' (map (@tl scalar) M)
  end.

Definition T (M : mat) : mat :=
  match M with
  | [] => []
  | row :: _ => transpose_aux (length row) M
  end.

End torch.

(** The value a Hessian returns: the diagonal as a vector of shape [(d)], or
    a matrix of shape [(d, d)]. *)
Inductive hess : Type :=
| HDiag (v : vec)
| HFull (m : mat).

(** A method on a point, applied to a batch of points. *)
Definition batched {A : Type} (f : vec -> A) (xs : list vec) : list A := map f xs.

(** ** BoxBarrier *)

Module BoxBarrier.

Record t : Type := mk {
  bounds : vec;
  dimension : nat;
  diag_hess : bool
}.

Definition __init__ (bounds : vec) : t :=
  {| bounds := bounds; dimension := length bounds; diag_hess := true |}.

Definition _safe_diff (self : t) (x : vec) : vec :=
  torch.clamp_min (torch.sub (torch.square (bounds self)) (torch.square x)) 1e-08.

Definition feasibility (self : t) (x : vec) : bool :=
  torch.all (torch.le (torch.abs x) (bounds self)).

Definition value (self : t) (x : vec) : scalar :=
  f64.neg (torch.sum (torch.log (_safe_diff self x))).

Definition gradient (self : t) (x : vec) : vec :=
  torch.div (torch.muls (Fin 2) x) (_safe_diff self x).

Definition ZERO : scalar := Fin 0.

Definition inverse_gradient (self : t) (y : vec) : vec :=
  let asqr_ysqr := torch.square (torch.mul (bounds self) y) in
  let raw := torch.div (torch.adds (Fin (-1)) (torch.sqrt (torch.adds (Fin 1) asqr_ysqr))) y in
  torch.masked_fill raw (map (fun a => f64.isclose a ZERO 1e-05 1e-07) y) (Fin 0).

Definition hessian (self : t) (x : vec) : vec :=
  let reci_diff := torch.reciprocal (_safe_diff self x) in
  let output :=
    torch.add (torch.muls (Fin 2) reci_diff)
              (torch.muls (Fin 4) (torch.square (torch.mul x reci_diff))) in
  torch.clamp_max output 1e07.

Definition boundary_to_interior_half (self : t) (x : vec) : res bool :=
  match dimension self with
  | O => Raise ZeroDivisionError
  | S _ =>
      let c := Rpower 0.5 (1 / INR (dimension self)) in
      Ok (torch.any (torch.gt (torch.abs x) (torch.muls (Fin c) (bounds self))))
  end.

End BoxBarrier.

(** ** EllipsoidBarrier *)

Module EllipsoidBarrier.

(** The dictionary [ellipsoid] with its two keys. *)
Record ellipsoid_dict : Type := mk_ellipsoid {
  rot : mat;
  eigvals : vec
}.

Record t : Type := mk {
  ellipsoid : ellipsoid_dict;
  dimension : nat;
  diag_hess : bool
}.

(** [diag_hess] is not assigned: the instance reads the class attribute of
    [Barrier], which is [False]. *)
Definition __init__ (ellipsoid : ellipsoid_dict) : t :=
  {| ellipsoid := ellipsoid;
     dimension := length (eigvals ellipsoid);
     diag_hess := false |}.

(** [rot * eigvals] and [rot / eigvals]: the vector is paired with every row. *)
Definition rows_mul (M : mat) (v : vec) : mat := map (fun row => torch.mul row v) M.
Definition rows_div (M : mat) (v : vec) : mat := map (fun row => torch.div row v) M.

Definition _ellipsoid_inner_product (self : t) (x : vec) : scalar :=
  let UTx := torch.einsum_ij_j (torch.T (rot (ellipsoid self))) x in
  torch.sum (torch.mul (torch.square UTx) (eigvals (ellipsoid self))).

Definition _inverse_ellipsoid_inner_product (self : t) (y : vec) : scalar :=
  let UTy := torch.einsum_ij_j (torch.T (rot (ellipsoid self))) y in
  torch.sum (torch.div (torch.square UTy) (eigvals (ellipsoid self))).

Definition _ellipsoid_map (self : t) (x : vec) : vec :=
  let UTx := torch.einsum_ij_j (torch.T (rot (ellipsoid self))) x in
  torch.einsum_ij_j (rows_mul (rot (ellipsoid self)) (eigvals (ellipsoid self))) UTx.

Definition _inverse_ellipsoid_map (self : t) (y : vec) : vec :=
  let UTx := torch.einsum_ij_j (torch.T (rot (ellipsoid self))) y in
  torch.einsum_ij_j (rows_div (rot (ellipsoid self)) (eigvals (ellipsoid self))) UTx.

Definition feasibility (self : t) (x : vec) : bool :=
  f64.le (_ellipsoid_inner_product self x) (Fin 1).

Definition value (self : t) (x : vec) : scalar :=
  let inner_product := _ellipsoid_inner_product self x in
  let inner_product :=
    if f64.ge inner_product (Fin 1) then Fin 0 else inner_product in
  f64.neg (f64.log1p (f64.neg inner_product)).

Definition gradient (self : t) (x : vec) : vec :=
  let one_minus_xAx := f64.sub (Fin 1) (_ellipsoid_inner_product self x) in
  let one_minus_xAx := f64.clamp_min one_minus_xAx 1e-08 in
  let Ax := _ellipsoid_map self x in
  torch.divs (torch.muls (Fin 2) Ax) one_minus_xAx.

Definition inverse_gradient (self : t) (y : vec) : vec :=
  let yinvAy := f64.clamp_min (_inverse_ellipsoid_inner_product self y) 1e-08 in
  let lambda_cons :=
    f64.div (f64.add (Fin (-1)) (f64.sqrt (f64.add (Fin 1) yinvAy))) yinvAy in
  torch.muls lambda_cons (_inverse_ellipsoid_map self y).

(** [einsum("...ij,jk->...ik", A, B)]. *)
Definition einsum_ij_jk (A B : mat) : mat :=
  map (fun row => map (fun col => torch.dot row col) (torch.T B)) A.

(** [u.unsqueeze(-1) * u.unsqueeze(-2)]. *)
Definition outer (u v : vec) : mat := map (fun a => torch.muls a v) u.

Definition hessian (self : t) (x : vec) : mat :=
  let one_minus_xAx := f64.sub (Fin 1) (_ellipsoid_inner_product self x) in
  let one_minus_xAx := f64.clamp_min one_minus_xAx 1e-08 in
  let Ax := _ellipsoid_map self x in
  let U := rot (ellipsoid self) in
  let L := eigvals (ellipsoid self) in
  let scaled_Ax := torch.divs (torch.muls (Fin 2) Ax) one_minus_xAx in
  let scaled_L := torch.divs (torch.muls (Fin 2) L) one_minus_xAx in
  let ULUT := einsum_ij_jk (rows_mul U scaled_L) (torch.T U) in
  torch.madd ULUT (outer scaled_Ax scaled_Ax).

Definition boundary_to_interior_half (self : t) (x : vec) : res bool :=
  match dimension self with
  | O => Raise ZeroDivisionError
  | S _ =>
      Ok (f64.gt (_ellipsoid_inner_product self x)
                 (Fin (Rpower 0.5 (2 / INR (dimension self)))))
  end.

End EllipsoidBarrier.

(** ** SimplexBarrier *)

Module SimplexBarrier.

Record t : Type := mk {
  dimension : nat;
  diag_hess : bool
}.

Definition __init__ (dimension : nat) : t :=
  {| dimension := dimension; diag_hess := false |}.

(** [squeeze_last_dim] only decides whether the result has shape [()] or
    [(1)]; its one entry is the same. *)
Definition _safe_interior (self : t) (x : vec) (squeeze_last_dim : bool) : scalar :=
  f64.clamp_min (f64.sub (Fin 1) (torch.sum x)) 1e-08.

Definition feasibility (self : t) (x : vec) : bool :=
  let sum_one_cons := f64.le (torch.sum x) (Fin 1) in
  let pos_cons := torch.all (map (fun a => f64.ge a (Fin 0)) x) in
  sum_one_cons && pos_cons.

Definition value (self : t) (x : vec) : scalar :=
  f64.sub (f64.neg (torch.sum (torch.log x)))
          (f64.log (_safe_interior self x true)).

Definition gradient (self : t) (x : vec) : vec :=
  let x_safe := torch.clamp_min x 1e-08 in
  torch.addr (torch.rdivs (Fin (-1)) x_safe)
             (f64.reciprocal (_safe_interior self x false)).

Definition hessian (self : t) (x : vec) : mat :=
  let one_over_x_squared :=
    torch.clamp_max (torch.reciprocal (torch.square x)) 1e08 in
  let cons :=
    f64.clamp_max (f64.square (f64.reciprocal (_safe_interior self x false))) 1e08 in
  map (fun row => torch.addr row cons) (torch.diag_embed one_over_x_squared).

(** The local function [f] of [inverse_gradient]. *)
Definition f (y : vec) (c : scalar) : scalar :=
  f64.sub
    (f64.add c (f64.mul c (torch.sum (torch.rdivs (Fin 1) (torch.rsubs (Fin 1) (torch.muls c y))))))
    (Fin 1).

(** One turn of the loop on the pair [(c_lower, c_upper)]. *)
Definition bisect (y : vec) (c : scalar * scalar) : scalar * scalar :=
  let (c_lower, c_upper) := c in
  let c_middle := f64.mul (Fin 0.5) (f64.add c_lower c_upper) in
  let f_middle := f y c_middle in
  let mask := f64.gt f_middle (Fin 0) in
  (if negb mask then c_middle else c_lower, if mask then c_middle else c_upper).

(** [for _ in range(n)]. *)
Fixpoint for_range {S : Type} (n : nat) (body : S -> S) (s : S) : S :=
  match n with
  | O => s
  | Datatypes.S n' => for_range n' body (body s)
  end.

Definition initial_c_upper (y : vec) : res scalar :=
  m <- torch.max y ;;
  let c_upper := f64.reciprocal m in
  let c_upper := f64.clamp_max c_upper 1 in
  Ok (if f64.lt c_upper (Fin 0) then Fin 1 else c_upper).

Definition inverse_gradient (self : t) (y : vec) : res vec :=
  let c_lower := Fin 0 in
  c_upper <- initial_c_upper y ;;
  let (c_lower, c_upper) := for_range 35 (bisect y) (c_lower, c_upper) in
  Ok (torch.clamp_min
        (torch.rdivs c_upper (torch.rsubs (Fin 1) (torch.muls c_upper y))) 1e-08).

Definition boundary_to_interior_half (self : t) (x : vec) : res bool :=
  match dimension self with
  | O => Raise ZeroDivisionError
  | S _ =>
      let a := Fin (Rpower 0.5 (1 / INR (dimension self))) in
      let value_of_mask := f64.sub a (torch.sum x) in
      Ok (f64.lt value_of_mask (Fin 0))
  end.

End SimplexBarrier.

(** ** PolytopeBarrier *)

Module PolytopeBarrier.

(** [polytope["A"]]: a matrix of shape [(m, d)], or a vector of shape [(m)]
    for a diagonal [A]. *)
Inductive tensor_A : Type :=
| Diag (a : vec)
| Full (a : mat).

Record polytope_dict : Type := mk_polytope {
  A : tensor_A;
  b : vec
}.

Record t : Type := mk {
  polytope : polytope_dict;
  dimension : nat;
  diag_hess : bool;
  weights : option vec
}.

(** [len(A.shape)] and [A.shape[-1]]. *)
Definition ndim (a : tensor_A) : nat :=
  match a with Diag _ => 1 | Full _ => 2 end.

Definition shape_last (a : tensor_A) : nat :=
  match a with
  | Diag v => length v
  | Full [] => 0
  | Full (row :: _) => length row
  end.

(** The class attribute [Barrier.diag_hess]. *)
Definition class_diag_hess : bool := false.

Definition __init__ (polytope : polytope_dict) (weights : option vec) : res t :=
  let dimension := shape_last (A polytope) in
  let diag_hess := if (ndim (A polytope) =? 1)%nat then true else class_diag_hess in
  match weights with
  | Some w =>
      if negb (length w =? length (b polytope))%nat then Raise ValueError
      else Ok (mk polytope dimension diag_hess weights)
  | None => Ok (mk polytope dimension diag_hess weights)
  end.

(** The methods branch on [self.diag_hess], which [__init__] sets from the
    form of [A] (lemma [polytope_flag_form] below); the branch is read here on
    the form of [A] itself. *)
Definition _Ax (self : t) (x : vec) : vec :=
  match A (polytope self) with
  | Full a => torch.einsum_ij_j a x
  | Diag a => torch.mul a x
  end.

Definition _safe_slack (self : t) (x : vec) : vec :=
  let vals := _Ax self x in
  torch.clamp_min (torch.sub (b (polytope self)) vals) 1e-08.

Definition feasibility (self : t) (x : vec) : bool :=
  torch.all (torch.le (_Ax self x) (b (polytope self))).

Definition value (self : t) (x : vec) : scalar :=
  let value_vector := torch.log (_safe_slack self x) in
  let value_vector :=
    match weights self with
    | Some w => torch.mul value_vector w
    | None => value_vector
    end in
  f64.neg (torch.sum value_vector).

(** [torch.sum(M, dim=-2)] of a matrix with [d] columns. *)
Definition sum_rows (d : nat) (M : mat) : vec :=
  fold_right torch.add (repeat (Fin 0) d) M.

(** [torch.sum(T, dim=-3)] of a stack of [d] by [d] matrices. *)
Definition sum_mats (d : nat) (Ms : list mat) : mat :=
  fold_right torch.madd (repeat (repeat (Fin 0) d) d) Ms.

(** [a / slack.unsqueeze(-1)]: row [i] is divided by [slack[i]]. *)
Definition rows_divs (a : mat) (slack : vec) : mat :=
  torch.map2 torch.divs a slack.

Definition gradient (self : t) (x : vec) : vec :=
  let slack := _safe_slack self x in
  let slack :=
    match weights self with
    | Some w => torch.div slack w
    | None => slack
    end in
  match A (polytope self) with
  | Full a => sum_rows (dimension self) (rows_divs a slack)
  | Diag a => torch.div a slack
  end.

Definition hessian (self : t) (x : vec) : hess :=
  let slack := _safe_slack self x in
  let slack :=
    match weights self with
    | Some w => torch.div slack (torch.sqrt w)
    | None => slack
    end in
  match A (polytope self) with
  | Full a =>
      let component := rows_divs a slack in
      HFull (sum_mats (dimension self)
               (map (fun c => EllipsoidBarrier.outer c c) component))
  | Diag a => HDiag (torch.square (torch.div a slack))
  end.

Definition inverse_gradient (self : t) (x : vec) : res vec :=
  Raise NotImplementedError.

End PolytopeBarrier.

(** ** The base class Barrier *)

Module Barrier.

Definition diag_hess : bool := false.
Definition ZERO : scalar := Fin 0.

Definition inverse_gradient {self : Type} (_ : self) (y : vec) : res vec :=
  Raise NotImplementedError.

Definition boundary_to_interior_half {self : Type} (_ : self) (x : vec) : res bool :=
  Raise NotImplementedError.

End Barrier.

(** ** Instances

    An instance of one of the five concrete classes.  A [ComposeBarrier]
    holds its list of barriers and the two attributes its [__init__] sets. *)

#[warnings="-register-all"]
Inductive barrier : Type :=
| Box (self : BoxBarrier.t)
| Ellipsoid (self : EllipsoidBarrier.t)
| Simplex (self : SimplexBarrier.t)
| Polytope (self : PolytopeBarrier.t)
| Compose (barriers : list barrier) (diag_hess : bool)
          (_hess_compute_order : list nat * list nat).

(** [barrier.diag_hess]. *)
Definition diag_hess (b : barrier) : bool :=
  match b with
  | Box self => BoxBarrier.diag_hess self
  | Ellipsoid self => EllipsoidBarrier.diag_hess self
  | Simplex self => SimplexBarrier.diag_hess self
  | Polytope self => PolytopeBarrier.diag_hess self
  | Compose _ dh _ => dh
  end.

(** ** ComposeBarrier

    The methods loop over [self.barriers] and call the same method on every
    constituent; the calls are passed in as the list of their results, in the
    order of [self.barriers]. *)

Module ComposeBarrier.

(** [_hess_compute_order[int(barrier.diag_hess)].append(i)]. *)
Definition append_index (order : list nat * list nat) (ib : nat * barrier)
  : list nat * list nat :=
  let (i, b) := ib in
  if diag_hess b then (fst order, snd order ++ [i]) else (fst order ++ [i], snd order).

Definition enumerate {A : Type} (l : list A) : list (nat * A) :=
  combine (seq 0 (length l)) l.

Definition __init__ (barriers : list barrier) : barrier :=
  let _hess_compute_order := fold_left append_index (enumerate barriers) ([], []) in
  let diag_hess :=
    if (length (fst _hess_compute_order) =? 0)%nat then true else Barrier.diag_hess in
  Compose barriers diag_hess _hess_compute_order.

Definition feasibility (calls : list bool) (x : vec) : bool :=
  fold_left (fun check c => check && c) calls true.

Definition value (calls : list scalar) (x : vec) : scalar :=
  fold_left f64.add calls (Fin 0).

Definition zeros_like (x : vec) : vec := map (fun _ => Fin 0) x.

Definition gradient (calls : list vec) (x : vec) : vec :=
  fold_left torch.add calls (zeros_like x).

(** [self.barriers[idx].hessian(x)]. *)
Definition call_at (calls : list (res hess)) (idx : nat) : res hess :=
  match nth_error calls idx with
  | Some r => r
  | None => Raise IndexError
  end.

(** [hessian += h] while [hessian] holds a vector: torch refuses an in-place
    sum whose value would not have the shape of its left operand. *)
Definition iadd_vec (hessian : vec) (h : hess) : res vec :=
  match h with
  | HDiag v => Ok (torch.add hessian v)
  | HFull _ => Raise RuntimeError
  end.

(** [hessian += h] while [hessian] holds a matrix: a vector is added to every
    row. *)
Definition iadd_mat (hessian : mat) (h : hess) : res mat :=
  match h with
  | HDiag v => Ok (map (fun row => torch.add row v) hessian)
  | HFull m => Ok (torch.madd hessian m)
  end.

(** Reading the local variable [hessian], bound or not. *)
Definition read_local {A : Type} (v : option A) : res A :=
  match v with
  | Some a => Ok a
  | None => Raise UnboundLocalError
  end.

Definition hessian (self_diag_hess : bool) (_hess_compute_order : list nat * list nat)
    (calls : list (res hess)) (x : vec) : res hess :=
  hessian <-
    (if (0 <? length (snd _hess_compute_order))%nat then
       h <- fold_left
              (fun acc idx => a <- acc ;; hi <- call_at calls idx ;; iadd_vec a hi)
              (snd _hess_compute_order) (Ok (zeros_like x)) ;;
       Ok (Some h)
     else Ok None) ;;
  if negb self_diag_hess then
    h <- read_local hessian ;;
    let h := torch.diag_embed h in
    h <- fold_left
           (fun acc idx => a <- acc ;; hi <- call_at calls idx ;; iadd_mat a hi)
           (fst _hess_compute_order) (Ok h) ;;
    Ok (HFull h)
  else
    h <- read_local hessian ;;
    Ok (HDiag h).

End ComposeBarrier.

(** ** Method calls on an instance *)

Fixpoint feasibility (b : barrier) (x : vec) : bool :=
  match b with
  | Box self => BoxBarrier.feasibility self x
  | Ellipsoid self => EllipsoidBarrier.feasibility self x
  | Simplex self => SimplexBarrier.feasibility self x
  | Polytope self => PolytopeBarrier.feasibility self x
  | Compose barriers _ _ =>
      ComposeBarrier.feasibility (map (fun c => feasibility c x) barriers) x
  end.

Fixpoint value (b : barrier) (x : vec) : scalar :=
  match b with
  | Box self => BoxBarrier.value self x
  | Ellipsoid self => EllipsoidBarrier.value self x
  | Simplex self => SimplexBarrier.value self x
  | Polytope self => PolytopeBarrier.value self x
  | Compose barriers _ _ =>
      ComposeBarrier.value (map (fun c => value c x) barriers) x
  end.

Fixpoint gradient (b : barrier) (x : vec) : vec :=
  match b with
  | Box self => BoxBarrier.gradient self x
  | Ellipsoid self => EllipsoidBarrier.gradient self x
  | Simplex self => SimplexBarrier.gradient self x
  | Polytope self => PolytopeBarrier.gradient self x
  | Compose barriers _ _ =>
      ComposeBarrier.gradient (map (fun c => gradient c x) barriers) x
  end.

Fixpoint hessian (b : barrier) (x : vec) : res hess :=
  match b with
  | Box self => Ok (HDiag (BoxBarrier.hessian self x))
  | Ellipsoid self => Ok (HFull (EllipsoidBarrier.hessian self x))
  | Simplex self => Ok (HFull (SimplexBarrier.hessian self x))
  | Polytope self => Ok (PolytopeBarrier.hessian self x)
  | Compose barriers dh order =>
      ComposeBarrier.hessian dh order (map (fun c => hessian c x) barriers) x
  end.

(** [ComposeBarrier] defines neither [inverse_gradient] nor
    [boundary_to_interior_half], and [PolytopeBarrier] does not define
    [boundary_to_interior_half]: the call reaches the method of [Barrier]. *)
Definition inverse_gradient (b : barrier) (y : vec) : res vec :=
  match b with
  | Box self => Ok (BoxBarrier.inverse_gradient self y)
  | Ellipsoid self => Ok (EllipsoidBarrier.inverse_gradient self y)
  | Simplex self => SimplexBarrier.inverse_gradient self y
  | Polytope self => PolytopeBarrier.inverse_gradient self y
  | Compose _ _ _ => Barrier.inverse_gradient b y
  end.

Definition boundary_to_interior_half (b : barrier) (x : vec) : res bool :=
  match b with
  | Box self => BoxBarrier.boundary_to_interior_half self x
  | Ellipsoid self => EllipsoidBarrier.boundary_to_interior_half self x
  | Simplex self => SimplexBarrier.boundary_to_interior_half self x
  | Polytope _ => Barrier.boundary_to_interior_half b x
  | Compose _ _ _ => Barrier.boundary_to_interior_half b x
  end.

(** * The methods over a store

    The source works on tensor objects: some torch operations return a new
    tensor, and some (the methods whose name ends in an underscore, [+=], and
    an assignment through a mask) overwrite their first operand.  To tell the
    two apart the methods are embedded a second time, statement by statement,
    over a store of tensors: a location is an index in the store, an operation
    that returns a new tensor allocates a location, and an operation in place
    writes the location of its first operand.  The input [x] and the
    parameters of a barrier are locations the caller passes in. *)

Module Store.

(** A tensor of any of the shapes the module uses. *)
Inductive tensor : Type :=
| TS (a : scalar)
| TV (v : vec)
| TM (m : mat)
| T3 (ms : list mat)
| TB (b : bool)
| TBV (bs : list bool).

Definition loc : Type := nat.
Definition store : Type := list tensor.

(** A computation reads and writes the store and returns or raises. *)
Definition M (A : Type) : Type := store -> res A * store.

Definition ret {A : Type} (a : A) : M A := fun h => (Ok a, h).

Definition raise {A : Type} (e : exn) : M A := fun h => (Raise e, h).

Definition mbind {A B : Type} (m : M A) (k : A -> M B) : M B :=
  fun h =>
    match m h with
    | (Ok a, h') => k a h'
    | (Raise e, h') => (Raise e, h')
    end.

Notation "x <~ m ;; k" := (mbind m (fun x => k))
  (at level 61, m at next level, right associativity).

Definition lift {A : Type} (r : res A) : M A := fun h => (r, h).

Fixpoint update (l : nat) (v : tensor) (h : store) : store :=
  match h, l with
  | [], _ => []
  | _ :: h', O => v :: h'
  | t :: h', S l' => t :: update l' v h'
  end.

(** A new tensor object. *)
Definition new (v : tensor) : M loc := fun h => (Ok (length h), h ++ [v]).

Definition get (l : loc) : M tensor :=
  fun h =>
    match nth_error h l with
    | Some v => (Ok v, h)
    | None => (Raise RuntimeError, h)
    end.

(** Overwriting the tensor at a location. *)
Definition set (l : loc) (v : tensor) : M unit :=
  fun h =>
    match nth_error h l with
    | Some _ => (Ok tt, update l v h)
    | None => (Raise RuntimeError, h)
    end.

(** An operation of torch that returns a new tensor. *)
Definition alloc1 (f : tensor -> res tensor) (l : loc) : M loc :=
  t <~ get l ;; r <~ lift (f t) ;; new r.

Definition alloc2 (f : tensor -> tensor -> res tensor) (l1 l2 : loc) : M loc :=
  t1 <~ get l1 ;; t2 <~ get l2 ;; r <~ lift (f t1 t2) ;; new r.

(** An operation of torch in place: the first operand is overwritten and
    returned. *)
Definition inplace1 (f : tensor -> res tensor) (l : loc) : M loc :=
  t <~ get l ;; r <~ lift (f t) ;; _ <~ set l r ;; ret l.

Definition inplace2 (f : tensor -> tensor -> res tensor) (l1 l2 : loc) : M loc :=
  t1 <~ get l1 ;; t2 <~ get l2 ;; r <~ lift (f t1 t2) ;; _ <~ set l1 r ;; ret l1.

(** The operations on values, by the shapes of their operands. *)
Definition vv (f : vec -> vec) (t : tensor) : res tensor :=
  match t with TV v => Ok (TV (f v)) | _ => Raise RuntimeError end.

Definition vs (f : vec -> scalar) (t : tensor) : res tensor :=
  match t with TV v => Ok (TS (f v)) | _ => Raise RuntimeError end.

Definition vm (f : vec -> mat) (t : tensor) : res tensor :=
  match t with TV v => Ok (TM (f v)) | _ => Raise RuntimeError end.

Definition vbv (f : vec -> list bool) (t : tensor) : res tensor :=
  match t with TV v => Ok (TBV (f v)) | _ => Raise RuntimeError end.

Definition ss (f : scalar -> scalar) (t : tensor) : res tensor :=
  match t with TS a => Ok (TS (f a)) | _ => Raise RuntimeError end.

Definition sb (f : scalar -> bool) (t : tensor) : res tensor :=
  match t with TS a => Ok (TB (f a)) | _ => Raise RuntimeError end.

Definition bb (f : bool -> bool) (t : tensor) : res tensor :=
  match t with TB b => Ok (TB (f b)) | _ => Raise RuntimeError end.

Definition bvb (f : list bool -> bool) (t : tensor) : res tensor :=
  match t with TBV bs => Ok (TB (f bs)) | _ => Raise RuntimeError end.

Definition mm (f : mat -> mat) (t : tensor) : res tensor :=
  match t with TM m => Ok (TM (f m)) | _ => Raise RuntimeError end.

Definition mv (f : mat -> vec) (t : tensor) : res tensor :=
  match t with TM m => Ok (TV (f m)) | _ => Raise RuntimeError end.

Definition m3 (f : mat -> list mat) (t : tensor) : res tensor :=
  match t with TM m => Ok (T3 (f m)) | _ => Raise RuntimeError end.

Definition t3m (f : list mat -> mat) (t : tensor) : res tensor :=
  match t with T3 ms => Ok (TM (f ms)) | _ => Raise RuntimeError end.

Definition vvv (f : vec -> vec -> vec) (t1 t2 : tensor) : res tensor :=
  match t1, t2 with TV u, TV v => Ok (TV (f u v)) | _, _ => Raise RuntimeError end.

Definition vvbv (f : vec -> vec -> list bool) (t1 t2 : tensor) : res tensor :=
  match t1, t2 with TV u, TV v => Ok (TBV (f u v)) | _, _ => Raise RuntimeError end.

Definition vvm (f : vec -> vec -> mat) (t1 t2 : tensor) : res tensor :=
  match t1, t2 with TV u, TV v => Ok (TM (f u v)) | _, _ => Raise RuntimeError end.

Definition vsv (f : vec -> scalar -> vec) (t1 t2 : tensor) : res tensor :=
  match t1, t2 with TV u, TS a => Ok (TV (f u a)) | _, _ => Raise RuntimeError end.

Definition svv (f : scalar -> vec -> vec) (t1 t2 : tensor) : res tensor :=
  match t1, t2 with TS a, TV v => Ok (TV (f a v)) | _, _ => Raise RuntimeError end.

Definition sss (f : scalar -> scalar -> scalar) (t1 t2 : tensor) : res tensor :=
  match t1, t2 with TS a, TS b => Ok (TS (f a b)) | _, _ => Raise RuntimeError end.

Definition sbs (f : scalar -> bool -> scalar) (t1 t2 : tensor) : res tensor :=
  match t1, t2 with TS a, TB b => Ok (TS (f a b)) | _, _ => Raise RuntimeError end.

Definition bbb (f : bool -> bool -> bool) (t1 t2 : tensor) : res tensor :=
  match t1, t2 with TB a, TB b => Ok (TB (f a b)) | _, _ => Raise RuntimeError end.

Definition vbvv (f : vec -> list bool -> vec) (t1 t2 : tensor) : res tensor :=
  match t1, t2 with TV u, TBV b => Ok (TV (f u b)) | _, _ => Raise RuntimeError end.

Definition mvv (f : mat -> vec -> vec) (t1 t2 : tensor) : res tensor :=
  match t1, t2 with TM m, TV v => Ok (TV (f m v)) | _, _ => Raise RuntimeError end.

Definition mvm (f : mat -> vec -> mat) (t1 t2 : tensor) : res tensor :=
  match t1, t2 with TM m, TV v => Ok (TM (f m v)) | _, _ => Raise RuntimeError end.

Definition msm (f : mat -> scalar -> mat) (t1 t2 : tensor) : res tensor :=
  match t1, t2 with TM m, TS a => Ok (TM (f m a)) | _, _ => Raise RuntimeError end.

Definition mmm (f : mat -> mat -> mat) (t1 t2 : tensor) : res tensor :=
  match t1, t2 with TM a, TM b => Ok (TM (f a b)) | _, _ => Raise RuntimeError end.

(** [t.unsqueeze_(dim)] changes the shape of [t] in place and none of its
    entries. *)
Definition unsqueeze_ (l : loc) : M loc := inplace1 (fun t => Ok t) l.

(** [t[mask] = c] on a tensor of shape [()]. *)
Definition fill_where (c : scalar) (a : scalar) (mask : bool) : scalar :=
  if mask then c else a.

(** [t[mask] = u[mask]] on tensors of shape [()]: the entry of [u] under the
    mask is first copied to a new tensor. *)
Definition take_where (u : scalar) (mask : bool) : vec :=
  if mask then [u] else [].

Definition put_where (a : scalar) (taken : vec) : scalar :=
  match taken with
  | [] => a
  | u :: _ => u
  end.

Definition sbv (f : scalar -> bool -> vec) (t1 t2 : tensor) : res tensor :=
  match t1, t2 with TS a, TB b => Ok (TV (f a b)) | _, _ => Raise RuntimeError end.

Definition svs (f : scalar -> vec -> scalar) (t1 t2 : tensor) : res tensor :=
  match t1, t2 with TS a, TV v => Ok (TS (f a v)) | _, _ => Raise RuntimeError end.

(** [for _ in range(n)] and [for a in l]. *)
Fixpoint for_range (n : nat) (body : M unit) : M unit :=
  match n with
  | O => ret tt
  | S n' => _ <~ body ;; for_range n' body
  end.

Fixpoint for_each {A : Type} (l : list A) (body : A -> M unit) : M unit :=
  match l with
  | [] => ret tt
  | a :: l' => _ <~ body a ;; for_each l' body
  end.

(** A call returns a tensor of value [v] that did not exist before the call,
    and leaves every tensor that existed before the call as it was: the store
    after the call is the store before it, followed by the tensors the call
    allocated. *)
Definition returns (m : M loc) (H : store) (v : tensor) : Prop :=
  exists L l,
    m H = (Ok l, H ++ L)
    /\ nth_error (H ++ L) l = Some v
    /\ (length H <= l)%nat.

(** A call raises [e] and leaves every tensor that existed before the call as
    it was. *)
Definition raises {A : Type} (m : M A) (H : store) (e : exn) : Prop :=
  exists L, m H = (Raise e, H ++ L).

(** The outcome of a call: the value of the tensor it returns, or the
    exception it raises. *)
Definition yields (m : M loc) (H : store) (r : res tensor) : Prop :=
  match r with
  | Ok v => returns m H v
  | Raise e => raises m H e
  end.

(** What a caller observes of a call: the value of the tensor returned, or
    the exception, and the store after the call. *)
Definition outcome (m : M loc) (H : store) : res tensor * store :=
  match m H with
  | (Ok l, H') =>
      (match nth_error H' l with
       | Some v => Ok v
       | None => Raise RuntimeError
       end, H')
  | (Raise e, H') => (Raise e, H')
  end.

(** Two calls in a row both have the outcome [r], and the store after them is
    the store before the first call followed by new tensors: no tensor that
    existed before is written. *)
Definition twice (m : M loc) (H : store) (r : res tensor) : Prop :=
  exists L1 L2,
    outcome m H = (r, H ++ L1)
    /\ outcome m (H ++ L1) = (r, H ++ L1 ++ L2).

(** *** BoxBarrier *)

Module BoxBarrier.

Record t : Type := mk {
  bounds : loc;
  ZERO : loc;
  dimension : nat;
  diag_hess : bool
}.

Definition _safe_diff (self : t) (x : loc) : M loc :=
  b2 <~ alloc1 (vv torch.square) (bounds self) ;;
  x2 <~ alloc1 (vv torch.square) x ;;
  d <~ alloc2 (vvv torch.sub) b2 x2 ;;
  alloc1 (vv (fun v => torch.clamp_min v 1e-08)) d.

Definition feasibility (self : t) (x : loc) : M loc :=
  a <~ alloc1 (vv torch.abs) x ;;
  c <~ alloc2 (vvbv torch.le) a (bounds self) ;;
  alloc1 (bvb torch.all) c.

Definition value (self : t) (x : loc) : M loc :=
  d <~ _safe_diff self x ;;
  l <~ alloc1 (vv torch.log) d ;;
  s <~ alloc1 (vs torch.sum) l ;;
  alloc1 (ss f64.neg) s.

Definition gradient (self : t) (x : loc) : M loc :=
  x2 <~ alloc1 (vv (torch.muls (Fin 2))) x ;;
  d <~ _safe_diff self x ;;
  alloc2 (vvv torch.div) x2 d.

Definition inverse_gradient (self : t) (y : loc) : M loc :=
  ay <~ alloc2 (vvv torch.mul) (bounds self) y ;;
  asqr_ysqr <~ alloc1 (vv torch.square) ay ;;
  t1 <~ alloc1 (vv (torch.adds (Fin 1))) asqr_ysqr ;;
  t2 <~ alloc1 (vv torch.sqrt) t1 ;;
  t3 <~ alloc1 (vv (torch.adds (Fin (-1)))) t2 ;;
  raw <~ alloc2 (vvv torch.div) t3 y ;;
  mask <~ alloc2
            (fun ty tz =>
               match ty, tz with
               | TV v, TS z => Ok (TBV (map (fun a => f64.isclose a z 1e-05 1e-07) v))
               | _, _ => Raise RuntimeError
               end) y (ZERO self) ;;
  inplace2 (vbvv (fun v m => torch.masked_fill v m (Fin 0))) raw mask.

Definition hessian (self : t) (x : loc) : M loc :=
  d <~ _safe_diff self x ;;
  reci_diff <~ inplace1 (vv torch.reciprocal) d ;;
  t1 <~ alloc1 (vv (torch.muls (Fin 2))) reci_diff ;;
  t2 <~ alloc2 (vvv torch.mul) x reci_diff ;;
  t3 <~ alloc1 (vv torch.square) t2 ;;
  t4 <~ alloc1 (vv (torch.muls (Fin 4))) t3 ;;
  output <~ alloc2 (vvv torch.add) t1 t4 ;;
  inplace1 (vv (fun v => torch.clamp_max v 1e07)) output.

Definition boundary_to_interior_half (self : t) (x : loc) : M loc :=
  a <~ alloc1 (vv torch.abs) x ;;
  match dimension self with
  | O => raise ZeroDivisionError
  | S _ =>
      let c := Rpower 0.5 (1 / INR (dimension self)) in
      t <~ alloc1 (vv (torch.muls (Fin c))) (bounds self) ;;
      m <~ alloc2 (vvbv torch.gt) a t ;;
      alloc1 (bvb torch.any) m
  end.

End BoxBarrier.

(** *** EllipsoidBarrier *)

Module EllipsoidBarrier.

Record t : Type := mk {
  rot : loc;
  eigvals : loc;
  dimension : nat;
  diag_hess : bool
}.

(** [einsum("ij,...j->...i", rot.T, x)]; [rot.T] is a view of [rot], which is
    only read. *)
Definition UT (self : t) (x : loc) : M loc :=
  alloc2 (mvv (fun U v => torch.einsum_ij_j (torch.T U) v)) (rot self) x.

Definition _ellipsoid_inner_product (self : t) (x : loc) : M loc :=
  UTx <~ UT self x ;;
  sq <~ alloc1 (vv torch.square) UTx ;;
  p <~ alloc2 (vvv torch.mul) sq (eigvals self) ;;
  alloc1 (vs torch.sum) p.

Definition _inverse_ellipsoid_inner_product (self : t) (y : loc) : M loc :=
  UTy <~ UT self y ;;
  sq <~ alloc1 (vv torch.square) UTy ;;
  p <~ alloc2 (vvv torch.div) sq (eigvals self) ;;
  alloc1 (vs torch.sum) p.

Definition _ellipsoid_map (self : t) (x : loc) : M loc :=
  UTx <~ UT self x ;;
  UL <~ alloc2 (mvm EllipsoidBarrier.rows_mul) (rot self) (eigvals self) ;;
  alloc2 (mvv torch.einsum_ij_j) UL UTx.

Definition _inverse_ellipsoid_map (self : t) (y : loc) : M loc :=
  UTx <~ UT self y ;;
  UL <~ alloc2 (mvm EllipsoidBarrier.rows_div) (rot self) (eigvals self) ;;
  alloc2 (mvv torch.einsum_ij_j) UL UTx.

Definition feasibility (self : t) (x : loc) : M loc :=
  p <~ _ellipsoid_inner_product self x ;;
  alloc1 (sb (fun a => f64.le a (Fin 1))) p.

Definition value (self : t) (x : loc) : M loc :=
  inner_product <~ _ellipsoid_inner_product self x ;;
  mask <~ alloc1 (sb (fun a => f64.ge a (Fin 1))) inner_product ;;
  _ <~ inplace2 (sbs (fill_where (Fin 0))) inner_product mask ;;
  n <~ alloc1 (ss f64.neg) inner_product ;;
  l <~ alloc1 (ss f64.log1p) n ;;
  alloc1 (ss f64.neg) l.

Definition one_minus_xAx (self : t) (x : loc) : M loc :=
  p <~ _ellipsoid_inner_product self x ;;
  om <~ alloc1 (ss (f64.sub (Fin 1))) p ;;
  inplace1 (ss (fun a => f64.clamp_min a 1e-08)) om.

Definition gradient (self : t) (x : loc) : M loc :=
  om <~ one_minus_xAx self x ;;
  Ax <~ _ellipsoid_map self x ;;
  t2 <~ alloc1 (vv (torch.muls (Fin 2))) Ax ;;
  alloc2 (vsv torch.divs) t2 om.

Definition inverse_gradient (self : t) (y : loc) : M loc :=
  q <~ _inverse_ellipsoid_inner_product self y ;;
  yinvAy <~ alloc1 (ss (fun a => f64.clamp_min a 1e-08)) q ;;
  t1 <~ alloc1 (ss (f64.add (Fin 1))) yinvAy ;;
  t2 <~ alloc1 (ss f64.sqrt) t1 ;;
  t3 <~ alloc1 (ss (f64.add (Fin (-1)))) t2 ;;
  lambda_cons <~ alloc2 (sss f64.div) t3 yinvAy ;;
  im <~ _inverse_ellipsoid_map self y ;;
  alloc2 (svv torch.muls) lambda_cons im.

Definition hessian (self : t) (x : loc) : M loc :=
  om <~ one_minus_xAx self x ;;
  Ax <~ _ellipsoid_map self x ;;
  t2 <~ alloc1 (vv (torch.muls (Fin 2))) Ax ;;
  _ <~ unsqueeze_ om ;;
  scaled_Ax <~ alloc2 (vsv torch.divs) t2 om ;;
  l2 <~ alloc1 (vv (torch.muls (Fin 2))) (eigvals self) ;;
  _ <~ unsqueeze_ om ;;
  scaled_L <~ alloc2 (vsv torch.divs) l2 om ;;
  UL <~ alloc2 (mvm EllipsoidBarrier.rows_mul) (rot self) scaled_L ;;
  ULUT <~ alloc2 (mmm (fun a U => EllipsoidBarrier.einsum_ij_jk a (torch.T U)))
            UL (rot self) ;;
  o <~ alloc2 (vvm EllipsoidBarrier.outer) scaled_Ax scaled_Ax ;;
  alloc2 (mmm torch.madd) ULUT o.

Definition boundary_to_interior_half (self : t) (x : loc) : M loc :=
  p <~ _ellipsoid_inner_product self x ;;
  match dimension self with
  | O => raise ZeroDivisionError
  | S _ =>
      alloc1 (sb (fun a => f64.gt a (Fin (Rpower 0.5 (2 / INR (dimension self)))))) p
  end.

End EllipsoidBarrier.

(** *** SimplexBarrier *)

Module SimplexBarrier.

Record t : Type := mk {
  dimension : nat;
  diag_hess : bool
}.

Definition _safe_interior (self : t) (x : loc) (squeeze_last_dim : bool) : M loc :=
  s <~ alloc1 (vs torch.sum) x ;;
  d <~ alloc1 (ss (f64.sub (Fin 1))) s ;;
  alloc1 (ss (fun a => f64.clamp_min a 1e-08)) d.

Definition feasibility (self : t) (x : loc) : M loc :=
  s <~ alloc1 (vs torch.sum) x ;;
  sum_one_cons <~ alloc1 (sb (fun a => f64.le a (Fin 1))) s ;;
  ge <~ alloc1 (vbv (map (fun a => f64.ge a (Fin 0)))) x ;;
  pos_cons <~ alloc1 (bvb torch.all) ge ;;
  inplace2 (bbb andb) sum_one_cons pos_cons.

Definition value (self : t) (x : loc) : M loc :=
  l <~ alloc1 (vv torch.log) x ;;
  s <~ alloc1 (vs torch.sum) l ;;
  n <~ alloc1 (ss f64.neg) s ;;
  si <~ _safe_interior self x true ;;
  l2 <~ alloc1 (ss f64.log) si ;;
  alloc2 (sss f64.sub) n l2.

Definition gradient (self : t) (x : loc) : M loc :=
  x_safe <~ alloc1 (vv (fun v => torch.clamp_min v 1e-08)) x ;;
  q <~ alloc1 (vv (torch.rdivs (Fin (-1)))) x_safe ;;
  si <~ _safe_interior self x false ;;
  r <~ alloc1 (ss f64.reciprocal) si ;;
  alloc2 (vsv torch.addr) q r.

Definition hessian (self : t) (x : loc) : M loc :=
  sq <~ alloc1 (vv torch.square) x ;;
  _ <~ inplace1 (vv torch.reciprocal) sq ;;
  one_over_x_squared <~ inplace1 (vv (fun v => torch.clamp_max v 1e08)) sq ;;
  si <~ _safe_interior self x false ;;
  _ <~ inplace1 (ss f64.reciprocal) si ;;
  _ <~ inplace1 (ss f64.square) si ;;
  cons <~ inplace1 (ss (fun a => f64.clamp_max a 1e08)) si ;;
  de <~ alloc1 (vm torch.diag_embed) one_over_x_squared ;;
  _ <~ unsqueeze_ cons ;;
  alloc2 (msm (fun m c => map (fun row => torch.addr row c) m)) de cons.

(** The local function [f]; [c.unsqueeze(-1)] is a view of [c]. *)
Definition f (y : loc) (c : loc) : M loc :=
  t1 <~ alloc2 (svv torch.muls) c y ;;
  t2 <~ alloc1 (vv (torch.rsubs (Fin 1))) t1 ;;
  t3 <~ alloc1 (vv (torch.rdivs (Fin 1))) t2 ;;
  t4 <~ alloc1 (vs torch.sum) t3 ;;
  t5 <~ alloc2 (sss f64.mul) c t4 ;;
  t6 <~ alloc2 (sss f64.add) c t5 ;;
  alloc1 (ss (fun a => f64.sub a (Fin 1))) t6.

(** One turn of the loop: [c_middle[mask]] and [c_middle[~mask]] are new
    tensors, and the two assignments write [c_upper] and [c_lower] in place. *)
Definition bisect (y c_lower c_upper : loc) : M unit :=
  s <~ alloc2 (sss f64.add) c_lower c_upper ;;
  c_middle <~ alloc1 (ss (f64.mul (Fin 0.5))) s ;;
  f_middle <~ f y c_middle ;;
  mask <~ alloc1 (sb (fun a => f64.gt a (Fin 0))) f_middle ;;
  taken <~ alloc2 (sbv take_where) c_middle mask ;;
  _ <~ inplace2 (svs put_where) c_upper taken ;;
  not_mask <~ alloc1 (bb negb) mask ;;
  taken' <~ alloc2 (sbv take_where) c_middle not_mask ;;
  _ <~ alloc1 (bb negb) mask ;;
  _ <~ inplace2 (svs put_where) c_lower taken' ;;
  ret tt.

Definition max_dim (t : tensor) : res tensor :=
  match t with
  | TV v => a <- torch.max v ;; Ok (TS a)
  | _ => Raise RuntimeError
  end.

Definition inverse_gradient (self : t) (y : loc) : M loc :=
  c_lower <~ new (TS (Fin 0)) ;;
  m <~ alloc1 max_dim y ;;
  c_upper <~ alloc1 (ss f64.reciprocal) m ;;
  _ <~ inplace1 (ss (fun a => f64.clamp_max a 1)) c_upper ;;
  mask <~ alloc1 (sb (fun a => f64.lt a (Fin 0))) c_upper ;;
  _ <~ inplace2 (sbs (fill_where (Fin 1))) c_upper mask ;;
  _ <~ for_range 35 (bisect y c_lower c_upper) ;;
  t1 <~ alloc2 (svv torch.muls) c_upper y ;;
  t2 <~ alloc1 (vv (torch.rsubs (Fin 1))) t1 ;;
  t3 <~ alloc2 (svv torch.rdivs) c_upper t2 ;;
  alloc1 (vv (fun v => torch.clamp_min v 1e-08)) t3.

Definition boundary_to_interior_half (self : t) (x : loc) : M loc :=
  match dimension self with
  | O => raise ZeroDivisionError
  | S _ =>
      let a := Fin (Rpower 0.5 (1 / INR (dimension self))) in
      s <~ alloc1 (vs torch.sum) x ;;
      value_of_mask <~ alloc1 (ss (f64.sub a)) s ;;
      alloc1 (sb (fun v => f64.lt v (Fin 0))) value_of_mask
  end.

End SimplexBarrier.

(** *** PolytopeBarrier *)

Module PolytopeBarrier.

Record t : Type := mk {
  A : loc;
  b : loc;
  weights : option loc;
  dimension : nat;
  diag_hess : bool
}.

Definition _Ax (self : t) (x : loc) : M loc :=
  if negb (diag_hess self)
  then alloc2 (mvv torch.einsum_ij_j) (A self) x
  else alloc2 (vvv torch.mul) (A self) x.

Definition _safe_slack (self : t) (x : loc) : M loc :=
  vals <~ _Ax self x ;;
  d <~ alloc2 (vvv torch.sub) (b self) vals ;;
  alloc1 (vv (fun v => torch.clamp_min v 1e-08)) d.

Definition feasibility (self : t) (x : loc) : M loc :=
  v <~ _Ax self x ;;
  c <~ alloc2 (vvbv torch.le) v (b self) ;;
  alloc1 (bvb torch.all) c.

Definition value (self : t) (x : loc) : M loc :=
  s <~ _safe_slack self x ;;
  value_vector <~ alloc1 (vv torch.log) s ;;
  _ <~ match weights self with
       | Some w => inplace2 (vvv torch.mul) value_vector w
       | None => ret value_vector
       end ;;
  t1 <~ alloc1 (vs torch.sum) value_vector ;;
  alloc1 (ss f64.neg) t1.

Definition gradient (self : t) (x : loc) : M loc :=
  slack <~ _safe_slack self x ;;
  _ <~ match weights self with
       | Some w => inplace2 (vvv torch.div) slack w
       | None => ret slack
       end ;;
  if negb (diag_hess self) then
    r <~ alloc2 (mvm PolytopeBarrier.rows_divs) (A self) slack ;;
    alloc1 (mv (PolytopeBarrier.sum_rows (dimension self))) r
  else alloc2 (vvv torch.div) (A self) slack.

Definition hessian (self : t) (x : loc) : M loc :=
  slack <~ _safe_slack self x ;;
  _ <~ match weights self with
       | Some w =>
           ws <~ alloc1 (vv torch.sqrt) w ;;
           inplace2 (vvv torch.div) slack ws
       | None => ret slack
       end ;;
  if negb (diag_hess self) then
    component <~ alloc2 (mvm PolytopeBarrier.rows_divs) (A self) slack ;;
    products <~ alloc1 (m3 (map (fun c => EllipsoidBarrier.outer c c))) component ;;
    alloc1 (t3m (PolytopeBarrier.sum_mats (dimension self))) products
  else
    q <~ alloc2 (vvv torch.div) (A self) slack ;;
    alloc1 (vv torch.square) q.

Definition inverse_gradient (self : t) (x : loc) : M loc :=
  raise NotImplementedError.

End PolytopeBarrier.

(** *** The base class *)

Module Barrier.

Definition inverse_gradient {self : Type} (_ : self) (y : loc) : M loc :=
  raise NotImplementedError.

Definition boundary_to_interior_half {self : Type} (_ : self) (x : loc) : M loc :=
  raise NotImplementedError.

End Barrier.

(** *** Instances and ComposeBarrier *)

#[warnings="-register-all"]
Inductive obj : Type :=
| Box (self : BoxBarrier.t)
| Ellipsoid (self : EllipsoidBarrier.t)
| Simplex (self : SimplexBarrier.t)
| Polytope (self : PolytopeBarrier.t)
| Compose (barriers : list obj) (diag_hess : bool)
          (_hess_compute_order : list nat * list nat).

Module ComposeBarrier.

(** [acc.op_(call())]: the tensor a call returns is combined, in place, into
    the tensor at [acc]. *)
Definition accumulate (f : tensor -> tensor -> res tensor) (acc : loc)
    (call : M loc) : M unit :=
  r <~ call ;; _ <~ inplace2 f acc r ;; ret tt.

Definition feasibility (calls : list (M loc)) (x : loc) : M loc :=
  check <~ new (TB true) ;;
  _ <~ for_each calls (accumulate (bbb andb) check) ;;
  ret check.

Definition value (calls : list (M loc)) (x : loc) : M loc :=
  value <~ new (TS (Fin 0)) ;;
  _ <~ for_each calls (accumulate (sss f64.add) value) ;;
  ret value.

Definition gradient (calls : list (M loc)) (x : loc) : M loc :=
  gradient <~ alloc1 (vv ComposeBarrier.zeros_like) x ;;
  _ <~ for_each calls (accumulate (vvv torch.add) gradient) ;;
  ret gradient.

Definition call_at (calls : list (M loc)) (idx : nat) : M loc :=
  match nth_error calls idx with
  | Some call => call
  | None => raise IndexError
  end.

(** [hessian += h]. *)
Definition iadd (hessian h : tensor) : res tensor :=
  match hessian, h with
  | TV a, TV v => Ok (TV (torch.add a v))
  | TM a, TV v => Ok (TM (map (fun row => torch.add row v) a))
  | TM a, TM m => Ok (TM (torch.madd a m))
  | _, _ => Raise RuntimeError
  end.

Definition read_local (v : option loc) : M loc :=
  match v with
  | Some l => ret l
  | None => raise UnboundLocalError
  end.

Definition hessian (self_diag_hess : bool) (_hess_compute_order : list nat * list nat)
    (calls : list (M loc)) (x : loc) : M loc :=
  hessian <~
    (if (0 <? length (snd _hess_compute_order))%nat then
       h <~ alloc1 (vv ComposeBarrier.zeros_like) x ;;
       _ <~ for_each (snd _hess_compute_order)
              (fun idx => accumulate iadd h (call_at calls idx)) ;;
       ret (Some h)
     else ret None) ;;
  if negb self_diag_hess then
    h <~ read_local hessian ;;
    h <~ alloc1 (vm torch.diag_embed) h ;;
    _ <~ for_each (fst _hess_compute_order)
           (fun idx => accumulate iadd h (call_at calls idx)) ;;
    ret h
  else read_local hessian.

End ComposeBarrier.

(** *** Method calls on an instance *)

Fixpoint feasibility (o : obj) (x : loc) : M loc :=
  match o with
  | Box self => BoxBarrier.feasibility self x
  | Ellipsoid self => EllipsoidBarrier.feasibility self x
  | Simplex self => SimplexBarrier.feasibility self x
  | Polytope self => PolytopeBarrier.feasibility self x
  | Compose barriers _ _ =>
      ComposeBarrier.feasibility (map (fun c => feasibility c x) barriers) x
  end.

Fixpoint value (o : obj) (x : loc) : M loc :=
  match o with
  | Box self => BoxBarrier.value self x
  | Ellipsoid self => EllipsoidBarrier.value self x
  | Simplex self => SimplexBarrier.value self x
  | Polytope self => PolytopeBarrier.value self x
  | Compose barriers _ _ =>
      ComposeBarrier.value (map (fun c => value c x) barriers) x
  end.

Fixpoint gradient (o : obj) (x : loc) : M loc :=
  match o with
  | Box self => BoxBarrier.gradient self x
  | Ellipsoid self => EllipsoidBarrier.gradient self x
  | Simplex self => SimplexBarrier.gradient self x
  | Polytope self => PolytopeBarrier.gradient self x
  | Compose barriers _ _ =>
      ComposeBarrier.gradient (map (fun c => gradient c x) barriers) x
  end.

Fixpoint hessian (o : obj) (x : loc) : M loc :=
  match o with
  | Box self => BoxBarrier.hessian self x
  | Ellipsoid self => EllipsoidBarrier.hessian self x
  | Simplex self => SimplexBarrier.hessian self x
  | Polytope self => PolytopeBarrier.hessian self x
  | Compose barriers dh order =>
      ComposeBarrier.hessian dh order (map (fun c => hessian c x) barriers) x
  end.

Definition inverse_gradient (o : obj) (y : loc) : M loc :=
  match o with
  | Box self => BoxBarrier.inverse_gradient self y
  | Ellipsoid self => EllipsoidBarrier.inverse_gradient self y
  | Simplex self => SimplexBarrier.inverse_gradient self y
  | Polytope self => PolytopeBarrier.inverse_gradient self y
  | Compose _ _ _ => Barrier.inverse_gradient o y
  end.

Definition boundary_to_interior_half (o : obj) (x : loc) : M loc :=
  match o with
  | Box self => BoxBarrier.boundary_to_interior_half self x
  | Ellipsoid self => EllipsoidBarrier.boundary_to_interior_half self x
  | Simplex self => SimplexBarrier.boundary_to_interior_half self x
  | Polytope _ => Barrier.boundary_to_interior_half o x
  | Compose _ _ _ => Barrier.boundary_to_interior_half o x
  end.

End Store.

(** ** The values a store holds for an instance

    [stored H o b]: in the store [H] the tensors at the locations of the
    object [o] are the parameters of the barrier [b], and the attributes of
    [o] are those of [b]. *)

Definition tensor_of_A (a : PolytopeBarrier.tensor_A) : Store.tensor :=
  match a with
  | PolytopeBarrier.Diag v => Store.TV v
  | PolytopeBarrier.Full m => Store.TM m
  end.

Definition stored_weights (H : Store.store) (l : option Store.loc) (w : option vec)
  : Prop :=
  match l, w with
  | Some l, Some w => nth_error H l = Some (Store.TV w)
  | None, None => True
  | _, _ => False
  end.

Fixpoint stored (H : Store.store) (o : Store.obj) (b : barrier) {struct o} : Prop :=
  match o, b with
  | Store.Box so, Box sb =>
      nth_error H (Store.BoxBarrier.bounds so) = Some (Store.TV (BoxBarrier.bounds sb))
      /\ nth_error H (Store.BoxBarrier.ZERO so) = Some (Store.TS BoxBarrier.ZERO)
      /\ Store.BoxBarrier.dimension so = BoxBarrier.dimension sb
      /\ Store.BoxBarrier.diag_hess so = BoxBarrier.diag_hess sb
  | Store.Ellipsoid so, Ellipsoid sb =>
      nth_error H (Store.EllipsoidBarrier.rot so)
      = Some (Store.TM (EllipsoidBarrier.rot (EllipsoidBarrier.ellipsoid sb)))
      /\ nth_error H (Store.EllipsoidBarrier.eigvals so)
         = Some (Store.TV (EllipsoidBarrier.eigvals (EllipsoidBarrier.ellipsoid sb)))
      /\ Store.EllipsoidBarrier.dimension so = EllipsoidBarrier.dimension sb
      /\ Store.EllipsoidBarrier.diag_hess so = EllipsoidBarrier.diag_hess sb
  | Store.Simplex so, Simplex sb =>
      Store.SimplexBarrier.dimension so = SimplexBarrier.dimension sb
      /\ Store.SimplexBarrier.diag_hess so = SimplexBarrier.diag_hess sb
  | Store.Polytope so, Polytope sb =>
      nth_error H (Store.PolytopeBarrier.A so)
      = Some (tensor_of_A (PolytopeBarrier.A (PolytopeBarrier.polytope sb)))
      /\ nth_error H (Store.PolytopeBarrier.b so)
         = Some (Store.TV (PolytopeBarrier.b (PolytopeBarrier.polytope sb)))
      /\ stored_weights H (Store.PolytopeBarrier.weights so) (PolytopeBarrier.weights sb)
      /\ Store.PolytopeBarrier.dimension so = PolytopeBarrier.dimension sb
      /\ Store.PolytopeBarrier.diag_hess so = PolytopeBarrier.diag_hess sb
      /\ PolytopeBarrier.diag_hess sb
         = match PolytopeBarrier.A (PolytopeBarrier.polytope sb) with
           | PolytopeBarrier.Diag _ => true
           | PolytopeBarrier.Full _ => false
           end
  | Store.Compose os dh order, Compose bs dh' order' =>
      dh = dh' /\ order = order'
      /\ (fix all (os : list Store.obj) (bs : list barrier) : Prop :=
            match os, bs with
            | [], [] => True
            | o' :: os', b' :: bs' => stored H o' b' /\ all os' bs'
            | _, _ => False
            end) os bs
  | _, _ => False
  end.

(** The tensor a Hessian is. *)
Definition tensor_of_hess (h : hess) : Store.tensor :=
  match h with
  | HDiag v => Store.TV v
  | HFull m => Store.TM m
  end.

(** A method over the store agrees with the method on values: on every store
    that holds the parameters of a barrier [b] at the locations of the object
    [o], and the input [xv] at the location [x], the call has the outcome of
    the method on [b] and [xv]. *)
Definition agrees (x : Store.loc) (xv : vec)
    (scall : Store.obj -> Store.M Store.loc)
    (pcall : barrier -> res Store.tensor) (o : Store.obj) : Prop :=
  forall H b,
    stored H o b -> nth_error H x = Some (Store.TV xv) ->
    Store.yields (scall o) H (pcall b).

(** ** Reference definitions

    Written from the words of the specification, to be compared with the
    methods above. *)

Module Spec.

(** Section 4.3: the closed form [(-1 + sqrt(1 + a^2 y^2)) / y]. *)
Definition box_closed_form (a y : scalar) : scalar :=
  f64.div
    (f64.add (Fin (-1))
       (f64.sqrt (f64.add (Fin 1) (f64.mul (f64.square a) (f64.square y)))))
    y.

(** Section 4.3: the closed form per coordinate, and [0] wherever [y] is close
    to zero with [atol=1e-7, rtol=1e-5]. *)
Definition box_inverse_gradient (bounds y : vec) : vec :=
  torch.map2
    (fun a yi =>
       if f64.isclose yi (Fin 0) 1e-05 1e-07 then Fin 0 else box_closed_form a yi)
    bounds y.

(** Section 8: a point scaled elementwise by [(bounds + 1) / bounds]. *)
Definition scale_outside (bounds x : vec) : vec :=
  torch.mul x (torch.div (torch.addr bounds (Fin 1)) bounds).

(** Section 4.5: the inverse gradient of the simplex barrier.  The upper end
    of the bracket is [min(1, 1 / max(y))], and [1] whenever the unclamped
    bound is negative. *)
Definition simplex_c_upper (y_max : scalar) : scalar :=
  let bound := f64.div (Fin 1) y_max in
  if f64.lt bound (Fin 0) then Fin 1 else f64.clamp_max bound 1.

(** [f(c) = c + c * sum_i 1 / (1 - c * y_i) - 1]. *)
Definition simplex_f (y : vec) (c : scalar) : scalar :=
  f64.sub
    (f64.add c
       (f64.mul c
          (torch.sum
             (map (fun yi => f64.div (Fin 1) (f64.sub (Fin 1) (f64.mul c yi))) y))))
    (Fin 1).

(** One bisection: [f] is taken at the midpoint of the bracket; the upper
    bound moves down when it is positive, else the lower bound moves up. *)
Definition simplex_bisection (y : vec) (bracket : scalar * scalar) : scalar * scalar :=
  let middle := f64.mul (Fin 0.5) (f64.add (fst bracket) (snd bracket)) in
  if f64.gt (simplex_f y middle) (Fin 0)
  then (fst bracket, middle)
  else (middle, snd bracket).

(** Thirty-five bisections from the bracket [[0, c_upper]], then
    [x = c / (1 - c * y)] elementwise, floored at [1e-8], with [c] the upper end
    of the last bracket. *)
Definition simplex_inverse_gradient (y : vec) : res vec :=
  y_max <- torch.max y ;;
  let bracket := Nat.iter 35 (simplex_bisection y) (Fin 0, simplex_c_upper y_max) in
  let c := snd bracket in
  Ok (map (fun yi => f64.clamp_min (f64.div c (f64.sub (Fin 1) (f64.mul c yi))) 1e-08) y).

End Spec.

(** ** Shapes and construction *)

(** A matrix of shape [(r, c)]. *)
Definition has_shape (r c : nat) (m : mat) : Prop :=
  length m = r /\ Forall (fun row => length row = c) m.

(** The parameters of a barrier have the shapes of the data model for the
    ambient dimension [d]: [bounds] and [eigvals] of length [d], [rot] of
    shape [(d, d)], [A] of shape [(m, d)] with [b] (and the weights, if any)
    of length [m], or [A] and [b] of length [d] for a diagonal [A]. *)
Fixpoint shaped (d : nat) (b : barrier) : Prop :=
  match b with
  | Box self => length (BoxBarrier.bounds self) = d
  | Ellipsoid self =>
      length (EllipsoidBarrier.eigvals (EllipsoidBarrier.ellipsoid self)) = d
      /\ has_shape d d (EllipsoidBarrier.rot (EllipsoidBarrier.ellipsoid self))
  | Simplex self => SimplexBarrier.dimension self = d
  | Polytope self =>
      PolytopeBarrier.dimension self = d
      /\ match PolytopeBarrier.A (PolytopeBarrier.polytope self) with
         | PolytopeBarrier.Diag a =>
             length a = d
             /\ length (PolytopeBarrier.b (PolytopeBarrier.polytope self)) = d
         | PolytopeBarrier.Full a =>
             has_shape (length (PolytopeBarrier.b (PolytopeBarrier.polytope self))) d a
         end
      /\ match PolytopeBarrier.weights self with
         | Some w => length w = length (PolytopeBarrier.b (PolytopeBarrier.polytope self))
         | None => True
         end
  | Compose barriers _ _ =>
      (fix all (l : list barrier) : Prop :=
         match l with
         | [] => True
         | c :: l' => shaped d c /\ all l'
         end) barriers
  end.

(** The instance is the value of the [__init__] of its class, and so are the
    constituents of a composition. *)
Fixpoint constructed (b : barrier) : Prop :=
  match b with
  | Box self => self = BoxBarrier.__init__ (BoxBarrier.bounds self)
  | Ellipsoid self => self = EllipsoidBarrier.__init__ (EllipsoidBarrier.ellipsoid self)
  | Simplex self => self = SimplexBarrier.__init__ (SimplexBarrier.dimension self)
  | Polytope self =>
      PolytopeBarrier.__init__ (PolytopeBarrier.polytope self)
        (PolytopeBarrier.weights self) = Ok self
  | Compose barriers dh order =>
      Compose barriers dh order = ComposeBarrier.__init__ barriers
      /\ (fix all (l : list barrier) : Prop :=
            match l with
            | [] => True
            | c :: l' => constructed c /\ all l'
            end) barriers
  end.


(** The flag of a barrier agrees with a Hessian it returned for a point of
    dimension [d]: a vector of length [d] under a true flag, a matrix of shape
    [(d, d)] under a false one. *)
Definition consistent (d : nat) (b : barrier) (h : hess) : Prop :=
  match h with
  | HDiag v => diag_hess b = true /\ length v = d
  | HFull m => diag_hess b = false /\ has_shape d d m
  end.

(** ** The bisection on real numbers *)

Definition Rsum (l : list R) : R := fold_right Rplus 0 l.

(** [f(c) = c + c * sum_i 1 / (1 - c * y_i) - 1]. *)
Definition simplex_fR (ys : list R) (c : R) : R :=
  c + c * Rsum (map (fun y => 1 / (1 - c * y)) ys) - 1.




(** ** Real matrices

    The operations of [EllipsoidBarrier] on real numbers: a matrix is the
    list of its rows. *)

Definition dotR (x y : list R) : R := Rsum (torch.map2 Rmult x y).

Definition matvec (M : list (list R)) (x : list R) : list R :=
  map (fun row => dotR row x) M.

Fixpoint transpose_auxR (n : nat) (M : list (list R)) : list (list R) :=
  match n with
  | O => []
  | S n' => map (fun row => hd 0 row) M :: transpose_auxR n' (map (@tl R) M)
  end.

Definition transposeR (M : list (list R)) : list (list R) :=
  match M with
  | [] => []
  | row :: _ => transpose_auxR (length row) M
  end.

Definition lift (M : list (list R)) : mat := map (map Fin) M.

Definition scale (k : R) (v : list R) : list R := map (Rmult k) v.

(** A [d x d] matrix whose transpose is its inverse. *)
Definition orthogonal (d : nat) (U : list (list R)) : Prop :=
  length U = d
  /\ Forall (fun row => length row = d) U
  /\ (forall z, length z = d -> matvec (transposeR U) (matvec U z) = z)
  /\ (forall z, length z = d -> matvec U (matvec (transposeR U) z) = z).

(** [<x, M x>], [M x], [<y, inv(M) y>] and [inv(M) y] for
    [M = U diag(L) U^T], computed as the methods do. *)
Definition ellipsoid_form (U : list (list R)) (L x : list R) : R :=
  Rsum (torch.map2 Rmult (map (fun a => a * a) (matvec (transposeR U) x)) L).

Definition ellipsoid_apply (U : list (list R)) (L x : list R) : list R :=
  matvec (map (fun row => torch.map2 Rmult row L) U) (matvec (transposeR U) x).

Definition inverse_form (U : list (list R)) (L y : list R) : R :=
  Rsum (torch.map2 Rdiv (map (fun a => a * a) (matvec (transposeR U) y)) L).

Definition inverse_apply (U : list (list R)) (L y : list R) : list R :=
  matvec (map (fun row => torch.map2 Rdiv row L) U) (matvec (transposeR U) y).

(** The ellipsoid barrier of a real rotation and real eigenvalues. *)
Definition ellipsoid_of (U : list (list R)) (L : list R) : EllipsoidBarrier.t :=
  EllipsoidBarrier.__init__
    {| EllipsoidBarrier.rot := lift U; EllipsoidBarrier.eigvals := map Fin L |}.

(** ** Barriers that are not compositions *)

Definition is_leaf (b : barrier) : bool :=
  match b with
  | Compose _ _ _ => false
  | _ => true
  end.

(** ** Instances used as examples *)

(** The unit ball of dimension 3, as in the tests: [rot] is the identity and
    the eigenvalues are all [1]. *)
Definition unit_ball3 : EllipsoidBarrier.t :=
  EllipsoidBarrier.__init__
    (EllipsoidBarrier.mk_ellipsoid
       [[Fin 1; Fin 0; Fin 0]; [Fin 0; Fin 1; Fin 0]; [Fin 0; Fin 0; Fin 1]]
       [Fin 1; Fin 1; Fin 1]).

(** The composition of the tests, in dimension 3: the unit box and the unit
    ball. *)
Definition unit_box3 : BoxBarrier.t :=
  BoxBarrier.__init__ [Fin 1; Fin 1; Fin 1].

Definition box_ball3 : barrier :=
  ComposeBarrier.__init__ [Box unit_box3; Ellipsoid unit_ball3].

(** A store that holds the parameters of [box_ball3] and the origin as the
    input, and the object of [box_ball3] in this store. *)
Definition store3 : Store.store :=
  [Store.TV [Fin 1; Fin 1; Fin 1];
   Store.TS (Fin 0);
   Store.TM [[Fin 1; Fin 0; Fin 0]; [Fin 0; Fin 1; Fin 0]; [Fin 0; Fin 0; Fin 1]];
   Store.TV [Fin 1; Fin 1; Fin 1];
   Store.TV [Fin 0; Fin 0; Fin 0]].

Definition box_ball3_obj : Store.obj :=
  Store.Compose
    [Store.Box (Store.BoxBarrier.mk 0%nat 1%nat 3%nat true);
     Store.Ellipsoid (Store.EllipsoidBarrier.mk 2%nat 3%nat 3%nat false)]
    false ([1%nat], [0%nat]).


(** The [3 x 3] identity as a rotation. *)
Definition eye3 : list (list R) := [[1; 0; 0]; [0; 1; 0]; [0; 0; 1]].

(** * Properties *)

(** ** Scalars *)

Lemma Rleb_true (a b : R) : f64.Rleb a b = true <-> a <= b.
Proof. unfold f64.Rleb. destruct (Rle_dec a b); split; intros; try easy; lra. Qed.

Lemma Rleb_false (a b : R) : f64.Rleb a b = false <-> b < a.
Proof. unfold f64.Rleb. destruct (Rle_dec a b); split; intros; try easy; lra. Qed.

Lemma Rltb_true (a b : R) : f64.Rltb a b = true <-> a < b.
Proof. unfold f64.Rltb. destruct (Rlt_dec a b); split; intros; try easy; lra. Qed.

Lemma Rltb_false (a b : R) : f64.Rltb a b = false <-> b <= a.
Proof. unfold f64.Rltb. destruct (Rlt_dec a b); split; intros; try easy; lra. Qed.

Lemma Reqb_true (a b : R) : f64.Reqb a b = true <-> a = b.
Proof. unfold f64.Reqb. destruct (Req_dec_T a b); split; intros; try easy. Qed.

Lemma Reqb_false (a b : R) : f64.Reqb a b = false <-> a <> b.
Proof. unfold f64.Reqb. destruct (Req_dec_T a b); split; intros; try easy. Qed.

(** Decide the comparisons of a goal on real numbers by [lra]. *)
Ltac rbool :=
  repeat match goal with
  | |- context [f64.Rleb ?a ?b] =>
      first [ replace (f64.Rleb a b) with true by (symmetry; apply Rleb_true; lra)
            | replace (f64.Rleb a b) with false by (symmetry; apply Rleb_false; lra) ]
  | |- context [f64.Rltb ?a ?b] =>
      first [ replace (f64.Rltb a b) with true by (symmetry; apply Rltb_true; lra)
            | replace (f64.Rltb a b) with false by (symmetry; apply Rltb_false; lra) ]
  | |- context [f64.Reqb ?a ?b] =>
      first [ replace (f64.Reqb a b) with true by (symmetry; apply Reqb_true; lra)
            | replace (f64.Reqb a b) with false by (symmetry; apply Reqb_false; lra) ]
  end.

(** Case analysis on the comparisons of a goal. *)
Ltac rcases :=
  repeat match goal with
  | |- context [f64.Rleb ?a ?b] =>
      let H := fresh "H" in
      destruct (f64.Rleb a b) eqn:H;
      [ apply Rleb_true in H | apply Rleb_false in H ]
  | |- context [f64.Rltb ?a ?b] =>
      let H := fresh "H" in
      destruct (f64.Rltb a b) eqn:H;
      [ apply Rltb_true in H | apply Rltb_false in H ]
  | |- context [f64.Reqb ?a ?b] =>
      let H := fresh "H" in
      destruct (f64.Reqb a b) eqn:H;
      [ apply Reqb_true in H | apply Reqb_false in H ]
  end.

Lemma signed_inf_pos (x : R) : 0 < x -> f64.signed_inf x = PInf.
Proof. intros. unfold f64.signed_inf. now rbool. Qed.

Lemma signed_inf_neg (x : R) : x < 0 -> f64.signed_inf x = NInf.
Proof. intros. unfold f64.signed_inf. now rbool. Qed.

Lemma signed_inf_zero : f64.signed_inf 0 = NaN.
Proof. unfold f64.signed_inf. now rbool. Qed.

Lemma f64_div_fin (x y : R) : y <> 0 -> f64.div (Fin x) (Fin y) = Fin (x / y).
Proof. intros. unfold f64.div. now apply Reqb_false in H as ->. Qed.

Lemma f64_sqrt_fin (x : R) : 0 <= x -> f64.sqrt (Fin x) = Fin (sqrt x).
Proof. intros. unfold f64.sqrt. now rbool. Qed.

Lemma f64_log_fin (x : R) : 0 < x -> f64.log (Fin x) = Fin (ln x).
Proof. intros. unfold f64.log. now rbool. Qed.

Lemma f64_log_zero : f64.log (Fin 0) = NInf.
Proof. unfold f64.log. now rbool. Qed.

Lemma f64_clamp_min_fin (x m : R) :
  f64.clamp_min (Fin x) m = Fin (if Rlt_dec x m then m else x).
Proof. unfold f64.clamp_min, f64.lt, f64.Rltb. now destruct (Rlt_dec x m). Qed.


Lemma f64_clamp_min_lt (x m : R) : x < m -> f64.clamp_min (Fin x) m = Fin m.
Proof. intros. unfold f64.clamp_min, f64.lt. now rbool. Qed.

(** The square of a product is the product of the squares, special values
    included. *)
Lemma f64_square_mul (a b : scalar) :
  f64.square (f64.mul a b) = f64.mul (f64.square a) (f64.square b).
Proof.
  assert (Hsq : forall x : R, x <> 0 -> 0 < x * x) by (intros; nra).
  unfold f64.square.
  destruct a as [x| | |], b as [y| | |]; cbn; try reflexivity.
  - f_equal. ring.
  - destruct (Req_dec_T x 0) as [->|Hx].
    + rewrite Rmult_0_l, signed_inf_zero. reflexivity.
    + rewrite (signed_inf_pos (x * x)) by auto.
      destruct (Rlt_dec 0 x).
      * now rewrite signed_inf_pos.
      * rewrite signed_inf_neg by lra. reflexivity.
  - destruct (Req_dec_T x 0) as [->|Hx].
    + rewrite Rmult_0_l, Ropp_0, signed_inf_zero. reflexivity.
    + rewrite (signed_inf_pos (x * x)) by auto.
      destruct (Rlt_dec 0 x).
      * rewrite signed_inf_neg by lra. reflexivity.
      * rewrite signed_inf_pos by lra. reflexivity.
  - destruct (Req_dec_T y 0) as [->|Hy].
    + rewrite Rmult_0_l, signed_inf_zero. reflexivity.
    + rewrite (signed_inf_pos (y * y)) by auto.
      destruct (Rlt_dec 0 y).
      * now rewrite signed_inf_pos.
      * rewrite signed_inf_neg by lra. reflexivity.
  - destruct (Req_dec_T y 0) as [->|Hy].
    + rewrite Rmult_0_l, Ropp_0, signed_inf_zero. reflexivity.
    + rewrite (signed_inf_pos (y * y)) by auto.
      destruct (Rlt_dec 0 y).
      * rewrite signed_inf_neg by lra. reflexivity.
      * rewrite signed_inf_pos by lra. reflexivity.
Qed.

Lemma isclose_zero (y : R) :
  f64.isclose (Fin y) (Fin 0) 1e-05 1e-07 = true <-> Rabs y <= 1e-07.
Proof.
  unfold f64.isclose. rewrite Rleb_true, Rminus_0_r, Rabs_R0. lra.
Qed.

(** ** BoxBarrier *)

Lemma box_inverse_gradient_unfold (bounds y : vec) :
  torch.masked_fill
    (torch.div
       (torch.adds (Fin (-1))
          (torch.sqrt (torch.adds (Fin 1) (torch.square (torch.mul bounds y)))))
       y)
    (map (fun a => f64.isclose a BoxBarrier.ZERO 1e-05 1e-07) y) (Fin 0)
  = Spec.box_inverse_gradient bounds y.
Proof.
  revert y. induction bounds as [|a bounds IH]; intros [|yi y]; try reflexivity.
  specialize (IH y).
  unfold torch.masked_fill, torch.div, torch.adds, torch.sqrt, torch.square,
    torch.mul, Spec.box_inverse_gradient in *.
  cbn [map torch.map2]. rewrite IH. unfold Spec.box_closed_form, BoxBarrier.ZERO.
  now rewrite f64_square_mul.
Qed.

Lemma box_closed_form_fin (a y : R) :
  y <> 0 ->
  Spec.box_closed_form (Fin a) (Fin y)
  = Fin ((-1 + sqrt (1 + (a * a) * (y * y))) / y).
Proof.
  intros Hy. unfold Spec.box_closed_form, f64.square.
  cbn [f64.mul f64.add].
  rewrite f64_sqrt_fin by nra.
  cbn [f64.add]. now rewrite f64_div_fin.
Qed.

(** C7.  [BoxBarrier.inverse_gradient] is, coordinate by coordinate, the
    closed form [(-1 + sqrt(1 + a_i^2 y_i^2)) / y_i], and exactly [0] where
    [y_i] is close to zero ([torch.isclose] with [atol=1e-7], [rtol=1e-5],
    which on a finite [y_i] is [|y_i| <= 1e-7]). *)
Theorem box_inverse_gradient_closed_form :
  (forall (self : BoxBarrier.t) (y : vec),
      BoxBarrier.inverse_gradient self y
      = torch.map2
          (fun a yi =>
             if f64.isclose yi (Fin 0) 1e-05 1e-07 then Fin 0
             else Spec.box_closed_form a yi)
          (BoxBarrier.bounds self) y)
  /\ (forall a y : R,
         (if f64.isclose (Fin y) (Fin 0) 1e-05 1e-07 then Fin 0
          else Spec.box_closed_form (Fin a) (Fin y))
         = Fin (if Rle_dec (Rabs y) 1e-07 then 0
                else (-1 + sqrt (1 + (a * a) * (y * y))) / y)).
Proof.
  split.
  - intros self y. unfold BoxBarrier.inverse_gradient.
    apply box_inverse_gradient_unfold.
  - intros a y.
    destruct (Rle_dec (Rabs y) 1e-07) as [Hc|Hc].
    + apply isclose_zero in Hc. now rewrite Hc.
    + destruct (f64.isclose (Fin y) (Fin 0) 1e-05 1e-07) eqn:E.
      * apply isclose_zero in E. contradiction.
      * apply box_closed_form_fin. intros ->. apply Hc.
        rewrite Rabs_R0. lra.
Qed.

Lemma Rabs_le_iff (x a : R) : Rabs x <= a <-> - a <= x <= a.
Proof.
  unfold Rabs. destruct (Rcase_abs x); lra.
Qed.

Lemma box_feasibility_cons (a : scalar) (bounds : vec) (xi : scalar) (x : vec) :
  BoxBarrier.feasibility (BoxBarrier.__init__ (a :: bounds)) (xi :: x)
  = f64.le (f64.abs xi) a
    && BoxBarrier.feasibility (BoxBarrier.__init__ bounds) x.
Proof. reflexivity. Qed.

(** On finite values of equal number, the box test is the conjunction of
    [|x_i| <= a_i]. *)
Lemma box_feasibility_fin (a x : list R) :
  length a = length x ->
  BoxBarrier.feasibility (BoxBarrier.__init__ (map Fin a)) (map Fin x) = true
  <-> Forall2 (fun ai xi => Rabs xi <= ai) a x.
Proof.
  revert x. induction a as [|ai a IH]; intros [|xi x] Hlen; try discriminate.
  - split; [constructor | reflexivity].
  - injection Hlen as Hlen. cbn [map].
    rewrite box_feasibility_cons, andb_true_iff, IH by assumption.
    cbn [f64.abs f64.le]. rewrite Rleb_true.
    split.
    + intros [H1 H2]. now constructor.
    + intros H. inversion H; subst. now split.
Qed.

Lemma scale_outside_fin (a x : list R) :
  Forall (fun ai => 0 < ai) a ->
  Spec.scale_outside (map Fin a) (map Fin x)
  = map Fin (torch.map2 (fun xi ai => xi * ((ai + 1) / ai)) x a).
Proof.
  intros Ha. revert x. induction Ha as [|ai a Hai Ha IH]; intros [|xi x];
    try reflexivity.
  specialize (IH x). unfold Spec.scale_outside, torch.mul, torch.div, torch.addr in *.
  cbn [map torch.map2]. rewrite IH. cbn [f64.add].
  rewrite f64_div_fin by lra. reflexivity.
Qed.

Lemma scaled_inside_iff (ai xi : R) :
  0 < ai ->
  Rabs (xi * ((ai + 1) / ai)) <= ai <-> Rabs xi * (ai + 1) <= ai * ai.
Proof.
  intros Hai.
  assert (Hpos : 0 < (ai + 1) / ai) by (apply Rdiv_lt_0_compat; lra).
  rewrite Rabs_mult, (Rabs_pos_eq ((ai + 1) / ai)) by lra.
  split; intros H.
  - apply (Rmult_le_compat_r ai) in H; [|lra].
    replace (Rabs xi * ((ai + 1) / ai) * ai) with (Rabs xi * (ai + 1)) in H
      by (field; lra).
    exact H.
  - apply (Rmult_le_reg_r ai); [lra|].
    replace (Rabs xi * ((ai + 1) / ai) * ai) with (Rabs xi * (ai + 1))
      by (field; lra).
    exact H.
Qed.

Lemma map2_length {A B C : Type} (f : A -> B -> C) (a : list A) (b : list B) :
  length a = length b -> length (torch.map2 f a b) = length a.
Proof.
  revert b. induction a as [|x a IH]; intros [|y b] H; try discriminate; cbn.
  - reflexivity.
  - f_equal. apply IH. now injection H.
Qed.

Lemma box_scaled_infeasible_iff (a x : list R) :
  Forall (fun ai => 0 < ai) a ->
  length a = length x ->
  BoxBarrier.feasibility (BoxBarrier.__init__ (map Fin a))
    (Spec.scale_outside (map Fin a) (map Fin x)) = false
  <-> Exists (fun p => fst p * fst p < Rabs (snd p) * (fst p + 1)) (combine a x).
Proof.
  intros Ha Hlen. rewrite scale_outside_fin by assumption.
  rewrite <- not_true_iff_false, box_feasibility_fin
    by (rewrite map2_length; congruence).
  revert x Hlen. induction Ha as [|ai a Hai Ha IH]; intros [|xi x] Hlen;
    try discriminate.
  - cbn. split.
    + intros H. exfalso. apply H. constructor.
    + intros H. inversion H.
  - injection Hlen as Hlen. cbn [torch.map2 combine].
    rewrite Exists_cons. cbn [fst snd]. rewrite <- IH by assumption.
    split.
    + intros H.
      destruct (Rlt_dec (ai * ai) (Rabs xi * (ai + 1))) as [Hlt|Hge];
        [now left|right].
      intros HF. apply H. constructor; [|exact HF].
      apply scaled_inside_iff; lra.
    + intros [Hlt|HF] H; inversion H; subst.
      * match goal with Hin : Rabs _ <= ai |- _ =>
          apply scaled_inside_iff in Hin; lra end.
      * contradiction.
Qed.

(** C4, as amended.  Every point of the closed box is feasible.  The point
    scaled elementwise by [(bounds + 1) / bounds] is infeasible exactly when
    some coordinate has [a_i^2 < |x_i| (a_i + 1)]; this is so whenever a
    coordinate lies on the boundary ([|x_i| = a_i], as for the corners that
    the tests scale), and the other points of the box stay feasible. *)
Theorem box_feasibility_scaled (a x : list R) :
  Forall (fun ai => 0 < ai) a ->
  Forall2 (fun ai xi => Rabs xi <= ai) a x ->
  let self := BoxBarrier.__init__ (map Fin a) in
  let scaled := Spec.scale_outside (map Fin a) (map Fin x) in
  BoxBarrier.feasibility self (map Fin x) = true
  /\ (BoxBarrier.feasibility self scaled = false
      <-> Exists (fun p => fst p * fst p < Rabs (snd p) * (fst p + 1))
            (combine a x))
  /\ (Exists (fun p => Rabs (snd p) = fst p) (combine a x) ->
      BoxBarrier.feasibility self scaled = false).
Proof.
  intros Ha Hin self scaled.
  assert (Hlen : length a = length x) by (eapply Forall2_length; eassumption).
  split; [|split].
  - now apply box_feasibility_fin.
  - now apply box_scaled_infeasible_iff.
  - intros Hex. apply box_scaled_infeasible_iff; try assumption.
    assert (Hcomb : Forall (fun p => 0 < fst p) (combine a x)).
    { clear -Ha. generalize x as xs.
      induction Ha as [|ai a' Hai Ha' IH]; intros [|xi xs]; cbn;
        constructor; auto. }
    clear -Hex Hcomb.
    induction Hex as [p l Hp|p l Hex IH]; inversion Hcomb; subst.
    + left. rewrite Hp. nra.
    + right. now apply IH.
Qed.

Lemma box_feasibility_scaled_witness :
  let self := BoxBarrier.__init__ (map Fin [1; 2; 4]) in
  let scaled := Spec.scale_outside (map Fin [1; 2; 4]) (map Fin [1; -2; 0]) in
  BoxBarrier.feasibility self (map Fin [1; -2; 0]) = true
  /\ (BoxBarrier.feasibility self scaled = false
      <-> Exists (fun p => fst p * fst p < Rabs (snd p) * (fst p + 1))
            (combine [1; 2; 4] [1; -2; 0]))
  /\ (Exists (fun p => Rabs (snd p) = fst p) (combine [1; 2; 4] [1; -2; 0]) ->
      BoxBarrier.feasibility self scaled = false).
Proof.
  apply (box_feasibility_scaled [1; 2; 4] [1; -2; 0]).
  - repeat constructor; lra.
  - repeat (apply Forall2_cons; [apply Rabs_le_iff; lra|]). apply Forall2_nil.
Defined.

(** C4, as stated, fails: the origin lies in the box [[-1, 1]^3] and is its
    own image under the scaling, so the scaled point is feasible. *)
Lemma box_scaled_origin_feasible :
  ~ (forall a x : list R,
        Forall (fun ai => 0 < ai) a ->
        Forall2 (fun ai xi => Rabs xi <= ai) a x ->
        BoxBarrier.feasibility (BoxBarrier.__init__ (map Fin a)) (map Fin x) = true
        /\ BoxBarrier.feasibility (BoxBarrier.__init__ (map Fin a))
             (Spec.scale_outside (map Fin a) (map Fin x)) = false).
Proof.
  intros H.
  destruct (H [1; 1; 1] [0; 0; 0]) as [_ Hout].
  - repeat constructor; lra.
  - repeat (apply Forall2_cons; [apply Rabs_le_iff; lra|]). apply Forall2_nil.
  - apply box_scaled_infeasible_iff in Hout;
      [|repeat constructor; lra|reflexivity].
    cbn in Hout.
    repeat match goal with
           | H : Exists _ _ |- _ => inversion H; clear H; subst
           end;
    cbn in *; rewrite Rabs_R0 in *; lra.
Qed.

(** ** EllipsoidBarrier *)

(** C5.  Where the inner product [<x, Mx>] the method computes is at least
    [1] (on or outside the boundary), [EllipsoidBarrier.value] is exactly [0]:
    the inner product is replaced by [0] before [-log1p(-.)]. *)
Theorem ellipsoid_value_outside (self : EllipsoidBarrier.t) (x : vec) :
  f64.ge (EllipsoidBarrier._ellipsoid_inner_product self x) (Fin 1) = true ->
  EllipsoidBarrier.value self x = Fin 0.
Proof.
  intros Hout. unfold EllipsoidBarrier.value. rewrite Hout.
  unfold f64.log1p. cbn [f64.neg f64.add].
  rewrite f64_log_fin by lra. cbn [f64.neg]. f_equal.
  replace (1 + - 0) with 1 by lra. rewrite ln_1. lra.
Qed.

Lemma unit_ball3_inner_product (a b c : R) :
  EllipsoidBarrier._ellipsoid_inner_product unit_ball3 [Fin a; Fin b; Fin c]
  = Fin (a * a + b * b + c * c).
Proof.
  cbn. f_equal. ring.
Qed.

Lemma ellipsoid_value_outside_witness :
  EllipsoidBarrier.value unit_ball3 [Fin 1; Fin 1; Fin 0] = Fin 0.
Proof.
  apply (ellipsoid_value_outside unit_ball3 [Fin 1; Fin 1; Fin 0]).
  rewrite unit_ball3_inner_product. unfold f64.ge, f64.le.
  apply Rleb_true. lra.
Defined.

(** ** SimplexBarrier *)

Lemma sum_nan (x : vec) : In NaN x -> torch.sum x = NaN.
Proof.
  induction x as [|a x IH]; intros Hin; [contradiction|].
  cbn. destruct Hin as [->|Hin]; [reflexivity|].
  unfold torch.sum in IH. rewrite IH by assumption. now destruct a.
Qed.

Lemma sum_fin (xs : list R) :
  torch.sum (map Fin xs) = Fin (fold_right Rplus 0 xs).
Proof.
  induction xs as [|a xs IH]; [reflexivity|].
  cbn [map]. unfold torch.sum in *. cbn [fold_right]. now rewrite IH.
Qed.

(** The logarithms of non-negative numbers, one of which is zero, sum to
    minus infinity. *)
Lemma sum_log_zero (xs : list R) :
  Forall (fun r => 0 <= r) xs -> In 0 xs ->
  torch.sum (torch.log (map Fin xs)) = NInf.
Proof.
  intros Hpos. induction Hpos as [|a xs Ha Hpos IH]; intros Hin; [contradiction|].
  assert (Hrest : torch.sum (torch.log (map Fin xs)) = NInf
                  \/ exists r, torch.sum (torch.log (map Fin xs)) = Fin r).
  { clear IH Hin. induction Hpos as [|b ys Hb Hpos IH].
    - right. now exists 0.
    - unfold torch.sum, torch.log in *. cbn [map fold_right].
      destruct (Rlt_dec 0 b) as [Hlt|Hge].
      + rewrite f64_log_fin by assumption.
        destruct IH as [->|[r ->]]; [now left|right; cbn; eauto].
      + replace b with 0 by lra. rewrite f64_log_zero.
        left. destruct IH as [->|[r ->]]; reflexivity. }
  unfold torch.sum, torch.log in *. cbn [map fold_right].
  destruct Hin as [->|Hin].
  - rewrite f64_log_zero.
    destruct Hrest as [->|[r ->]]; reflexivity.
  - rewrite IH by assumption.
    destruct (Rlt_dec 0 a) as [Hlt|Hge].
    + now rewrite f64_log_fin.
    + replace a with 0 by lra. now rewrite f64_log_zero.
Qed.

Lemma simplex_safe_interior_fin (self : SimplexBarrier.t) (xs : list R) (sq : bool) :
  exists r, SimplexBarrier._safe_interior self (map Fin xs) sq = Fin r /\ 1e-08 <= r.
Proof.
  unfold SimplexBarrier._safe_interior. rewrite sum_fin. cbn [f64.neg f64.sub f64.add].
  rewrite f64_clamp_min_fin.
  destruct (Rlt_dec _ _); eexists; split; try reflexivity; lra.
Qed.

(** The terms [log(x_i)] of [SimplexBarrier.value] are not floored: a point
    with a negative coordinate has the value not-a-number, and a point of the
    boundary with a zero coordinate has the value plus infinity. *)
Lemma simplex_value_negative (self : SimplexBarrier.t) (xs : list R) :
  Exists (fun r => r < 0) xs -> SimplexBarrier.value self (map Fin xs) = NaN.
Proof.
  intros Hneg. unfold SimplexBarrier.value.
  rewrite sum_nan; [reflexivity|].
  apply Exists_exists in Hneg as (r & Hin & Hr).
  unfold torch.log. rewrite map_map. apply in_map_iff. exists r. split; [|assumption].
  unfold f64.log. now rbool.
Qed.

Lemma simplex_value_zero (self : SimplexBarrier.t) (xs : list R) :
  Forall (fun r => 0 <= r) xs -> In 0 xs ->
  SimplexBarrier.value self (map Fin xs) = PInf.
Proof.
  intros Hpos Hzero. unfold SimplexBarrier.value.
  rewrite sum_log_zero by assumption.
  destruct (simplex_safe_interior_fin self xs true) as (r & -> & Hr).
  rewrite f64_log_fin by lra. reflexivity.
Qed.

(** C2 fails on the code.  At the boundary point [(0, 0.5, 0.25)] of the
    simplex of dimension 3 the value is plus infinity, and at the outside
    point [(-0.5, 0.5, 0.25)] it is not-a-number: only the term
    [log(1 - sum x)] is floored at [1e-8]. *)
Theorem simplex_value_boundary_not_finite :
  SimplexBarrier.value (SimplexBarrier.__init__ 3) [Fin 0; Fin 0.5; Fin 0.25] = PInf
  /\ SimplexBarrier.value (SimplexBarrier.__init__ 3) [Fin (-0.5); Fin 0.5; Fin 0.25] = NaN.
Proof.
  split.
  - apply (simplex_value_zero _ [0; 0.5; 0.25]).
    + repeat (apply Forall_cons; [lra|]). apply Forall_nil.
    + now left.
  - apply (simplex_value_negative _ [-0.5; 0.5; 0.25]).
    apply Exists_cons_hd. lra.
Qed.

(** *** The bisection of [inverse_gradient] *)

Lemma for_range_iter {S : Type} (n : nat) (body : S -> S) (s : S) :
  SimplexBarrier.for_range n body s = Nat.iter n body s.
Proof.
  revert s. induction n as [|n IH]; intros s; [reflexivity|].
  cbn [SimplexBarrier.for_range]. rewrite IH. apply Nat.iter_swap.
Qed.

Lemma iter_ext {S : Type} (f g : S -> S) :
  (forall s, f s = g s) -> forall n s, Nat.iter n f s = Nat.iter n g s.
Proof.
  intros Hfg n s. induction n as [|n IH]; [reflexivity|].
  rewrite !Nat.iter_succ. now rewrite IH, Hfg.
Qed.

Lemma simplex_f_spec (y : vec) (c : scalar) :
  SimplexBarrier.f y c = Spec.simplex_f y c.
Proof.
  unfold SimplexBarrier.f, Spec.simplex_f, torch.rdivs, torch.rsubs, torch.muls.
  now rewrite !map_map.
Qed.

Lemma simplex_bisect_spec (y : vec) (c : scalar * scalar) :
  SimplexBarrier.bisect y c = Spec.simplex_bisection y c.
Proof.
  destruct c as [c_lower c_upper].
  unfold SimplexBarrier.bisect, Spec.simplex_bisection. cbn [fst snd].
  rewrite simplex_f_spec. now destruct (f64.gt _ _).
Qed.

Lemma simplex_c_upper_spec (m : scalar) :
  (let c_upper := f64.clamp_max (f64.reciprocal m) 1 in
   if f64.lt c_upper (Fin 0) then Fin 1 else c_upper)
  = Spec.simplex_c_upper m.
Proof.
  unfold Spec.simplex_c_upper, f64.reciprocal, f64.clamp_max, f64.gt.
  cbv zeta.
  destruct (f64.div (Fin 1) m) as [r| | |]; cbn; rcases; cbn; rcases;
    try reflexivity; lra.
Qed.

(** C6.  [SimplexBarrier.inverse_gradient] is the bisection the
    specification describes: thirty-five bisections of the bracket
    [[0, c_upper]], where [c_upper] is [min(1, 1 / max(y))] and [1] when that
    bound is negative; each takes [f(c) = c + c * sum_i 1 / (1 - c * y_i) - 1]
    at the midpoint and moves the upper bound down when the value is positive,
    else the lower bound up; the result is [c / (1 - c * y)] elementwise,
    floored at [1e-8], for the last upper bound [c]. *)
Theorem simplex_inverse_gradient_bisection (self : SimplexBarrier.t) (y : vec) :
  SimplexBarrier.inverse_gradient self y = Spec.simplex_inverse_gradient y.
Proof.
  unfold SimplexBarrier.inverse_gradient, Spec.simplex_inverse_gradient,
    SimplexBarrier.initial_c_upper.
  destruct (torch.max y) as [m|e]; cbn [bind]; [|reflexivity].
  rewrite for_range_iter.
  pose proof (simplex_c_upper_spec m) as Hc. cbv zeta in Hc. rewrite Hc.
  rewrite (iter_ext _ _ (simplex_bisect_spec y)).
  destruct (Nat.iter 35 _ _) as [lo hi]. cbn [snd].
  unfold torch.clamp_min, torch.rdivs, torch.rsubs, torch.muls.
  now rewrite !map_map.
Qed.

(** ** ComposeBarrier *)

(** The two lists of indices [__init__] builds: the positions of the
    constituents whose flag is false, and of those whose flag is true. *)
Lemma fold_append_index (l : list (nat * barrier)) (o0 o1 : list nat) :
  fold_left ComposeBarrier.append_index l (o0, o1)
  = (o0 ++ map fst (filter (fun ib => negb (diag_hess (snd ib))) l),
     o1 ++ map fst (filter (fun ib => diag_hess (snd ib)) l)).
Proof.
  revert o0 o1. induction l as [|[i b] l IH]; intros o0 o1; cbn.
  - now rewrite !app_nil_r.
  - destruct (diag_hess b); cbn; rewrite IH; cbn; now rewrite <- app_assoc.
Qed.

Lemma compose_init_unfold (barriers : list barrier) :
  ComposeBarrier.__init__ barriers
  = Compose barriers
      (forallb diag_hess barriers)
      (map fst (filter (fun ib => negb (diag_hess (snd ib)))
                  (ComposeBarrier.enumerate barriers)),
       map fst (filter (fun ib => diag_hess (snd ib))
                  (ComposeBarrier.enumerate barriers))).
Proof.
  unfold ComposeBarrier.__init__. rewrite fold_append_index. cbn [fst snd app].
  f_equal. unfold ComposeBarrier.enumerate, Barrier.diag_hess.
  enough (H : forall k,
             (length (map fst (filter (fun ib => negb (diag_hess (snd ib)))
                                 (combine (seq k (length barriers)) barriers)))
              =? 0)%nat = forallb diag_hess barriers)
    by (rewrite H; now destruct (forallb diag_hess barriers)).
  induction barriers as [|b bs IH]; intros k; [reflexivity|].
  cbn. destruct (diag_hess b); cbn; [apply IH|reflexivity].
Qed.

(** A loop over the indices of the constituents that satisfy [q] calls the
    Hessians of these constituents, in their order in [self.barriers]. *)
Lemma loop_indices {A : Type} (step : A -> hess -> res A) (q : barrier -> bool)
    (x : vec) (l : list barrier) :
  forall (pre : list (res hess)) (acc : res A),
    fold_left
      (fun acc idx =>
         a <- acc ;;
         hi <- ComposeBarrier.call_at (pre ++ map (fun c => hessian c x) l) idx ;;
         step a hi)
      (map fst (filter (fun ib => q (snd ib)) (combine (seq (length pre) (length l)) l)))
      acc
    = fold_left (fun acc b => a <- acc ;; hi <- hessian b x ;; step a hi)
        (filter q l) acc.
Proof.
  induction l as [|b l IH]; intros pre acc; [reflexivity|].
  cbn [length seq combine filter snd map].
  specialize (IH (pre ++ [hessian b x])).
  rewrite <- app_assoc, length_app, Nat.add_1_r in IH. cbn [app] in IH.
  destruct (q b); cbn [map fst fold_left].
  - rewrite IH. f_equal.
    unfold ComposeBarrier.call_at.
    rewrite nth_error_app2, Nat.sub_diag by lia. reflexivity.
  - apply IH.
Qed.

Lemma compose_hessian_unfold (barriers : list barrier) (x : vec) :
  hessian (ComposeBarrier.__init__ barriers) x
  = (local <-
       (if (0 <? length (filter diag_hess barriers))%nat then
          h <- fold_left
                 (fun acc b => a <- acc ;; hi <- hessian b x ;; ComposeBarrier.iadd_vec a hi)
                 (filter diag_hess barriers) (Ok (ComposeBarrier.zeros_like x)) ;;
          Ok (Some h)
        else Ok None) ;;
     if negb (forallb diag_hess barriers) then
       h <- ComposeBarrier.read_local local ;;
       h <- fold_left
              (fun acc b => a <- acc ;; hi <- hessian b x ;; ComposeBarrier.iadd_mat a hi)
              (filter (fun b => negb (diag_hess b)) barriers)
              (Ok (torch.diag_embed h)) ;;
       Ok (HFull h)
     else
       h <- ComposeBarrier.read_local local ;;
       Ok (HDiag h)).
Proof.
  rewrite compose_init_unfold. cbn [hessian]. unfold ComposeBarrier.hessian.
  cbn [fst snd]. unfold ComposeBarrier.enumerate.
  pose proof (loop_indices ComposeBarrier.iadd_vec diag_hess x barriers []) as H1.
  pose proof (loop_indices ComposeBarrier.iadd_mat (fun b => negb (diag_hess b))
                x barriers []) as H0.
  cbn [app length] in H0, H1. rewrite H1.
  assert (Hlen : length (map fst (filter (fun ib => diag_hess (snd ib))
                                     (combine (seq 0 (length barriers)) barriers)))
                 = length (filter diag_hess barriers)).
  { rewrite length_map. clear. generalize 0%nat.
    induction barriers as [|b bs IH]; intros k; [reflexivity|].
    cbn. destruct (diag_hess b); cbn; now rewrite IH. }
  rewrite Hlen.
  destruct (0 <? length (filter diag_hess barriers))%nat; cbn [bind].
  - destruct (fold_left _ (filter diag_hess barriers) _) as [h|e]; cbn [bind];
      [|reflexivity].
    destruct (forallb diag_hess barriers);
      cbn [negb bind ComposeBarrier.read_local]; [reflexivity|].
    now rewrite H0.
  - destruct (forallb diag_hess barriers); reflexivity.
Qed.

(** Without a constituent of diagonal Hessian the local variable [hessian]
    is read before any assignment. *)
Lemma compose_hessian_unbound (barriers : list barrier) (x : vec) :
  forallb (fun b => negb (diag_hess b)) barriers = true ->
  hessian (ComposeBarrier.__init__ barriers) x = Raise UnboundLocalError.
Proof.
  intros Hnone. rewrite compose_hessian_unfold.
  assert (Hf : filter diag_hess barriers = []).
  { induction barriers as [|b bs IH]; [reflexivity|].
    cbn in *. apply andb_true_iff in Hnone as [Hb Hbs].
    destruct (diag_hess b); [discriminate|]. now apply IH. }
  rewrite Hf. cbn. now destruct (forallb diag_hess barriers).
Qed.

(** C3 fails on the code.  The Hessian of a composition of one ellipsoid, and
    of a simplex and an ellipsoid, is no tensor: the call raises
    [UnboundLocalError] at every point, since [hessian] is only assigned in
    the pass over the constituents of diagonal Hessian. *)
Theorem compose_hessian_without_diagonal (x : vec) :
  hessian (ComposeBarrier.__init__ [Ellipsoid unit_ball3]) x
  = Raise UnboundLocalError
  /\ hessian
       (ComposeBarrier.__init__
          [Simplex (SimplexBarrier.__init__ 3); Ellipsoid unit_ball3]) x
     = Raise UnboundLocalError.
Proof.
  split; now apply compose_hessian_unbound.
Qed.

(** ** The flag [diag_hess] and the shape of the Hessian *)

(** Induction on an instance, with the hypothesis on every constituent of a
    composition. *)
Lemma barrier_ind' (P : barrier -> Prop)
    (HBox : forall self, P (Box self))
    (HEllipsoid : forall self, P (Ellipsoid self))
    (HSimplex : forall self, P (Simplex self))
    (HPolytope : forall self, P (Polytope self))
    (HCompose : forall barriers dh order,
        Forall P barriers -> P (Compose barriers dh order)) :
  forall b, P b.
Proof.
  fix IH 1. intros [self|self|self|self|barriers dh order].
  - apply HBox.
  - apply HEllipsoid.
  - apply HSimplex.
  - apply HPolytope.
  - apply HCompose.
    induction barriers as [|c l IHl]; constructor.
    + apply IH.
    + apply IHl.
Qed.

Lemma shaped_compose (d : nat) (barriers : list barrier) (dh : bool)
    (order : list nat * list nat) :
  shaped d (Compose barriers dh order) <-> Forall (shaped d) barriers.
Proof.
  cbn. induction barriers as [|c l IH].
  - split; constructor.
  - rewrite IH. split.
    + intros [H1 H2]. now constructor.
    + intros H. inversion H. now split.
Qed.

Lemma map2_length_min {A B C : Type} (f : A -> B -> C) (a : list A) (b : list B) :
  length (torch.map2 f a b) = Nat.min (length a) (length b).
Proof.
  revert b. induction a as [|x a IH]; intros [|y b]; cbn; auto.
Qed.

Lemma has_shape_map2 (f : vec -> vec -> vec) (r c : nat) (m1 m2 : mat) :
  (forall u v, length u = c -> length v = c -> length (f u v) = c) ->
  has_shape r c m1 -> has_shape r c m2 -> has_shape r c (torch.map2 f m1 m2).
Proof.
  intros Hf [Hl1 Hr1] [Hl2 Hr2]. split.
  - rewrite map2_length_min. lia.
  - clear Hl1 Hl2. revert m2 Hr2.
    induction Hr1 as [|u m1 Hu Hr1 IH]; intros [|v m2] Hr2; cbn; constructor.
    + inversion Hr2; subst. now apply Hf.
    + inversion Hr2; subst. now apply IH.
Qed.

Lemma add_length (c : nat) (u v : vec) :
  length u = c -> length v = c -> length (torch.add u v) = c.
Proof. intros. unfold torch.add. rewrite map2_length_min. lia. Qed.

Lemma madd_shape (r c : nat) (m1 m2 : mat) :
  has_shape r c m1 -> has_shape r c m2 -> has_shape r c (torch.madd m1 m2).
Proof. apply has_shape_map2, add_length. Qed.

Lemma has_shape_map (f : vec -> vec) (r c : nat) (m : mat) :
  (forall u, length u = c -> length (f u) = c) ->
  has_shape r c m -> has_shape r c (map f m).
Proof.
  intros Hf [Hl Hr]. split.
  - now rewrite length_map.
  - apply Forall_map. eapply Forall_impl; [|exact Hr]. exact Hf.
Qed.

Lemma diag_embed_shape (v : vec) :
  has_shape (length v) (length v) (torch.diag_embed v).
Proof.
  induction v as [|a v [IHl IHr]]; [split; constructor|].
  cbn [torch.diag_embed]. split.
  - cbn [length]. now rewrite length_map, IHl.
  - constructor.
    + cbn [length]. now rewrite length_map.
    + apply Forall_map. eapply Forall_impl; [|exact IHr].
      cbn [length]. intros row ->. reflexivity.
Qed.

Lemma transpose_aux_shape (n : nat) (M : mat) :
  has_shape n (length M) (torch.transpose_aux n M).
Proof.
  revert M. induction n as [|n IH]; intros M; [split; constructor|].
  cbn [torch.transpose_aux]. destruct (IH (map (@tl scalar) M)) as [Hl Hr].
  rewrite length_map in Hr. split.
  - cbn. now rewrite Hl.
  - constructor; [now rewrite length_map|exact Hr].
Qed.

Lemma T_shape (r c : nat) (M : mat) :
  has_shape r c M -> (0 < r)%nat -> has_shape c r (torch.T M).
Proof.
  intros [Hl Hr] Hpos. destruct M as [|row M]; [cbn in Hl; lia|].
  cbn [torch.T]. inversion Hr; subst.
  apply transpose_aux_shape.
Qed.

Lemma T_empty_rows (c : nat) (M : mat) : has_shape 0 c M -> torch.T M = [].
Proof. intros [Hl _]. now destruct M. Qed.

Lemma constructed_compose (barriers : list barrier) (dh : bool)
    (order : list nat * list nat) :
  constructed (Compose barriers dh order)
  <-> Compose barriers dh order = ComposeBarrier.__init__ barriers
      /\ Forall constructed barriers.
Proof.
  cbn. apply and_iff_compat_l. induction barriers as [|c l IH].
  - split; constructor.
  - rewrite IH. split.
    + intros [H1 H2]. now constructor.
    + intros H. inversion H. now split.
Qed.

(** Lengths of the elementwise operations. *)
Ltac lengths :=
  unfold torch.square, torch.abs, torch.sqrt, torch.log, torch.neg,
    torch.reciprocal, torch.clamp_min, torch.clamp_max, torch.add, torch.sub,
    torch.mul, torch.div, torch.adds, torch.muls, torch.rsubs, torch.rdivs,
    torch.divs, torch.addr, torch.einsum_ij_j in *;
  repeat (rewrite ?length_map, ?map2_length_min in * ); try lia.

Lemma box_hessian_length (self : BoxBarrier.t) (x : vec) :
  length (BoxBarrier.hessian self x)
  = Nat.min (length x) (length (BoxBarrier.bounds self)).
Proof.
  unfold BoxBarrier.hessian, BoxBarrier._safe_diff. lengths.
Qed.

Lemma outer_shape (u v : vec) :
  has_shape (length u) (length v) (EllipsoidBarrier.outer u v).
Proof.
  unfold EllipsoidBarrier.outer. split.
  - now rewrite length_map.
  - apply Forall_map, Forall_forall. intros a _. lengths.
Qed.

Lemma outer_shape' (r c : nat) (u v : vec) :
  length u = r -> length v = c -> has_shape r c (EllipsoidBarrier.outer u v).
Proof. intros <- <-. apply outer_shape. Qed.

Lemma diag_embed_shape' (d : nat) (v : vec) :
  length v = d -> has_shape d d (torch.diag_embed v).
Proof. intros <-. apply diag_embed_shape. Qed.

Lemma einsum_ij_jk_shape (r k c : nat) (A B : mat) :
  has_shape r k A -> has_shape k c B -> (0 < k)%nat ->
  has_shape r c (EllipsoidBarrier.einsum_ij_jk A B).
Proof.
  intros [HlA HrA] HB Hk. unfold EllipsoidBarrier.einsum_ij_jk. split.
  - now rewrite length_map.
  - apply Forall_map, Forall_forall. intros row _.
    rewrite length_map. now apply (T_shape k c B).
Qed.

Lemma rows_mul_shape (r c : nat) (M : mat) (v : vec) :
  has_shape r c M -> length v = c ->
  has_shape r c (EllipsoidBarrier.rows_mul M v).
Proof.
  intros HM Hv. apply has_shape_map; [|exact HM].
  intros u Hu. lengths.
Qed.

Lemma ellipsoid_map_length (self : EllipsoidBarrier.t) (x : vec) :
  length (EllipsoidBarrier._ellipsoid_map self x)
  = length (EllipsoidBarrier.rot (EllipsoidBarrier.ellipsoid self)).
Proof.
  unfold EllipsoidBarrier._ellipsoid_map, EllipsoidBarrier.rows_mul. lengths.
Qed.

Lemma ellipsoid_hessian_shape (d : nat) (self : EllipsoidBarrier.t) (x : vec) :
  shaped d (Ellipsoid self) ->
  has_shape d d (EllipsoidBarrier.hessian self x).
Proof.
  intros [HL HU]. unfold EllipsoidBarrier.hessian.
  apply madd_shape.
  - destruct d as [|d].
    + split; [|destruct HU as [Hl _]].
      * unfold EllipsoidBarrier.einsum_ij_jk, EllipsoidBarrier.rows_mul.
        rewrite !length_map. apply HU.
      * destruct (EllipsoidBarrier.rot (EllipsoidBarrier.ellipsoid self));
          [constructor|discriminate].
    + apply (einsum_ij_jk_shape _ (S d)); try lia.
      * apply rows_mul_shape; [exact HU|]. lengths.
      * apply T_shape; [exact HU|lia].
  - apply outer_shape'; lengths; rewrite ellipsoid_map_length; apply HU.
Qed.

Lemma simplex_hessian_shape (self : SimplexBarrier.t) (x : vec) :
  has_shape (length x) (length x) (SimplexBarrier.hessian self x).
Proof.
  unfold SimplexBarrier.hessian.
  apply has_shape_map; [intros u Hu; lengths|].
  apply diag_embed_shape'. lengths.
Qed.

Lemma repeat_shape (r c : nat) : has_shape r c (repeat (repeat (Fin 0) c) r).
Proof.
  split; [apply repeat_length|].
  apply Forall_forall. intros row Hin. apply repeat_spec in Hin as ->.
  apply repeat_length.
Qed.

Lemma sum_mats_shape (d : nat) (Ms : list mat) :
  Forall (has_shape d d) Ms -> has_shape d d (PolytopeBarrier.sum_mats d Ms).
Proof.
  unfold PolytopeBarrier.sum_mats. induction 1 as [|M Ms HM _ IH]; cbn.
  - apply repeat_shape.
  - now apply madd_shape.
Qed.

Lemma rows_divs_rows (c : nat) (a : mat) (slack : vec) :
  Forall (fun row => length row = c) a ->
  Forall (fun row => length row = c) (PolytopeBarrier.rows_divs a slack).
Proof.
  unfold PolytopeBarrier.rows_divs. intros Ha. revert slack.
  induction Ha as [|row a Hrow Ha IH]; intros [|s slack]; cbn; constructor.
  - lengths.
  - apply IH.
Qed.

Lemma polytope_hessian_shape (d : nat) (self : PolytopeBarrier.t) (x : vec) :
  shaped d (Polytope self) -> length x = d ->
  match PolytopeBarrier.hessian self x with
  | HDiag v =>
      (exists a, PolytopeBarrier.A (PolytopeBarrier.polytope self) = PolytopeBarrier.Diag a)
      /\ length v = d
  | HFull m =>
      (exists a, PolytopeBarrier.A (PolytopeBarrier.polytope self) = PolytopeBarrier.Full a)
      /\ has_shape d d m
  end.
Proof.
  intros (Hdim & HA & Hw) Hx. unfold PolytopeBarrier.hessian.
  destruct (PolytopeBarrier.A (PolytopeBarrier.polytope self)) as [a|a] eqn:EA.
  - split; [now exists a|]. destruct HA as [Ha Hb].
    unfold PolytopeBarrier._safe_slack, PolytopeBarrier._Ax. rewrite EA.
    destruct (PolytopeBarrier.weights self); lengths.
  - split; [now exists a|]. rewrite Hdim.
    apply sum_mats_shape, Forall_map.
    destruct HA as [_ Hrows].
    eapply Forall_impl; [|apply (rows_divs_rows d), Hrows].
    intros c Hc. now apply outer_shape'.
Qed.

Lemma polytope_init_fields (p : PolytopeBarrier.polytope_dict) (w : option vec)
    (self : PolytopeBarrier.t) :
  PolytopeBarrier.__init__ p w = Ok self ->
  PolytopeBarrier.polytope self = p
  /\ PolytopeBarrier.weights self = w
  /\ PolytopeBarrier.dimension self = PolytopeBarrier.shape_last (PolytopeBarrier.A p)
  /\ PolytopeBarrier.diag_hess self
     = match PolytopeBarrier.A p with
       | PolytopeBarrier.Diag _ => true
       | PolytopeBarrier.Full _ => false
       end.
Proof.
  unfold PolytopeBarrier.__init__. intros H.
  assert (Hself : self = PolytopeBarrier.mk p (PolytopeBarrier.shape_last (PolytopeBarrier.A p))
                           (if (PolytopeBarrier.ndim (PolytopeBarrier.A p) =? 1)%nat
                            then true else PolytopeBarrier.class_diag_hess) w).
  { destruct w as [w|]; [destruct (negb _)|]; congruence. }
  subst self. cbn. repeat split. now destruct (PolytopeBarrier.A p).
Qed.

(** The form of [A] decides the flag: the branch the methods take on
    [self.diag_hess] is the branch on the form of [A]. *)
Lemma polytope_flag_form (self : PolytopeBarrier.t) :
  constructed (Polytope self) ->
  PolytopeBarrier.diag_hess self
  = match PolytopeBarrier.A (PolytopeBarrier.polytope self) with
    | PolytopeBarrier.Diag _ => true
    | PolytopeBarrier.Full _ => false
    end.
Proof.
  intros H. now apply polytope_init_fields in H as (_ & _ & _ & H).
Qed.

Lemma fold_raise {A B : Type} (step : A -> B -> res A) (l : list B) (e : exn) :
  fold_left (fun acc b => a <- acc ;; step a b) l (Raise e) = Raise e.
Proof. induction l as [|b l IH]; [reflexivity|exact IH]. Qed.

Lemma fold_iadd_vec_length (d : nat) (x : vec) (l : list barrier) :
  Forall (fun b => diag_hess b = true
                   /\ forall h, hessian b x = Ok h -> consistent d b h) l ->
  forall acc r,
    length acc = d ->
    fold_left (fun acc b => a <- acc ;; hi <- hessian b x ;; ComposeBarrier.iadd_vec a hi)
      l (Ok acc) = Ok r ->
    length r = d.
Proof.
  induction 1 as [|b l [Hflag Hb] _ IH]; intros acc r Hacc Hfold; cbn in Hfold.
  - congruence.
  - destruct (hessian b x) as [[v|m]|e] eqn:E; cbn in Hfold.
    + destruct (Hb _ eq_refl) as [_ Hv].
      eapply IH; [|exact Hfold]. now apply add_length.
    + destruct (Hb _ eq_refl) as [Hf _]. congruence.
    + rewrite (fold_raise (fun a b => hi <- hessian b x ;; ComposeBarrier.iadd_vec a hi))
        in Hfold.
      discriminate.
Qed.

Lemma fold_iadd_mat_shape (d : nat) (x : vec) (l : list barrier) :
  Forall (fun b => diag_hess b = false
                   /\ forall h, hessian b x = Ok h -> consistent d b h) l ->
  forall acc r,
    has_shape d d acc ->
    fold_left (fun acc b => a <- acc ;; hi <- hessian b x ;; ComposeBarrier.iadd_mat a hi)
      l (Ok acc) = Ok r ->
    has_shape d d r.
Proof.
  induction 1 as [|b l [Hflag Hb] _ IH]; intros acc r Hacc Hfold; cbn in Hfold.
  - congruence.
  - destruct (hessian b x) as [[v|m]|e] eqn:E; cbn in Hfold.
    + destruct (Hb _ eq_refl) as [Hf _]. congruence.
    + destruct (Hb _ eq_refl) as [_ Hm].
      eapply IH; [|exact Hfold]. now apply madd_shape.
    + rewrite (fold_raise (fun a b => hi <- hessian b x ;; ComposeBarrier.iadd_mat a hi))
        in Hfold.
      discriminate.
Qed.

Lemma zeros_like_length (x : vec) : length (ComposeBarrier.zeros_like x) = length x.
Proof. apply length_map. Qed.

(** Whenever the Hessian of a constructed barrier on well-shaped parameters
    returns, what it returns has the form and the shape the flag announces. *)
Lemma hessian_consistent (d : nat) (b : barrier) :
  constructed b -> shaped d b ->
  forall x h, length x = d -> hessian b x = Ok h -> consistent d b h.
Proof.
  induction b as [self|self|self|self|barriers dh order IH] using barrier_ind';
    intros Hc Hs x h Hx Hh.
  - cbn in Hc, Hs, Hh. injection Hh as <-. cbn. split.
    + now rewrite Hc.
    + rewrite box_hessian_length. lia.
  - cbn [hessian] in Hh. injection Hh as <-. split.
    + cbn in Hc |- *. now rewrite Hc.
    + now apply ellipsoid_hessian_shape.
  - cbn [hessian] in Hh. injection Hh as <-. split.
    + cbn in Hc |- *. now rewrite Hc.
    + rewrite <- Hx. apply simplex_hessian_shape.
  - cbn [hessian] in Hh. injection Hh as <-.
    pose proof (polytope_flag_form self Hc) as Hflag.
    pose proof (polytope_hessian_shape d self x Hs Hx) as Hshape.
    destruct (PolytopeBarrier.hessian self x) as [v|m];
      destruct Hshape as [[a Ha] Hsh]; rewrite Ha in Hflag; now split.
  - apply constructed_compose in Hc as [Hinit Hc].
    apply shaped_compose in Hs.
    assert (Hall : Forall (fun b => forall h, hessian b x = Ok h -> consistent d b h)
                     barriers).
    { rewrite Forall_forall in *. intros c Hin h' Hh'.
      now apply (IH c Hin (Hc c Hin) (Hs c Hin) x h'). }
    rewrite Hinit in Hh |- *. rewrite compose_hessian_unfold in Hh.
    rewrite compose_init_unfold. unfold consistent. cbn [diag_hess].
    destruct (0 <? length (filter diag_hess barriers))%nat; cbn [bind] in Hh.
    + destruct (fold_left _ (filter diag_hess barriers) _) as [acc|e] eqn:Efold;
        cbn [bind] in Hh; [|discriminate].
      assert (Hacc : length acc = d).
      { eapply (fold_iadd_vec_length d x); [|rewrite zeros_like_length; exact Hx
                                           |exact Efold].
        apply Forall_forall. intros c Hin. apply filter_In in Hin as [Hin Hflag].
        split; [exact Hflag|]. rewrite Forall_forall in Hall. now apply Hall. }
      destruct (forallb diag_hess barriers);
        cbn [negb bind ComposeBarrier.read_local] in Hh.
      * injection Hh as <-. now split.
      * destruct (fold_left _ (filter (fun b => negb (diag_hess b)) barriers) _)
          as [m|e] eqn:Efold2;
          cbn [bind] in Hh; [|discriminate].
        injection Hh as <-. split; [reflexivity|].
        eapply (fold_iadd_mat_shape d x); [|apply diag_embed_shape', Hacc
                                          |exact Efold2].
        apply Forall_forall. intros c Hin. apply filter_In in Hin as [Hin Hflag].
        split; [now apply negb_true_iff|].
        rewrite Forall_forall in Hall. now apply Hall.
    + destruct (forallb diag_hess barriers); discriminate.
Qed.

(** C9.  The flag [diag_hess] set by each [__init__]: true for a box, false
    for an ellipsoid and for a simplex, true for a polytope exactly when [A]
    is given as a vector, and for a composition the conjunction of the flags
    of its constituents.  The flag agrees with the Hessian: whenever
    [hessian] returns, it returns a vector of length [d] under a true flag
    and a matrix of shape [(d, d)] under a false one. *)
Theorem diag_hess_consistent :
  (forall bounds, diag_hess (Box (BoxBarrier.__init__ bounds)) = true)
  /\ (forall e, diag_hess (Ellipsoid (EllipsoidBarrier.__init__ e)) = false)
  /\ (forall n, diag_hess (Simplex (SimplexBarrier.__init__ n)) = false)
  /\ (forall p w self,
         PolytopeBarrier.__init__ p w = Ok self ->
         (diag_hess (Polytope self) = true
          <-> exists a, PolytopeBarrier.A p = PolytopeBarrier.Diag a))
  /\ (forall barriers,
         diag_hess (ComposeBarrier.__init__ barriers) = forallb diag_hess barriers)
  /\ (forall d b x h,
         constructed b -> shaped d b -> length x = d ->
         hessian b x = Ok h ->
         match h with
         | HDiag v => diag_hess b = true /\ length v = d
         | HFull m => diag_hess b = false /\ has_shape d d m
         end).
Proof.
  repeat split; try reflexivity.
  - intros Hflag. cbn in Hflag.
    apply polytope_init_fields in H as (_ & _ & _ & Hf). rewrite Hf in Hflag.
    destruct (PolytopeBarrier.A p) as [a|a]; [now exists a|discriminate].
  - intros [a Ha]. cbn.
    apply polytope_init_fields in H as (_ & _ & _ & Hf). now rewrite Hf, Ha.
  - intros barriers. now rewrite compose_init_unfold.
  - intros d b x h Hc Hs Hx Hh. exact (hessian_consistent d b Hc Hs x h Hx Hh).
Qed.

Lemma diag_hess_consistent_witness :
  exists m,
    hessian box_ball3 [Fin 0; Fin 0; Fin 0] = Ok (HFull m)
    /\ diag_hess box_ball3 = false /\ has_shape 3 3 m.
Proof.
  eexists. split; [cbn; reflexivity|].
  destruct diag_hess_consistent as (_ & _ & _ & _ & _ & H).
  apply (H 3%nat box_ball3 [Fin 0; Fin 0; Fin 0] (HFull _)).
  - cbn. repeat split.
  - cbn. repeat split; repeat constructor.
  - reflexivity.
  - cbn. reflexivity.
Defined.

(** ** The methods over a store *)

Module StoreFacts.
Import Store.

Lemma nth_new (H L : store) (k : nat) :
  nth_error (H ++ L) (length H + k) = nth_error L k.
Proof.
  rewrite nth_error_app2 by lia. f_equal. lia.
Qed.

Lemma nth_old (H L : store) (l : loc) (v : tensor) :
  nth_error H l = Some v -> nth_error (H ++ L) l = Some v.
Proof.
  intros Hl. rewrite nth_error_app1; [exact Hl|].
  apply nth_error_Some. congruence.
Qed.

Lemma update_new (H L : store) (k : nat) (v : tensor) :
  update (length H + k) v (H ++ L) = H ++ update k v L.
Proof.
  induction H as [|t H IH]; [reflexivity|].
  cbn. now rewrite IH.
Qed.

Lemma update_length (l : nat) (v : tensor) (h : store) :
  length (update l v h) = length h.
Proof.
  revert l. induction h as [|t h IH]; intros [|l]; cbn; auto.
Qed.

Lemma nth_update_eq (l : nat) (v t : tensor) (h : store) :
  nth_error h l = Some t -> nth_error (update l v h) l = Some v.
Proof.
  revert l. induction h as [|a h IH]; intros [|l] Hl; try discriminate; cbn.
  - reflexivity.
  - now apply IH.
Qed.

Lemma nth_update_ne (l l' : nat) (v : tensor) (h : store) :
  l <> l' -> nth_error (update l v h) l' = nth_error h l'.
Proof.
  revert l l'. induction h as [|a h IH]; intros [|l] [|l'] Hne; cbn; try easy.
  apply IH. lia.
Qed.

Lemma update_app_old (l : nat) (v t : tensor) (h c : store) :
  nth_error h l = Some t -> update l v (h ++ c) = update l v h ++ c.
Proof.
  revert l. induction h as [|a h IH]; intros [|l] Hl; try discriminate; cbn.
  - reflexivity.
  - f_equal. now apply IH.
Qed.

Lemma nth_new_old (H L C : store) (k : nat) (v : tensor) :
  nth_error L k = Some v -> nth_error (H ++ (L ++ C)) (length H + k) = Some v.
Proof. intros Hk. rewrite nth_new. now apply nth_old. Qed.

Lemma nth_new_update (L C : store) (l k : nat) (v : tensor) :
  nth_error (update l v L ++ C) (length L + k) = nth_error C k.
Proof. rewrite <- (update_length l v L). apply nth_new. Qed.

Lemma nth_new0 (L C : store) : nth_error (L ++ C) (length L) = nth_error C 0.
Proof. rewrite <- (Nat.add_0_r (length L)) at 1. apply nth_new. Qed.

Lemma update_new0 (H L : store) (v : tensor) :
  update (length H) v (H ++ L) = H ++ update 0 v L.
Proof. rewrite <- (Nat.add_0_r (length H)) at 1. apply update_new. Qed.

Lemma get_run (S : store) (l : loc) (v : tensor) :
  nth_error S l = Some v -> get l S = (Ok v, S).
Proof. unfold get. now intros ->. Qed.

Lemma inplace2_run (f : tensor -> tensor -> res tensor) (S : store)
    (l1 l2 : loc) (t1 t2 r : tensor) :
  nth_error S l1 = Some t1 -> nth_error S l2 = Some t2 -> f t1 t2 = Ok r ->
  inplace2 f l1 l2 S = (Ok l1, update l1 r S).
Proof.
  intros H1 H2 Hf. unfold inplace2, mbind, get, lift, set, ret.
  now rewrite H1, H2, Hf, H1.
Qed.

Lemma inplace2_raise (f : tensor -> tensor -> res tensor) (S : store)
    (l1 l2 : loc) (t1 t2 : tensor) (e : exn) :
  nth_error S l1 = Some t1 -> nth_error S l2 = Some t2 -> f t1 t2 = Raise e ->
  inplace2 f l1 l2 S = (Raise e, S).
Proof.
  intros H1 H2 Hf. unfold inplace2, mbind, get, lift.
  now rewrite H1, H2, Hf.
Qed.

End StoreFacts.

(** Run a computation on a store [H ++ L], where [L] lists the tensors
    allocated so far. *)
Ltac store_step :=
  first
    [ rewrite StoreFacts.nth_new
    | erewrite StoreFacts.nth_old by eassumption
    | rewrite StoreFacts.update_new
    | rewrite length_app
    | rewrite <- app_assoc ];
  cbn [nth_error length app Store.update Store.vv Store.vs
         Store.vm Store.vbv Store.ss Store.sb Store.bb Store.bvb Store.mm
         Store.mv Store.m3 Store.t3m Store.vvv Store.vvbv Store.vvm Store.vsv
         Store.svv Store.sss Store.sbs Store.bbb Store.vbvv Store.mvv Store.mvm
         Store.msm Store.mmm Nat.add].

Ltac store_run :=
  unfold Store.unsqueeze_;
  unfold Store.alloc1, Store.alloc2, Store.inplace1, Store.inplace2, Store.mbind, Store.get, Store.new, Store.set, Store.lift,
    Store.ret, Store.raise;
  repeat store_step.

Lemma returns_intro (m : Store.M Store.loc) (H L : Store.store) (k : nat)
    (v : Store.tensor) :
  m (H ++ []) = (Ok (length H + k)%nat, H ++ L) ->
  nth_error L k = Some v ->
  Store.returns m H v.
Proof.
  rewrite app_nil_r. intros Hrun Hk. exists L, (length H + k)%nat.
  split; [exact Hrun|]. split; [|lia].
  now rewrite StoreFacts.nth_new.
Qed.

Lemma raises_intro {A : Type} (m : Store.M A) (H L : Store.store) (e : exn) :
  m (H ++ []) = (Raise e, H ++ L) -> Store.raises m H e.
Proof. rewrite app_nil_r. intros Hrun. now exists L. Qed.

Ltac store_returns :=
  eapply returns_intro; [store_run; reflexivity|reflexivity].

Ltac store_raises :=
  eapply raises_intro; store_run; reflexivity.

(** *** BoxBarrier *)

Section BoxStore.

Variables (H : Store.store) (so : Store.BoxBarrier.t) (sb : BoxBarrier.t).
Variables (x : Store.loc) (xv : vec).
Hypothesis Hself : stored H (Store.Box so) (Box sb).
Hypothesis Hx : nth_error H x = Some (Store.TV xv).

Lemma box_feasibility_store :
  Store.returns (Store.BoxBarrier.feasibility so x) H
    (Store.TB (BoxBarrier.feasibility sb xv)).
Proof.
  destruct Hself as (Hb & Hz & Hd & Hf).
  unfold Store.BoxBarrier.feasibility. store_returns.
Qed.

Lemma box_value_store :
  Store.returns (Store.BoxBarrier.value so x) H
    (Store.TS (BoxBarrier.value sb xv)).
Proof.
  destruct Hself as (Hb & Hz & Hd & Hf).
  unfold Store.BoxBarrier.value, Store.BoxBarrier._safe_diff. store_returns.
Qed.

Lemma box_gradient_store :
  Store.returns (Store.BoxBarrier.gradient so x) H
    (Store.TV (BoxBarrier.gradient sb xv)).
Proof.
  destruct Hself as (Hb & Hz & Hd & Hf).
  unfold Store.BoxBarrier.gradient, Store.BoxBarrier._safe_diff. store_returns.
Qed.

Lemma box_inverse_gradient_store :
  Store.returns (Store.BoxBarrier.inverse_gradient so x) H
    (Store.TV (BoxBarrier.inverse_gradient sb xv)).
Proof.
  destruct Hself as (Hb & Hz & Hd & Hf).
  unfold Store.BoxBarrier.inverse_gradient. store_returns.
Qed.

Lemma box_hessian_store :
  Store.returns (Store.BoxBarrier.hessian so x) H
    (Store.TV (BoxBarrier.hessian sb xv)).
Proof.
  destruct Hself as (Hb & Hz & Hd & Hf).
  unfold Store.BoxBarrier.hessian, Store.BoxBarrier._safe_diff. store_returns.
Qed.

Lemma box_boundary_to_interior_half_store :
  match BoxBarrier.boundary_to_interior_half sb xv with
  | Ok r => Store.returns (Store.BoxBarrier.boundary_to_interior_half so x) H (Store.TB r)
  | Raise e => Store.raises (Store.BoxBarrier.boundary_to_interior_half so x) H e
  end.
Proof.
  destruct Hself as (Hb & Hz & Hd & Hf).
  unfold Store.BoxBarrier.boundary_to_interior_half,
    BoxBarrier.boundary_to_interior_half.
  rewrite Hd. destruct (BoxBarrier.dimension sb).
  - store_raises.
  - store_returns.
Qed.

End BoxStore.

(** *** EllipsoidBarrier *)

Section EllipsoidStore.

Variables (H : Store.store) (so : Store.EllipsoidBarrier.t) (sb : EllipsoidBarrier.t).
Variables (x : Store.loc) (xv : vec).
Hypothesis Hself : stored H (Store.Ellipsoid so) (Ellipsoid sb).
Hypothesis Hx : nth_error H x = Some (Store.TV xv).

Ltac ellipsoid_unfold :=
  unfold Store.EllipsoidBarrier.feasibility, Store.EllipsoidBarrier.value,
    Store.EllipsoidBarrier.gradient, Store.EllipsoidBarrier.inverse_gradient,
    Store.EllipsoidBarrier.hessian, Store.EllipsoidBarrier.boundary_to_interior_half,
    Store.EllipsoidBarrier.one_minus_xAx,
    Store.EllipsoidBarrier._ellipsoid_inner_product,
    Store.EllipsoidBarrier._inverse_ellipsoid_inner_product,
    Store.EllipsoidBarrier._ellipsoid_map,
    Store.EllipsoidBarrier._inverse_ellipsoid_map, Store.EllipsoidBarrier.UT.

Lemma ellipsoid_feasibility_store :
  Store.returns (Store.EllipsoidBarrier.feasibility so x) H
    (Store.TB (EllipsoidBarrier.feasibility sb xv)).
Proof.
  destruct Hself as (Hr & He & Hd & Hf). ellipsoid_unfold. store_returns.
Qed.

Lemma ellipsoid_value_store :
  Store.returns (Store.EllipsoidBarrier.value so x) H
    (Store.TS (EllipsoidBarrier.value sb xv)).
Proof.
  destruct Hself as (Hr & He & Hd & Hf). ellipsoid_unfold. store_returns.
Qed.

Lemma ellipsoid_gradient_store :
  Store.returns (Store.EllipsoidBarrier.gradient so x) H
    (Store.TV (EllipsoidBarrier.gradient sb xv)).
Proof.
  destruct Hself as (Hr & He & Hd & Hf). ellipsoid_unfold. store_returns.
Qed.

Lemma ellipsoid_inverse_gradient_store :
  Store.returns (Store.EllipsoidBarrier.inverse_gradient so x) H
    (Store.TV (EllipsoidBarrier.inverse_gradient sb xv)).
Proof.
  destruct Hself as (Hr & He & Hd & Hf). ellipsoid_unfold. store_returns.
Qed.

Lemma ellipsoid_hessian_store :
  Store.returns (Store.EllipsoidBarrier.hessian so x) H
    (Store.TM (EllipsoidBarrier.hessian sb xv)).
Proof.
  destruct Hself as (Hr & He & Hd & Hf). ellipsoid_unfold. store_returns.
Qed.

Lemma ellipsoid_boundary_to_interior_half_store :
  match EllipsoidBarrier.boundary_to_interior_half sb xv with
  | Ok r =>
      Store.returns (Store.EllipsoidBarrier.boundary_to_interior_half so x) H (Store.TB r)
  | Raise e =>
      Store.raises (Store.EllipsoidBarrier.boundary_to_interior_half so x) H e
  end.
Proof.
  destruct Hself as (Hr & He & Hd & Hf).
  unfold EllipsoidBarrier.boundary_to_interior_half. ellipsoid_unfold.
  rewrite Hd. destruct (EllipsoidBarrier.dimension sb).
  - store_raises.
  - store_returns.
Qed.

End EllipsoidStore.

(** *** PolytopeBarrier *)

Section PolytopeStore.

Variables (H : Store.store) (so : Store.PolytopeBarrier.t) (sb : PolytopeBarrier.t).
Variables (x : Store.loc) (xv : vec).
Hypothesis Hself : stored H (Store.Polytope so) (Polytope sb).
Hypothesis Hx : nth_error H x = Some (Store.TV xv).

Ltac polytope_cases :=
  destruct Hself as (HA & Hb & Hw & Hd & Hf & Hform);
  unfold Store.PolytopeBarrier.feasibility, Store.PolytopeBarrier.value,
    Store.PolytopeBarrier.gradient, Store.PolytopeBarrier.hessian,
    Store.PolytopeBarrier._safe_slack, Store.PolytopeBarrier._Ax,
    PolytopeBarrier.feasibility, PolytopeBarrier.value, PolytopeBarrier.gradient,
    PolytopeBarrier.hessian, PolytopeBarrier._safe_slack, PolytopeBarrier._Ax;
  rewrite ?Hf, ?Hform, ?Hd;
  unfold stored_weights in Hw;
  destruct (PolytopeBarrier.A (PolytopeBarrier.polytope sb)) as [a|a];
  destruct (Store.PolytopeBarrier.weights so) as [lw|],
    (PolytopeBarrier.weights sb) as [w|];
  try contradiction; cbn [negb tensor_of_A tensor_of_hess] in *.

Lemma polytope_feasibility_store :
  Store.returns (Store.PolytopeBarrier.feasibility so x) H
    (Store.TB (PolytopeBarrier.feasibility sb xv)).
Proof. polytope_cases; store_returns. Qed.

Lemma polytope_value_store :
  Store.returns (Store.PolytopeBarrier.value so x) H
    (Store.TS (PolytopeBarrier.value sb xv)).
Proof. polytope_cases; store_returns. Qed.

Lemma polytope_gradient_store :
  Store.returns (Store.PolytopeBarrier.gradient so x) H
    (Store.TV (PolytopeBarrier.gradient sb xv)).
Proof. polytope_cases; store_returns. Qed.

Lemma polytope_hessian_store :
  Store.returns (Store.PolytopeBarrier.hessian so x) H
    (tensor_of_hess (PolytopeBarrier.hessian sb xv)).
Proof. polytope_cases; store_returns. Qed.

End PolytopeStore.

(** *** SimplexBarrier *)

Section SimplexStore.

Variables (H : Store.store) (so : Store.SimplexBarrier.t) (sb : SimplexBarrier.t).
Variables (x : Store.loc) (xv : vec).
Hypothesis Hself : stored H (Store.Simplex so) (Simplex sb).
Hypothesis Hx : nth_error H x = Some (Store.TV xv).

Ltac simplex_unfold :=
  unfold Store.SimplexBarrier.feasibility, Store.SimplexBarrier.value,
    Store.SimplexBarrier.gradient, Store.SimplexBarrier.hessian,
    Store.SimplexBarrier.boundary_to_interior_half,
    Store.SimplexBarrier._safe_interior.

Lemma simplex_feasibility_store :
  Store.returns (Store.SimplexBarrier.feasibility so x) H
    (Store.TB (SimplexBarrier.feasibility sb xv)).
Proof. simplex_unfold. store_returns. Qed.

Lemma simplex_value_store :
  Store.returns (Store.SimplexBarrier.value so x) H
    (Store.TS (SimplexBarrier.value sb xv)).
Proof. simplex_unfold. store_returns. Qed.

Lemma simplex_gradient_store :
  Store.returns (Store.SimplexBarrier.gradient so x) H
    (Store.TV (SimplexBarrier.gradient sb xv)).
Proof. simplex_unfold. store_returns. Qed.

Lemma simplex_hessian_store :
  Store.returns (Store.SimplexBarrier.hessian so x) H
    (Store.TM (SimplexBarrier.hessian sb xv)).
Proof. simplex_unfold. store_returns. Qed.

Lemma simplex_boundary_to_interior_half_store :
  match SimplexBarrier.boundary_to_interior_half sb xv with
  | Ok r =>
      Store.returns (Store.SimplexBarrier.boundary_to_interior_half so x) H (Store.TB r)
  | Raise e =>
      Store.raises (Store.SimplexBarrier.boundary_to_interior_half so x) H e
  end.
Proof.
  destruct Hself as (Hd & Hf).
  unfold SimplexBarrier.boundary_to_interior_half. simplex_unfold.
  rewrite Hd. destruct (SimplexBarrier.dimension sb).
  - store_raises.
  - store_returns.
Qed.

End SimplexStore.

(** *** The loop of [SimplexBarrier.inverse_gradient] *)

(** Symbolic execution on a store [H ++ (L ++ C)]: [L] holds the tensors of
    the turns before, of which only [c_lower] and [c_upper] are known, and [C]
    the tensors of this turn. *)
Ltac solve_nth :=
  repeat (rewrite StoreFacts.nth_update_ne by lia);
  first [ eassumption | eapply StoreFacts.nth_update_eq; solve_nth ].

Ltac loop_step :=
  first
    [ match goal with
      | Hn : nth_error ?L ?k = Some _ |- context [nth_error ?L ?k] => rewrite Hn
      end
    | rewrite StoreFacts.nth_new
    | rewrite StoreFacts.nth_new0
    | rewrite StoreFacts.nth_new_update
    | erewrite StoreFacts.nth_old by solve_nth
    | rewrite nth_error_cons_0
    | rewrite nth_error_cons_succ
    | rewrite StoreFacts.update_new
    | rewrite StoreFacts.update_new0
    | erewrite StoreFacts.update_app_old by solve_nth
    | rewrite length_app
    | rewrite StoreFacts.update_length
    | rewrite <- app_assoc
    | rewrite Nat.add_0_r
    | rewrite <- Nat.add_assoc ];
  cbn [length app Nat.add Store.vv Store.vs
         Store.vm Store.vbv Store.ss Store.sb Store.bb Store.bvb Store.mm
         Store.mv Store.m3 Store.t3m Store.vvv Store.vvbv Store.vvm Store.vsv
         Store.svv Store.sss Store.sbs Store.bbb Store.vbvv Store.mvv Store.mvm
         Store.msm Store.mmm Store.sbv Store.svs].

Ltac loop_run :=
  unfold Store.unsqueeze_;
  unfold Store.alloc1, Store.alloc2, Store.inplace1, Store.inplace2, Store.mbind,
    Store.get, Store.new, Store.set, Store.lift, Store.ret, Store.raise;
  repeat loop_step.

Lemma simplex_bisect_store (H L : Store.store) (y : Store.loc) (yv : vec)
    (lo hi : scalar) :
  nth_error H y = Some (Store.TV yv) ->
  nth_error L 0 = Some (Store.TS lo) ->
  nth_error L 2 = Some (Store.TS hi) ->
  exists L',
    Store.SimplexBarrier.bisect y (length H + 0)%nat (length H + 2)%nat (H ++ L)
    = (Ok tt, H ++ L')
    /\ nth_error L' 0 = Some (Store.TS (fst (SimplexBarrier.bisect yv (lo, hi))))
    /\ nth_error L' 2 = Some (Store.TS (snd (SimplexBarrier.bisect yv (lo, hi)))).
Proof.
  intros Hy Hlo Hhi.
  enough (E : exists L',
             Store.SimplexBarrier.bisect y (length H + 0)%nat (length H + 2)%nat
               (H ++ (L ++ []))
             = (Ok tt, H ++ L')
             /\ nth_error L' 0 = Some (Store.TS (fst (SimplexBarrier.bisect yv (lo, hi))))
             /\ nth_error L' 2 = Some (Store.TS (snd (SimplexBarrier.bisect yv (lo, hi)))))
    by (now rewrite app_nil_r in E).
  unfold Store.SimplexBarrier.bisect, Store.SimplexBarrier.f.
  eexists. split; [loop_run; reflexivity|].
  unfold SimplexBarrier.bisect, SimplexBarrier.f. cbn [fst snd].
  split.
  - erewrite StoreFacts.nth_old; [reflexivity|].
    erewrite StoreFacts.nth_update_eq by solve_nth.
    do 2 f_equal. now destruct (f64.gt _ _).
  - erewrite StoreFacts.nth_old; [reflexivity|].
    rewrite StoreFacts.nth_update_ne by lia.
    erewrite StoreFacts.nth_update_eq by solve_nth.
    do 2 f_equal. now destruct (f64.gt _ _).
Qed.

Lemma simplex_loop_store (H : Store.store) (y : Store.loc) (yv : vec) (n : nat) :
  nth_error H y = Some (Store.TV yv) ->
  forall (L : Store.store) (lo hi : scalar),
    nth_error L 0 = Some (Store.TS lo) ->
    nth_error L 2 = Some (Store.TS hi) ->
    exists L',
      Store.for_range n
        (Store.SimplexBarrier.bisect y (length H + 0)%nat (length H + 2)%nat) (H ++ L)
      = (Ok tt, H ++ L')
      /\ nth_error L' 0
         = Some (Store.TS (fst (SimplexBarrier.for_range n (SimplexBarrier.bisect yv) (lo, hi))))
      /\ nth_error L' 2
         = Some (Store.TS (snd (SimplexBarrier.for_range n (SimplexBarrier.bisect yv) (lo, hi)))).
Proof.
  intros Hy. induction n as [|n IH]; intros L lo hi Hlo Hhi.
  - exists L. now repeat split.
  - destruct (simplex_bisect_store H L y yv lo hi Hy Hlo Hhi) as (L1 & Hrun & Hlo1 & Hhi1).
    destruct (IH L1 _ _ Hlo1 Hhi1) as (L2 & Hrun2 & Hlo2 & Hhi2).
    exists L2. cbn [Store.for_range SimplexBarrier.for_range].
    unfold Store.mbind at 1. rewrite Hrun, Hrun2.
    now rewrite <- surjective_pairing in Hlo2, Hhi2.
Qed.

Lemma simplex_inverse_gradient_store (H : Store.store) (so : Store.SimplexBarrier.t)
    (sb : SimplexBarrier.t) (y : Store.loc) (yv : vec) :
  nth_error H y = Some (Store.TV yv) ->
  match SimplexBarrier.inverse_gradient sb yv with
  | Ok r => Store.returns (Store.SimplexBarrier.inverse_gradient so y) H (Store.TV r)
  | Raise e => Store.raises (Store.SimplexBarrier.inverse_gradient so y) H e
  end.
Proof.
  intros Hy.
  unfold SimplexBarrier.inverse_gradient, SimplexBarrier.initial_c_upper.
  destruct (torch.max yv) as [m|e] eqn:Emax; cbn [bind].
  - set (c_upper := if f64.lt (f64.clamp_max (f64.reciprocal m) 1) (Fin 0)
                    then Fin 1 else f64.clamp_max (f64.reciprocal m) 1).
    destruct (simplex_loop_store H y yv 35 Hy
                [Store.TS (Fin 0); Store.TS m; Store.TS c_upper;
                 Store.TB (f64.lt (f64.clamp_max (f64.reciprocal m) 1) (Fin 0))]
                (Fin 0) c_upper eq_refl eq_refl) as (L' & Hrun & Hlo & Hhi).
    destruct (SimplexBarrier.for_range 35 _ _) as [lo hi]. cbn [fst snd] in Hlo, Hhi.
    eapply (returns_intro _ _ _ (length L' + 3)).
    + unfold Store.SimplexBarrier.inverse_gradient.
      store_run. unfold Store.SimplexBarrier.max_dim. rewrite Emax.
      cbn [bind]. store_run.
      unfold Store.fill_where. fold c_upper. rewrite Hrun.
      loop_run. reflexivity.
    + rewrite StoreFacts.nth_new. reflexivity.
  - eapply raises_intro. unfold Store.SimplexBarrier.inverse_gradient.
    store_run. unfold Store.SimplexBarrier.max_dim. rewrite Emax. cbn [bind].
    reflexivity.
Qed.

(** *** ComposeBarrier *)

Lemma obj_ind' (P : Store.obj -> Prop)
    (HBox : forall self, P (Store.Box self))
    (HEllipsoid : forall self, P (Store.Ellipsoid self))
    (HSimplex : forall self, P (Store.Simplex self))
    (HPolytope : forall self, P (Store.Polytope self))
    (HCompose : forall barriers dh order,
        Forall P barriers -> P (Store.Compose barriers dh order)) :
  forall o, P o.
Proof.
  fix IH 1. intros [self|self|self|self|barriers dh order].
  - apply HBox.
  - apply HEllipsoid.
  - apply HSimplex.
  - apply HPolytope.
  - apply HCompose.
    induction barriers as [|c l IHl]; constructor.
    + apply IH.
    + apply IHl.
Qed.

Lemma stored_compose (H : Store.store) (os : list Store.obj) (dh : bool)
    (order : list nat * list nat) (bs : list barrier) (dh' : bool)
    (order' : list nat * list nat) :
  stored H (Store.Compose os dh order) (Compose bs dh' order')
  <-> dh = dh' /\ order = order' /\ Forall2 (stored H) os bs.
Proof.
  cbn. do 2 apply and_iff_compat_l.
  revert bs. induction os as [|o os IH]; intros [|b bs].
  - split; constructor.
  - split; [contradiction|intros Hf; inversion Hf].
  - split; [contradiction|intros Hf; inversion Hf].
  - rewrite IH. split.
    + intros [H1 H2]. now constructor.
    + intros Hf. inversion Hf. now split.
Qed.

Lemma stored_weights_app (H L : Store.store) (l : option Store.loc) (w : option vec) :
  stored_weights H l w -> stored_weights (H ++ L) l w.
Proof.
  destruct l, w; cbn; auto using StoreFacts.nth_old.
Qed.

(** The tensors of an instance stay where they are when the store grows. *)
Lemma stored_app (L : Store.store) (o : Store.obj) :
  forall H b, stored H o b -> stored (H ++ L) o b.
Proof.
  induction o as [so|so|so|so|os dh order IH] using obj_ind';
    intros H [sb|sb|sb|sb|bs dh' order'] Hs; try contradiction.
  - destruct Hs as (H1 & H2 & H3 & H4).
    repeat split; auto using StoreFacts.nth_old.
  - destruct Hs as (H1 & H2 & H3 & H4).
    repeat split; auto using StoreFacts.nth_old.
  - exact Hs.
  - destruct Hs as (H1 & H2 & H3 & H4 & H5 & H6).
    repeat split; auto using StoreFacts.nth_old, stored_weights_app.
  - apply stored_compose in Hs as (Hdh & Hord & Hall).
    apply stored_compose. repeat split; try assumption.
    clear Hdh Hord. revert bs Hall.
    induction IH as [|o os Ho _ IHos]; intros bs Hall; inversion Hall; subst;
      constructor; auto.
Qed.

Lemma for_each_cons {A : Type} (a : A) (l : list A) (body : A -> Store.M unit)
    (S : Store.store) :
  Store.for_each (a :: l) body S
  = match body a S with
    | (Ok _, S') => Store.for_each l body S'
    | (Raise e, S') => (Raise e, S')
    end.
Proof. reflexivity. Qed.

(** A loop that calls every constituent and adds the tensor it returns, in
    place, to the tensor at [l]. *)
Lemma accumulate_store (f : Store.tensor -> Store.tensor -> res Store.tensor)
    (H : Store.store) (k : nat) (l : Store.loc)
    (calls : list (Store.M Store.loc)) (rs : list (res Store.tensor)) :
  l = (length H + k)%nat ->
  Forall2 (fun call r => forall L, Store.yields call (H ++ L) r) calls rs ->
  forall (L : Store.store) (acc : Store.tensor),
    nth_error L k = Some acc ->
    match fold_left (fun a r => a <- a ;; v <- r ;; f a v) rs (Ok acc) with
    | Ok acc' =>
        exists L',
          Store.for_each calls (Store.ComposeBarrier.accumulate f l) (H ++ L)
          = (Ok tt, H ++ L')
          /\ nth_error L' k = Some acc'
    | Raise e =>
        exists L',
          Store.for_each calls (Store.ComposeBarrier.accumulate f l) (H ++ L)
          = (Raise e, H ++ L')
    end.
Proof.
  intros -> Hcalls. induction Hcalls as [|call r calls rs Hcall _ IH];
    intros L acc Hacc.
  - cbn. exists L. now split.
  - cbn [fold_left]. specialize (Hcall L). destruct r as [v|e]; cbn [bind].
    + destruct Hcall as (L2 & lr & Hrun & Hlr & _).
      rewrite <- app_assoc in Hlr, Hrun.
      assert (Hk : nth_error (H ++ (L ++ L2)) (length H + k) = Some acc).
      { rewrite StoreFacts.nth_new. now apply StoreFacts.nth_old. }
      destruct (f acc v) as [acc'|e] eqn:Ef.
      * assert (E : Store.for_each (call :: calls)
                      (Store.ComposeBarrier.accumulate f (length H + k)%nat) (H ++ L)
                    = Store.for_each calls
                        (Store.ComposeBarrier.accumulate f (length H + k)%nat)
                        (H ++ Store.update k acc' (L ++ L2))).
        { rewrite for_each_cons.
          unfold Store.ComposeBarrier.accumulate at 1. unfold Store.mbind.
          rewrite Hrun, (StoreFacts.inplace2_run f _ _ _ _ _ acc' Hk Hlr Ef).
          unfold Store.ret. now rewrite StoreFacts.update_new. }
        rewrite E. apply IH.
        eapply StoreFacts.nth_update_eq, StoreFacts.nth_old, Hacc.
      * rewrite (fold_raise (fun a r => v <- r ;; f a v)).
        exists (L ++ L2). rewrite for_each_cons.
        unfold Store.ComposeBarrier.accumulate at 1. unfold Store.mbind.
        now rewrite Hrun, (StoreFacts.inplace2_raise f _ _ _ _ _ e Hk Hlr Ef).
    + destruct Hcall as (L2 & Hrun).
      rewrite (fold_raise (fun a r => v <- r ;; f a v)).
      exists (L ++ L2). rewrite for_each_cons.
      unfold Store.ComposeBarrier.accumulate at 1. unfold Store.mbind.
      now rewrite Hrun, <- app_assoc.
Qed.

Lemma for_each_map {A B : Type} (g : A -> B) (l : list A) (body : B -> Store.M unit) :
  Store.for_each l (fun a => body (g a)) = Store.for_each (map g l) body.
Proof.
  induction l as [|a l IH]; [reflexivity|].
  cbn [Store.for_each map]. now rewrite IH.
Qed.

(** The method loops of the form [acc = new; for b in barriers:
    acc.op_(b.method(x)); return acc]. *)
Lemma accumulate_returns (f : Store.tensor -> Store.tensor -> res Store.tensor)
    (init : Store.M Store.loc) (acc0 : Store.tensor) (H : Store.store)
    (calls : list (Store.M Store.loc)) (rs : list (res Store.tensor)) :
  init H = (Ok (length H), H ++ [acc0]) ->
  Forall2 (fun call r => forall L, Store.yields call (H ++ L) r) calls rs ->
  Store.yields
    (Store.mbind init (fun l =>
       Store.mbind (Store.for_each calls (Store.ComposeBarrier.accumulate f l))
         (fun _ => Store.ret l)))
    H
    (fold_left (fun a r => a <- a ;; v <- r ;; f a v) rs (Ok acc0)).
Proof.
  intros Hinit Hcalls.
  pose proof (accumulate_store f H 0 (length H) calls rs (eq_sym (Nat.add_0_r _))
                Hcalls [acc0] acc0 eq_refl) as Hloop.
  destruct (fold_left _ rs (Ok acc0)) as [acc'|e].
  - destruct Hloop as (L' & Hrun & Hacc). exists L', (length H).
    unfold Store.mbind. rewrite Hinit, Hrun.
    repeat split; [|lia]. now rewrite StoreFacts.nth_new0.
  - destruct Hloop as (L' & Hrun). exists L'.
    unfold Store.mbind. now rewrite Hinit, Hrun.
Qed.

Section Generic.

Variables (x : Store.loc) (xv : vec).

Lemma calls_agree (scall : Store.obj -> Store.M Store.loc)
    (pcall : barrier -> res Store.tensor) (H : Store.store)
    (os : list Store.obj) (bs : list barrier) :
  Forall (agrees x xv scall pcall) os ->
  Forall2 (stored H) os bs ->
  nth_error H x = Some (Store.TV xv) ->
  Forall2 (fun call r => forall L, Store.yields call (H ++ L) r)
    (map scall os) (map pcall bs).
Proof.
  intros Hag Hst Hx. revert Hag.
  induction Hst as [|o b os bs Hob _ IH]; intros Hag; cbn [map];
    inversion Hag; subst; constructor; auto.
  intros L. apply H2; [now apply stored_app|now apply StoreFacts.nth_old].
Qed.

Lemma fold_feasibility (g : barrier -> bool) (bs : list barrier) (acc : bool) :
  fold_left (fun a r => a <- a ;; v <- r ;; Store.bbb andb a v)
    (map (fun b => Ok (Store.TB (g b))) bs) (Ok (Store.TB acc))
  = Ok (Store.TB (fold_left (fun check c => check && c) (map g bs) acc)).
Proof.
  revert acc. induction bs as [|b bs IH]; intros acc; [reflexivity|].
  cbn [map fold_left bind Store.bbb]. apply IH.
Qed.

Lemma fold_value (g : barrier -> scalar) (bs : list barrier) (acc : scalar) :
  fold_left (fun a r => a <- a ;; v <- r ;; Store.sss f64.add a v)
    (map (fun b => Ok (Store.TS (g b))) bs) (Ok (Store.TS acc))
  = Ok (Store.TS (fold_left f64.add (map g bs) acc)).
Proof.
  revert acc. induction bs as [|b bs IH]; intros acc; [reflexivity|].
  cbn [map fold_left bind Store.sss]. apply IH.
Qed.

Lemma fold_gradient (g : barrier -> vec) (bs : list barrier) (acc : vec) :
  fold_left (fun a r => a <- a ;; v <- r ;; Store.vvv torch.add a v)
    (map (fun b => Ok (Store.TV (g b))) bs) (Ok (Store.TV acc))
  = Ok (Store.TV (fold_left torch.add (map g bs) acc)).
Proof.
  revert acc. induction bs as [|b bs IH]; intros acc; [reflexivity|].
  cbn [map fold_left bind Store.vvv]. apply IH.
Qed.

Theorem feasibility_store (o : Store.obj) :
  agrees x xv (fun o => Store.feasibility o x)
    (fun b => Ok (Store.TB (feasibility b xv))) o.
Proof.
  induction o as [so|so|so|so|os dh order IH] using obj_ind';
    intros H [sb|sb|sb|sb|bs dh' order'] Hs Hx; try contradiction; cbn [Store.yields].
  - now apply box_feasibility_store.
  - now apply ellipsoid_feasibility_store.
  - now apply simplex_feasibility_store.
  - now apply polytope_feasibility_store.
  - apply stored_compose in Hs as (_ & _ & Hall).
    pose proof (calls_agree _ _ H os bs IH Hall Hx) as Hcalls.
    pose proof (accumulate_returns (Store.bbb andb) (Store.new (Store.TB true))
                  (Store.TB true) H _ _ eq_refl Hcalls) as Hacc.
    rewrite (fold_feasibility (fun b => feasibility b xv)) in Hacc. exact Hacc.
Qed.

Theorem value_store (o : Store.obj) :
  agrees x xv (fun o => Store.value o x) (fun b => Ok (Store.TS (value b xv))) o.
Proof.
  induction o as [so|so|so|so|os dh order IH] using obj_ind';
    intros H [sb|sb|sb|sb|bs dh' order'] Hs Hx; try contradiction; cbn [Store.yields].
  - now apply box_value_store.
  - now apply ellipsoid_value_store.
  - now apply simplex_value_store.
  - now apply polytope_value_store.
  - apply stored_compose in Hs as (_ & _ & Hall).
    pose proof (calls_agree _ _ H os bs IH Hall Hx) as Hcalls.
    pose proof (accumulate_returns (Store.sss f64.add) (Store.new (Store.TS (Fin 0)))
                  (Store.TS (Fin 0)) H _ _ eq_refl Hcalls) as Hacc.
    rewrite (fold_value (fun b => value b xv)) in Hacc. exact Hacc.
Qed.

Theorem gradient_store (o : Store.obj) :
  agrees x xv (fun o => Store.gradient o x) (fun b => Ok (Store.TV (gradient b xv))) o.
Proof.
  induction o as [so|so|so|so|os dh order IH] using obj_ind';
    intros H [sb|sb|sb|sb|bs dh' order'] Hs Hx; try contradiction; cbn [Store.yields].
  - now apply box_gradient_store.
  - now apply ellipsoid_gradient_store.
  - now apply simplex_gradient_store.
  - now apply polytope_gradient_store.
  - apply stored_compose in Hs as (_ & _ & Hall).
    pose proof (calls_agree _ _ H os bs IH Hall Hx) as Hcalls.
    assert (Hinit : Store.alloc1 (Store.vv ComposeBarrier.zeros_like) x H
                    = (Ok (length H), H ++ [Store.TV (ComposeBarrier.zeros_like xv)])).
    { unfold Store.alloc1, Store.mbind, Store.get, Store.lift, Store.new.
      now rewrite Hx. }
    pose proof (accumulate_returns (Store.vvv torch.add) _ _ H _ _ Hinit Hcalls) as Hacc.
    rewrite (fold_gradient (fun b => gradient b xv)) in Hacc. exact Hacc.
Qed.

Theorem inverse_gradient_store (o : Store.obj) :
  agrees x xv (fun o => Store.inverse_gradient o x)
    (fun b => res_map Store.TV (inverse_gradient b xv)) o.
Proof.
  destruct o as [so|so|so|so|os dh order];
    intros H [sb|sb|sb|sb|bs dh' order'] Hs Hx; try contradiction.
  - now apply box_inverse_gradient_store.
  - now apply ellipsoid_inverse_gradient_store.
  - pose proof (simplex_inverse_gradient_store H so sb x xv Hx) as Hig.
    cbn [inverse_gradient Store.inverse_gradient].
    now destruct (SimplexBarrier.inverse_gradient sb xv).
  - exists []. now rewrite app_nil_r.
  - exists []. now rewrite app_nil_r.
Qed.

Theorem boundary_to_interior_half_store (o : Store.obj) :
  agrees x xv (fun o => Store.boundary_to_interior_half o x)
    (fun b => res_map Store.TB (boundary_to_interior_half b xv)) o.
Proof.
  destruct o as [so|so|so|so|os dh order];
    intros H [sb|sb|sb|sb|bs dh' order'] Hs Hx; try contradiction;
    cbn [boundary_to_interior_half Store.boundary_to_interior_half].
  - pose proof (box_boundary_to_interior_half_store H so sb x xv Hs Hx) as Hb.
    now destruct (BoxBarrier.boundary_to_interior_half sb xv).
  - pose proof (ellipsoid_boundary_to_interior_half_store H so sb x xv Hs Hx) as Hb.
    now destruct (EllipsoidBarrier.boundary_to_interior_half sb xv).
  - pose proof (simplex_boundary_to_interior_half_store H so sb x xv Hs Hx) as Hb.
    now destruct (SimplexBarrier.boundary_to_interior_half sb xv).
  - exists []. now rewrite app_nil_r.
  - exists []. now rewrite app_nil_r.
Qed.

Lemma call_at_agree (H : Store.store) (scalls : list (Store.M Store.loc))
    (pcalls : list (res hess)) :
  Forall2 (fun call r => forall L, Store.yields call (H ++ L) r)
    scalls (map (res_map tensor_of_hess) pcalls) ->
  forall idx L,
    Store.yields (Store.ComposeBarrier.call_at scalls idx) (H ++ L)
      (res_map tensor_of_hess (ComposeBarrier.call_at pcalls idx)).
Proof.
  intros Hall. remember (map (res_map tensor_of_hess) pcalls) as rs eqn:Ers.
  revert pcalls Ers.
  induction Hall as [|call r scalls rs Hcall _ IH]; intros [|p pcalls] Ers idx L;
    try discriminate.
  - unfold Store.ComposeBarrier.call_at, ComposeBarrier.call_at.
    destruct idx; cbn; exists []; now rewrite app_nil_r.
  - injection Ers as -> Ers. destruct idx as [|idx].
    + apply Hcall.
    + now apply (IH pcalls Ers idx L).
Qed.

Lemma fold_iadd_vec_tensor (pcalls : list (res hess)) (idxs : list nat) (acc : vec) :
  fold_left (fun a r => a <- a ;; v <- r ;; Store.ComposeBarrier.iadd a v)
    (map (fun idx => res_map tensor_of_hess (ComposeBarrier.call_at pcalls idx)) idxs)
    (Ok (Store.TV acc))
  = res_map Store.TV
      (fold_left
         (fun acc idx => a <- acc ;; hi <- ComposeBarrier.call_at pcalls idx ;;
                         ComposeBarrier.iadd_vec a hi)
         idxs (Ok acc)).
Proof.
  revert acc. induction idxs as [|idx idxs IH]; intros acc; [reflexivity|].
  cbn [map fold_left bind].
  destruct (ComposeBarrier.call_at pcalls idx) as [[v|m]|e]; cbn.
  - apply IH.
  - rewrite (fold_raise (fun a r => v <- r ;; Store.ComposeBarrier.iadd a v)).
    now rewrite (fold_raise (fun a idx => hi <- ComposeBarrier.call_at pcalls idx ;;
                                          ComposeBarrier.iadd_vec a hi)).
  - rewrite (fold_raise (fun a r => v <- r ;; Store.ComposeBarrier.iadd a v)).
    now rewrite (fold_raise (fun a idx => hi <- ComposeBarrier.call_at pcalls idx ;;
                                          ComposeBarrier.iadd_vec a hi)).
Qed.

Lemma fold_iadd_mat_tensor (pcalls : list (res hess)) (idxs : list nat) (acc : mat) :
  fold_left (fun a r => a <- a ;; v <- r ;; Store.ComposeBarrier.iadd a v)
    (map (fun idx => res_map tensor_of_hess (ComposeBarrier.call_at pcalls idx)) idxs)
    (Ok (Store.TM acc))
  = res_map Store.TM
      (fold_left
         (fun acc idx => a <- acc ;; hi <- ComposeBarrier.call_at pcalls idx ;;
                         ComposeBarrier.iadd_mat a hi)
         idxs (Ok acc)).
Proof.
  revert acc. induction idxs as [|idx idxs IH]; intros acc; [reflexivity|].
  cbn [map fold_left bind].
  destruct (ComposeBarrier.call_at pcalls idx) as [[v|m]|e]; cbn.
  - apply IH.
  - apply IH.
  - rewrite (fold_raise (fun a r => v <- r ;; Store.ComposeBarrier.iadd a v)).
    now rewrite (fold_raise (fun a idx => hi <- ComposeBarrier.call_at pcalls idx ;;
                                          ComposeBarrier.iadd_mat a hi)).
Qed.

Lemma compose_hessian_store (H : Store.store) (dh : bool)
    (order : list nat * list nat) (scalls : list (Store.M Store.loc))
    (pcalls : list (res hess)) :
  nth_error H x = Some (Store.TV xv) ->
  Forall2 (fun call r => forall L, Store.yields call (H ++ L) r)
    scalls (map (res_map tensor_of_hess) pcalls) ->
  Store.yields (Store.ComposeBarrier.hessian dh order scalls x) H
    (res_map tensor_of_hess (ComposeBarrier.hessian dh order pcalls xv)).
Proof.
  intros Hx Hcalls.
  assert (Hloop : forall idxs,
             Forall2 (fun call r => forall L, Store.yields call (H ++ L) r)
               (map (Store.ComposeBarrier.call_at scalls) idxs)
               (map (fun idx => res_map tensor_of_hess (ComposeBarrier.call_at pcalls idx))
                  idxs)).
  { induction idxs as [|idx idxs IH]; cbn [map]; constructor; [|exact IH].
    intros L. now apply call_at_agree. }
  unfold Store.ComposeBarrier.hessian, ComposeBarrier.hessian.
  destruct (0 <? length (snd order))%nat.
  - pose proof (accumulate_store Store.ComposeBarrier.iadd H 0 (length H) _ _
                  (eq_sym (Nat.add_0_r _)) (Hloop (snd order))
                  [Store.TV (ComposeBarrier.zeros_like xv)] _ eq_refl) as H1.
    rewrite fold_iadd_vec_tensor in H1.
    rewrite <- for_each_map in H1.
    destruct (fold_left _ (snd order) (Ok (ComposeBarrier.zeros_like xv)))
      as [acc|e]; cbn [res_map bind] in H1 |- *.
    + destruct H1 as (L1 & Hrun1 & Hacc1).
      destruct dh; cbn [negb bind ComposeBarrier.read_local res_map tensor_of_hess
                          Store.yields].
      * exists L1, (length H).
        unfold Store.alloc1; unfold Store.mbind, Store.get, Store.lift, Store.new.
        rewrite Hx. cbn [Store.vv]. rewrite Hrun1. unfold Store.ret. cbn.
        repeat split; [|lia]. now rewrite StoreFacts.nth_new0.
      * pose proof (accumulate_store Store.ComposeBarrier.iadd H (length L1)
                      (length H + length L1)%nat _ _ eq_refl (Hloop (fst order))
                      (L1 ++ [Store.TM (torch.diag_embed acc)]) _
                      (eq_trans (StoreFacts.nth_new0 _ _) eq_refl)) as H2.
        rewrite fold_iadd_mat_tensor in H2.
        rewrite <- for_each_map in H2.
        destruct (fold_left _ (fst order) (Ok (torch.diag_embed acc))) as [m|e];
          cbn [res_map bind tensor_of_hess Store.yields] in H2 |- *.
        -- destruct H2 as (L2 & Hrun2 & Hacc2).
           exists L2, (length H + length L1)%nat.
           unfold Store.alloc1; unfold Store.mbind, Store.get, Store.lift, Store.new.
           rewrite Hx. cbn [Store.vv]. rewrite Hrun1. unfold Store.ret.
           cbn [Store.ComposeBarrier.read_local]. unfold Store.ret.
           rewrite StoreFacts.nth_new0, Hacc1. cbn [Store.vm].
           rewrite length_app, <- app_assoc, Hrun2.
           repeat split; [|lia]. now rewrite StoreFacts.nth_new.
        -- destruct H2 as (L2 & Hrun2). exists L2.
           unfold Store.alloc1; unfold Store.mbind, Store.get, Store.lift, Store.new.
           rewrite Hx. cbn [Store.vv]. rewrite Hrun1. unfold Store.ret.
           cbn [Store.ComposeBarrier.read_local]. unfold Store.ret.
           rewrite StoreFacts.nth_new0, Hacc1. cbn [Store.vm].
           now rewrite length_app, <- app_assoc, Hrun2.
    + destruct H1 as (L1 & Hrun1). exists L1.
      unfold Store.alloc1; unfold Store.mbind, Store.get, Store.lift, Store.new.
      rewrite Hx. cbn [Store.vv]. now rewrite Hrun1.
  - destruct dh; cbn; exists []; now rewrite app_nil_r.
Qed.

Theorem hessian_store (o : Store.obj) :
  agrees x xv (fun o => Store.hessian o x)
    (fun b => res_map tensor_of_hess (hessian b xv)) o.
Proof.
  induction o as [so|so|so|so|os dh order IH] using obj_ind';
    intros H [sb|sb|sb|sb|bs dh' order'] Hs Hx; try contradiction.
  - now apply box_hessian_store.
  - now apply ellipsoid_hessian_store.
  - now apply simplex_hessian_store.
  - now apply polytope_hessian_store.
  - apply stored_compose in Hs as (<- & <- & Hall).
    pose proof (calls_agree _ _ H os bs IH Hall Hx) as Hcalls.
    cbn [Store.hessian hessian].
    apply compose_hessian_store; [exact Hx|].
    now rewrite map_map.
Qed.

End Generic.

Lemma yields_outcome (m : Store.M Store.loc) (H : Store.store) (r : res Store.tensor) :
  Store.yields m H r -> exists L, Store.outcome m H = (r, H ++ L).
Proof.
  unfold Store.outcome. destruct r as [v|e].
  - intros (L & l & -> & -> & _). now exists L.
  - intros (L & ->). now exists L.
Qed.

Lemma agrees_twice (x : Store.loc) (xv : vec)
    (scall : Store.obj -> Store.M Store.loc) (pcall : barrier -> res Store.tensor)
    (o : Store.obj) (H : Store.store) (b : barrier) :
  agrees x xv scall pcall o ->
  stored H o b -> nth_error H x = Some (Store.TV xv) ->
  Store.twice (scall o) H (pcall b).
Proof.
  intros Hag Hs Hx.
  destruct (yields_outcome _ _ _ (Hag H b Hs Hx)) as (L1 & H1).
  destruct (yields_outcome _ _ _
              (Hag (H ++ L1) b (stored_app L1 o H b Hs) (StoreFacts.nth_old H L1 x _ Hx)))
    as (L2 & H2).
  exists L1, L2. split; [exact H1|]. now rewrite H2, <- app_assoc.
Qed.

(** C10.  Every operation of every barrier is a function of the input and of
    the parameters: run on a store that holds the parameters of the barrier
    [b] and the input [xv], it returns a tensor whose value is the value of
    the method on [b] and [xv] (or raises what that method raises), and the
    store after the call is the store before it followed by the tensors the
    call allocated, so neither a parameter nor the input is written; a second
    call returns the same value again. *)
Theorem operations_pure (H : Store.store) (o : Store.obj) (b : barrier)
    (x : Store.loc) (xv : vec) :
  stored H o b ->
  nth_error H x = Some (Store.TV xv) ->
  Store.twice (Store.feasibility o x) H (Ok (Store.TB (feasibility b xv)))
  /\ Store.twice (Store.value o x) H (Ok (Store.TS (value b xv)))
  /\ Store.twice (Store.gradient o x) H (Ok (Store.TV (gradient b xv)))
  /\ Store.twice (Store.hessian o x) H (res_map tensor_of_hess (hessian b xv))
  /\ Store.twice (Store.inverse_gradient o x) H
       (res_map Store.TV (inverse_gradient b xv))
  /\ Store.twice (Store.boundary_to_interior_half o x) H
       (res_map Store.TB (boundary_to_interior_half b xv)).
Proof.
  intros Hs Hx. repeat split.
  - exact (agrees_twice x xv _ _ o H b (feasibility_store x xv o) Hs Hx).
  - exact (agrees_twice x xv _ _ o H b (value_store x xv o) Hs Hx).
  - exact (agrees_twice x xv _ _ o H b (gradient_store x xv o) Hs Hx).
  - exact (agrees_twice x xv _ _ o H b (hessian_store x xv o) Hs Hx).
  - exact (agrees_twice x xv _ _ o H b (inverse_gradient_store x xv o) Hs Hx).
  - exact (agrees_twice x xv _ _ o H b (boundary_to_interior_half_store x xv o) Hs Hx).
Qed.

Lemma operations_pure_witness :
  Store.twice (Store.feasibility box_ball3_obj 4%nat) store3
    (Ok (Store.TB (feasibility box_ball3 [Fin 0; Fin 0; Fin 0])))
  /\ Store.twice (Store.value box_ball3_obj 4%nat) store3
       (Ok (Store.TS (value box_ball3 [Fin 0; Fin 0; Fin 0])))
  /\ Store.twice (Store.gradient box_ball3_obj 4%nat) store3
       (Ok (Store.TV (gradient box_ball3 [Fin 0; Fin 0; Fin 0])))
  /\ Store.twice (Store.hessian box_ball3_obj 4%nat) store3
       (res_map tensor_of_hess (hessian box_ball3 [Fin 0; Fin 0; Fin 0]))
  /\ Store.twice (Store.inverse_gradient box_ball3_obj 4%nat) store3
       (res_map Store.TV (inverse_gradient box_ball3 [Fin 0; Fin 0; Fin 0]))
  /\ Store.twice (Store.boundary_to_interior_half box_ball3_obj 4%nat) store3
       (res_map Store.TB (boundary_to_interior_half box_ball3 [Fin 0; Fin 0; Fin 0])).
Proof.
  apply (operations_pure store3 box_ball3_obj box_ball3 4%nat [Fin 0; Fin 0; Fin 0]).
  - cbn. repeat split.
  - reflexivity.
Defined.

(** C8.  [PolytopeBarrier.inverse_gradient] raises [NotImplementedError] on
    every input and leaves the store as it is; a [ComposeBarrier] defines
    neither [inverse_gradient] nor [boundary_to_interior_half], so both calls
    reach the methods of [Barrier], which raise [NotImplementedError] and
    leave the store as it is. *)
Theorem unsupported_operations :
  (forall (self : PolytopeBarrier.t) (y : vec),
      inverse_gradient (Polytope self) y = Raise NotImplementedError)
  /\ (forall (self : Store.PolytopeBarrier.t) (y : Store.loc) (H : Store.store),
         Store.inverse_gradient (Store.Polytope self) y H = (Raise NotImplementedError, H))
  /\ (forall (barriers : list barrier) (x : vec),
         inverse_gradient (ComposeBarrier.__init__ barriers) x
         = Raise NotImplementedError
         /\ boundary_to_interior_half (ComposeBarrier.__init__ barriers) x
            = Raise NotImplementedError)
  /\ (forall (barriers : list Store.obj) (dh : bool) (order : list nat * list nat)
             (x : Store.loc) (H : Store.store),
         Store.inverse_gradient (Store.Compose barriers dh order) x H
         = (Raise NotImplementedError, H)
         /\ Store.boundary_to_interior_half (Store.Compose barriers dh order) x H
            = (Raise NotImplementedError, H)).
Proof.
  repeat split.
Qed.

(** ** The round trip of the gradient and its inverse *)



(** *** BoxBarrier *)













(** *** SimplexBarrier *)


Lemma simplex_f_fin (ys : list R) (c : R) :
  Forall (fun y => c * y < 1) ys ->
  SimplexBarrier.f (map Fin ys) (Fin c) = Fin (simplex_fR ys c).
Proof.
  intros Hlt. unfold SimplexBarrier.f, simplex_fR.
  assert (Hsum : torch.sum (torch.rdivs (Fin 1)
                              (torch.rsubs (Fin 1) (torch.muls (Fin c) (map Fin ys))))
                 = Fin (Rsum (map (fun y => 1 / (1 - c * y)) ys))).
  { induction Hlt as [|y ys Hy _ IH]; [reflexivity|].
    unfold torch.sum, torch.rdivs, torch.rsubs, torch.muls in *.
    cbn [map fold_right]. rewrite IH.
    unfold f64.sub. cbn [f64.mul f64.neg f64.add].
    rewrite f64_div_fin by lra. reflexivity. }
  rewrite Hsum. unfold f64.sub. cbn [f64.mul f64.add f64.neg].
  reflexivity.
Qed.

Section Bracket.

Variables (ys : list R) (s cu0 : R).

Hypothesis Hlt : forall c, 0 <= c < cu0 -> Forall (fun y => c * y < 1) ys.
Hypothesis Hsign : forall c, 0 <= c < cu0 -> (0 < simplex_fR ys c <-> s < c).

Lemma bisect_fin (lo hi : R) :
  0 <= lo -> lo < hi -> hi <= cu0 ->
  SimplexBarrier.bisect (map Fin ys) (Fin lo, Fin hi)
  = if Rlt_dec s (0.5 * (lo + hi))
    then (Fin lo, Fin (0.5 * (lo + hi)))
    else (Fin (0.5 * (lo + hi)), Fin hi).
Proof.
  intros Hlo Hlohi Hhi. unfold SimplexBarrier.bisect. cbn [f64.add f64.mul].
  assert (Hm : 0 <= 0.5 * (lo + hi) < cu0) by lra.
  rewrite simplex_f_fin by (apply Hlt, Hm).
  unfold f64.gt, f64.lt.
  destruct (Rlt_dec s (0.5 * (lo + hi))) as [Hs|Hs].
  - apply (Hsign _ Hm) in Hs. apply Rltb_true in Hs. now rewrite Hs.
  - assert (Hf : ~ 0 < simplex_fR ys (0.5 * (lo + hi))).
    { intros Hf. now apply (Hsign _ Hm) in Hf. }
    assert (Hb : f64.Rltb 0 (simplex_fR ys (0.5 * (lo + hi))) = false)
      by (apply Rltb_false; lra).
    now rewrite Hb.
Qed.

(** After [n] bisections the bracket still holds [s], and its width is the
    first width divided by [2 ^ n]. *)
Lemma bracket (n : nat) :
  forall lo hi,
    0 <= lo <= s -> s <= hi <= cu0 -> lo < hi ->
    exists lo' hi',
      SimplexBarrier.for_range n (SimplexBarrier.bisect (map Fin ys)) (Fin lo, Fin hi)
      = (Fin lo', Fin hi')
      /\ 0 <= lo' <= s /\ s <= hi' <= cu0 /\ lo' < hi'
      /\ hi' - lo' = (hi - lo) / 2 ^ n.
Proof.
  induction n as [|n IH]; intros lo hi Hlo Hhi Hlohi.
  - exists lo, hi. cbn. repeat split; try lra.
  - cbn [SimplexBarrier.for_range]. rewrite bisect_fin by lra.
    assert (Hp : 0 < 2 ^ n) by (apply pow_lt; lra).
    destruct (Rlt_dec s (0.5 * (lo + hi))) as [Hs|Hs].
    + destruct (IH lo (0.5 * (lo + hi))) as (lo' & hi' & Hrun & H1 & H2 & H3 & H4);
        try lra.
      exists lo', hi'. split; [exact Hrun|]. repeat split; try lra.
      rewrite H4. change (2 ^ S n) with (2 * 2 ^ n).
      unfold Rdiv. rewrite Rinv_mult. lra.
    + destruct (IH (0.5 * (lo + hi)) hi) as (lo' & hi' & Hrun & H1 & H2 & H3 & H4);
        try lra.
      exists lo', hi'. split; [exact Hrun|]. repeat split; try lra.
      rewrite H4. change (2 ^ S n) with (2 * 2 ^ n).
      unfold Rdiv. rewrite Rinv_mult. lra.
Qed.

End Bracket.

Lemma Rsum_nonneg (l : list R) : Forall (fun x => 0 <= x) l -> 0 <= Rsum l.
Proof.
  induction 1 as [|x l Hx _ IH]; cbn; [lra|]. fold (Rsum l). lra.
Qed.


Lemma Rsum_in_le (l : list R) (x : R) :
  Forall (fun x => 0 <= x) l -> In x l -> x <= Rsum l.
Proof.
  induction 1 as [|a l Ha Hl IH]; [contradiction|].
  cbn. fold (Rsum l). pose proof (Rsum_nonneg l Hl).
  intros [->|Hin]; [lra|]. specialize (IH Hin). lra.
Qed.





Lemma Rsum_le_scale (g : R -> R) (K : R) (l : list R) :
  Forall (fun x => g x <= K * x) l -> Rsum (map g l) <= K * Rsum l.
Proof.
  induction 1 as [|x l Hx _ IH]; cbn [map Rsum fold_right]; [lra|].
  fold (Rsum l). fold (Rsum (map g l)). lra.
Qed.















(** *** EllipsoidBarrier *)

(** The operations on finite tensors are the operations on real numbers. *)

Lemma map2_fin (f : scalar -> scalar -> scalar) (g : R -> R -> R) (a b : list R) :
  Forall (fun y => forall x, f (Fin x) (Fin y) = Fin (g x y)) b ->
  torch.map2 f (map Fin a) (map Fin b) = map Fin (torch.map2 g a b).
Proof.
  intros Hb. revert a. induction Hb as [|y b Hy _ IH]; intros [|x a]; try reflexivity.
  cbn [map torch.map2]. now rewrite Hy, IH.
Qed.

Lemma mul_fin (a b : list R) :
  torch.mul (map Fin a) (map Fin b) = map Fin (torch.map2 Rmult a b).
Proof. apply map2_fin, Forall_forall. reflexivity. Qed.

Lemma div_fin (a b : list R) :
  Forall (fun y => y <> 0) b ->
  torch.div (map Fin a) (map Fin b) = map Fin (torch.map2 Rdiv a b).
Proof.
  intros Hb. apply map2_fin. eapply Forall_impl; [|exact Hb].
  intros y Hy x. now apply f64_div_fin.
Qed.




Lemma dot_fin (a b : list R) :
  torch.dot (map Fin a) (map Fin b) = Fin (dotR a b).
Proof. unfold torch.dot, dotR. now rewrite mul_fin, sum_fin. Qed.

Lemma einsum_fin (M : list (list R)) (x : list R) :
  torch.einsum_ij_j (lift M) (map Fin x) = map Fin (matvec M x).
Proof.
  unfold torch.einsum_ij_j, lift, matvec. rewrite !map_map. apply map_ext.
  intros row. apply dot_fin.
Qed.

Lemma transpose_aux_fin (n : nat) :
  forall M, torch.transpose_aux n (lift M) = lift (transpose_auxR n M).
Proof.
  induction n as [|n IH]; intros M; [reflexivity|].
  cbn [torch.transpose_aux transpose_auxR]. unfold lift at 3. cbn [map]. f_equal.
  - unfold lift. rewrite !map_map. apply map_ext. now intros [|a row].
  - rewrite <- IH. f_equal. unfold lift. rewrite !map_map. apply map_ext.
    now intros [|a row].
Qed.

Lemma T_fin (M : list (list R)) : torch.T (lift M) = lift (transposeR M).
Proof.
  destruct M as [|row M]; [reflexivity|].
  unfold torch.T, transposeR. cbn [lift map]. rewrite length_map.
  apply (transpose_aux_fin (length row) (row :: M)).
Qed.

Lemma rows_mul_fin (M : list (list R)) (L : list R) :
  EllipsoidBarrier.rows_mul (lift M) (map Fin L)
  = lift (map (fun row => torch.map2 Rmult row L) M).
Proof.
  unfold EllipsoidBarrier.rows_mul, lift. rewrite !map_map. apply map_ext.
  intros row. apply mul_fin.
Qed.

Lemma rows_div_fin (M : list (list R)) (L : list R) :
  Forall (fun y => y <> 0) L ->
  EllipsoidBarrier.rows_div (lift M) (map Fin L)
  = lift (map (fun row => torch.map2 Rdiv row L) M).
Proof.
  intros HL. unfold EllipsoidBarrier.rows_div, lift. rewrite !map_map. apply map_ext.
  intros row. now apply div_fin.
Qed.


Lemma ellipsoid_map_fin (U : list (list R)) (L x : list R) :
  EllipsoidBarrier._ellipsoid_map (ellipsoid_of U L) (map Fin x)
  = map Fin (ellipsoid_apply U L x).
Proof.
  unfold EllipsoidBarrier._ellipsoid_map, ellipsoid_of, ellipsoid_apply.
  cbn [EllipsoidBarrier.__init__ EllipsoidBarrier.ellipsoid EllipsoidBarrier.rot
       EllipsoidBarrier.eigvals].
  now rewrite T_fin, einsum_fin, rows_mul_fin, einsum_fin.
Qed.


Lemma inverse_ellipsoid_map_fin (U : list (list R)) (L y : list R) :
  Forall (fun l => l <> 0) L ->
  EllipsoidBarrier._inverse_ellipsoid_map (ellipsoid_of U L) (map Fin y)
  = map Fin (inverse_apply U L y).
Proof.
  intros HL.
  unfold EllipsoidBarrier._inverse_ellipsoid_map, ellipsoid_of, inverse_apply.
  cbn [EllipsoidBarrier.__init__ EllipsoidBarrier.ellipsoid EllipsoidBarrier.rot
       EllipsoidBarrier.eigvals].
  now rewrite T_fin, einsum_fin, rows_div_fin, einsum_fin.
Qed.

(** Real linear algebra on lists. *)

Lemma dotR_mul_assoc (row L u : list R) :
  dotR (torch.map2 Rmult row L) u = dotR row (torch.map2 Rmult L u).
Proof.
  unfold dotR. revert L u. induction row as [|a row IH]; intros [|l L] [|b u];
    try reflexivity.
  cbn [torch.map2 Rsum fold_right]. f_equal; [ring | apply IH].
Qed.

Lemma dotR_div_assoc (row L u : list R) :
  dotR (torch.map2 Rdiv row L) u = dotR row (torch.map2 Rdiv u L).
Proof.
  unfold dotR. revert L u. induction row as [|a row IH]; intros [|l L] [|b u];
    try reflexivity.
  cbn [torch.map2 Rsum fold_right]. f_equal; [unfold Rdiv; ring | apply IH].
Qed.

Lemma dotR_scale (k : R) (row v : list R) :
  dotR row (scale k v) = k * dotR row v.
Proof.
  unfold dotR, scale. revert v. induction row as [|a row IH]; intros [|b v];
    cbn [map torch.map2 Rsum fold_right]; try ring.
  fold (Rsum (torch.map2 Rmult row (map (Rmult k) v))).
  fold (Rsum (torch.map2 Rmult row v)). rewrite IH. ring.
Qed.

Lemma matvec_rows_mul (M : list (list R)) (L u : list R) :
  matvec (map (fun row => torch.map2 Rmult row L) M) u
  = matvec M (torch.map2 Rmult L u).
Proof.
  unfold matvec. rewrite map_map. apply map_ext. intros row. apply dotR_mul_assoc.
Qed.

Lemma matvec_rows_div (M : list (list R)) (L u : list R) :
  matvec (map (fun row => torch.map2 Rdiv row L) M) u
  = matvec M (torch.map2 Rdiv u L).
Proof.
  unfold matvec. rewrite map_map. apply map_ext. intros row. apply dotR_div_assoc.
Qed.

Lemma matvec_scale (k : R) (M : list (list R)) (v : list R) :
  matvec M (scale k v) = scale k (matvec M v).
Proof.
  unfold matvec. unfold scale at 2. rewrite map_map. apply map_ext.
  intros row. apply dotR_scale.
Qed.

Lemma length_matvec (M : list (list R)) (v : list R) :
  length (matvec M v) = length M.
Proof. apply length_map. Qed.

Lemma length_transpose_auxR (n : nat) :
  forall M, length (transpose_auxR n M) = n.
Proof. induction n as [|n IH]; intros M; cbn; [reflexivity | now rewrite IH]. Qed.

Lemma length_transposeR (d : nat) (U : list (list R)) :
  orthogonal d U -> length (transposeR U) = d.
Proof.
  intros (Hlen & Hrows & _). destruct U as [|row U]; [exact Hlen|].
  unfold transposeR. rewrite length_transpose_auxR.
  now inversion Hrows.
Qed.

Lemma scale_mul_div (k : R) (L u : list R) :
  Forall (fun l => l <> 0) L -> length u = length L ->
  torch.map2 Rdiv (scale k (torch.map2 Rmult L u)) L = scale k u.
Proof.
  intros HL. revert u. induction HL as [|l L Hl _ IH]; intros [|b u] Hlen;
    try discriminate; [reflexivity|].
  cbn [torch.map2 scale map]. f_equal.
  - field. exact Hl.
  - apply IH. now injection Hlen.
Qed.

Lemma scale_div_mul (k : R) (L v : list R) :
  Forall (fun l => l <> 0) L -> length v = length L ->
  torch.map2 Rmult L (scale k (torch.map2 Rdiv v L)) = scale k v.
Proof.
  intros HL. revert v. induction HL as [|l L Hl _ IH]; intros [|b v] Hlen;
    try discriminate; [reflexivity|].
  cbn [torch.map2 scale map]. f_equal.
  - field. exact Hl.
  - apply IH. now injection Hlen.
Qed.

Lemma form_mul_div (k : R) (L u : list R) :
  Forall (fun l => l <> 0) L ->
  Rsum (torch.map2 Rdiv (map (fun a => a * a) (scale k (torch.map2 Rmult L u))) L)
  = k * k * Rsum (torch.map2 Rmult (map (fun a => a * a) u) L).
Proof.
  intros HL. revert u. induction HL as [|l L Hl _ IH]; intros [|b u];
    cbn [torch.map2 scale map Rsum fold_right]; try ring.
  fold (scale k (torch.map2 Rmult L u)).
  fold (Rsum (torch.map2 Rdiv (map (fun a => a * a) (scale k (torch.map2 Rmult L u))) L)).
  fold (Rsum (torch.map2 Rmult (map (fun a => a * a) u) L)).
  rewrite IH. field. exact Hl.
Qed.

Lemma form_div_mul (k : R) (L v : list R) :
  Forall (fun l => l <> 0) L ->
  Rsum (torch.map2 Rmult (map (fun a => a * a) (scale k (torch.map2 Rdiv v L))) L)
  = k * k * Rsum (torch.map2 Rdiv (map (fun a => a * a) v) L).
Proof.
  intros HL. revert v. induction HL as [|l L Hl _ IH]; intros [|b v];
    cbn [torch.map2 scale map Rsum fold_right]; try ring.
  fold (scale k (torch.map2 Rdiv v L)).
  fold (Rsum (torch.map2 Rmult (map (fun a => a * a) (scale k (torch.map2 Rdiv v L))) L)).
  fold (Rsum (torch.map2 Rdiv (map (fun a => a * a) v) L)).
  rewrite IH. field. exact Hl.
Qed.


Section Orthogonal.

Variables (d : nat) (U : list (list R)) (L : list R).

Hypothesis HU : orthogonal d U.
Hypothesis HLlen : length L = d.
Hypothesis HL : Forall (fun l => 0 < l) L.

Lemma eigvals_nonzero : Forall (fun l => l <> 0) L.
Proof. eapply Forall_impl; [|exact HL]. cbv beta. intros. lra. Qed.

Lemma length_UT (x : list R) : length (matvec (transposeR U) x) = d.
Proof. rewrite length_matvec. now apply length_transposeR. Qed.

Lemma UT_scale_U (k : R) (w : list R) :
  length w = d -> matvec (transposeR U) (scale k (matvec U w)) = scale k w.
Proof.
  intros Hw. rewrite matvec_scale. f_equal. now apply HU.
Qed.

(** [inv(M) (k M x) = k x] and [<k M x, inv(M) (k M x)> = k^2 <x, M x>]. *)
Lemma inverse_of_apply (k : R) (x : list R) :
  length x = d ->
  inverse_apply U L (scale k (ellipsoid_apply U L x)) = scale k x
  /\ inverse_form U L (scale k (ellipsoid_apply U L x)) = k * k * ellipsoid_form U L x.
Proof.
  intros Hx. unfold inverse_apply, inverse_form, ellipsoid_apply, ellipsoid_form.
  set (u := matvec (transposeR U) x).
  assert (Hu : length u = d) by apply length_UT.
  rewrite matvec_rows_mul, UT_scale_U
    by (rewrite map2_length; congruence).
  split.
  - rewrite matvec_rows_div, scale_mul_div by (try apply eigvals_nonzero; congruence).
    rewrite matvec_scale. f_equal. now apply HU.
  - apply form_mul_div, eigvals_nonzero.
Qed.

(** [M (k inv(M) y) = k y] and [<k inv(M) y, M (k inv(M) y)> = k^2 <y, inv(M) y>]. *)
Lemma apply_of_inverse (k : R) (y : list R) :
  length y = d ->
  ellipsoid_apply U L (scale k (inverse_apply U L y)) = scale k y
  /\ ellipsoid_form U L (scale k (inverse_apply U L y)) = k * k * inverse_form U L y.
Proof.
  intros Hy. unfold inverse_apply, inverse_form, ellipsoid_apply, ellipsoid_form.
  set (v := matvec (transposeR U) y).
  assert (Hv : length v = d) by apply length_UT.
  rewrite matvec_rows_div, UT_scale_U
    by (rewrite map2_length; congruence).
  split.
  - rewrite matvec_rows_mul, scale_div_mul by (try apply eigvals_nonzero; congruence).
    rewrite matvec_scale. f_equal. now apply HU.
  - apply form_div_mul, eigvals_nonzero.
Qed.



End Orthogonal.

(** The scalar [lambda(q) = (-1 + sqrt (1 + q)) / q]. *)
Lemma lambda_spec (q : R) :
  0 < q ->
  let r := sqrt (1 + q) in
  let lam := (-1 + r) / q in
  1 < r /\ r * r = 1 + q /\ lam * (r + 1) = 1 /\ 0 < lam.
Proof.
  intros Hq r lam.
  assert (Hrr : r * r = 1 + q) by (apply sqrt_sqrt; lra).
  assert (Hr0 : 0 <= r) by apply sqrt_pos.
  assert (Hr : 1 < r) by nra.
  assert (Hl : lam * q = -1 + r) by (unfold lam; field; lra).
  assert (Hl1 : lam * (r + 1) = 1).
  { apply (Rmult_eq_reg_r q); [|lra].
    replace (lam * (r + 1) * q) with (lam * q * (r + 1)) by ring.
    rewrite Hl. nra. }
  repeat split; try assumption.
  destruct (Rle_or_lt lam 0); [nra | assumption].
Qed.


Lemma sqrt_small : 1 < sqrt (1 + 1e-08) < 1 + 1e-08.
Proof.
  destruct (lambda_spec 1e-08 ltac:(lra)) as (Hr & Hrr & _).
  split; [exact Hr | nra].
Qed.









(** *** The three barriers together *)




Lemma eye3_orthogonal : orthogonal 3 eye3.
Proof.
  split; [reflexivity|]. split; [repeat constructor|].
  split; intros [|a [|b [|c [|e z]]]] Hz; try discriminate;
    unfold matvec, transposeR, eye3, dotR; cbn [length transpose_auxR map hd tl];
    cbn [torch.map2 Rsum fold_right map]; repeat f_equal; ring.
Qed.



Lemma ones3_positive : Forall (fun l : R => 0 < l) [1; 1; 1].
Proof. repeat (apply Forall_cons; [lra|]). apply Forall_nil. Qed.






(** ** Further properties of the barriers *)

Lemma ln_le_mono (x y : R) : 0 < x -> x <= y -> ln x <= ln y.
Proof.
  intros Hx [Hlt| ->]; [|lra]. apply Rlt_le. now apply ln_increasing.
Qed.

Lemma Rpower_half_le_1 (t : R) : 0 <= t -> 0 < Rpower 0.5 t <= 1.
Proof.
  intros Ht. split; [apply exp_pos|].
  replace 1 with (Rpower 1 t).
  - apply Rle_Rpower_l; lra.
  - unfold Rpower. now rewrite ln_1, Rmult_0_r, exp_0.
Qed.

Lemma inv_INR_nonneg (n : nat) (k : R) : 0 <= k -> 0 <= k / INR (S n).
Proof.
  intros Hk. apply Rmult_le_pos; [exact Hk|].
  apply Rlt_le, Rinv_0_lt_compat. apply lt_0_INR. lia.
Qed.

(** *** BoxBarrier *)





Lemma log_fin (d : list R) :
  Forall (fun v => 0 < v) d -> torch.log (map Fin d) = map Fin (map ln d).
Proof.
  intros Hd. unfold torch.log. rewrite !map_map. apply map_ext_Forall.
  eapply Forall_impl; [|exact Hd]. intros v Hv. now apply f64_log_fin.
Qed.







Lemma box_inner_half_aux (c : R) (a : list R) :
  0 < c <= 1 -> Forall (fun ai => 0 <= ai) a ->
  forall x,
    torch.any (torch.gt (torch.abs (map Fin x)) (torch.muls (Fin c) (map Fin a))) = false ->
    torch.all (torch.le (torch.abs (map Fin x)) (map Fin a)) = true.
Proof.
  intros Hc Ha. induction Ha as [|ai a Hai _ IH]; intros [|xi x] H; try reflexivity.
  unfold torch.any, torch.all, torch.gt, torch.le, torch.abs, torch.muls in *.
  cbn [map torch.map2 existsb forallb] in *.
  apply orb_false_iff in H as [H1 H2].
  cbn [f64.abs f64.mul f64.gt f64.lt f64.le] in *.
  apply Rltb_false in H1. apply andb_true_iff. split.
  - apply Rleb_true. nra.
  - now apply IH.
Qed.

(** X4.  For a box of dimension at least one with non-negative bounds,
    [boundary_to_interior_half] returns, and a point it does not place in the
    outer half is a point of the box. *)
Theorem box_inner_half_feasible (a x : list R) :
  a <> [] -> Forall (fun ai => 0 <= ai) a ->
  let self := BoxBarrier.__init__ (map Fin a) in
  exists b,
    BoxBarrier.boundary_to_interior_half self (map Fin x) = Ok b
    /\ (b = false -> BoxBarrier.feasibility self (map Fin x) = true).
Proof.
  intros Hne Ha self. destruct a as [|a0 a]; [contradiction|].
  unfold BoxBarrier.boundary_to_interior_half, self.
  cbn [BoxBarrier.dimension BoxBarrier.__init__ BoxBarrier.bounds map length].
  eexists. split; [reflexivity|]. intros Hb.
  unfold BoxBarrier.feasibility. cbn [BoxBarrier.bounds].
  eapply (box_inner_half_aux _ (a0 :: a)); [|exact Ha|exact Hb].
  apply Rpower_half_le_1. rewrite length_map. apply (inv_INR_nonneg (length a)). lra.
Qed.

Lemma box_inner_half_feasible_witness :
  let self := BoxBarrier.__init__ (map Fin [1; 2]) in
  exists b,
    BoxBarrier.boundary_to_interior_half self (map Fin [0.25; -0.5]) = Ok b
    /\ (b = false -> BoxBarrier.feasibility self (map Fin [0.25; -0.5]) = true).
Proof.
  apply (box_inner_half_feasible [1; 2] [0.25; -0.5]); [discriminate|].
  repeat (apply Forall_cons; [lra|]). apply Forall_nil.
Defined.

(** *** EllipsoidBarrier *)

Lemma scale_1 (v : list R) : scale 1 v = v.
Proof.
  unfold scale. rewrite <- (map_id v) at 2. apply map_ext. intros. ring.
Qed.

(** X5.  [_ellipsoid_map] and [_inverse_ellipsoid_map] are inverse to each other
    on finite points, for an orthogonal [rot] and positive [eigvals]. *)
Theorem ellipsoid_map_inverse_map (U : list (list R)) (L x : list R) :
  orthogonal (length L) U -> Forall (fun l => 0 < l) L -> length x = length L ->
  let self := ellipsoid_of U L in
  EllipsoidBarrier._inverse_ellipsoid_map self
    (EllipsoidBarrier._ellipsoid_map self (map Fin x)) = map Fin x
  /\ EllipsoidBarrier._ellipsoid_map self
       (EllipsoidBarrier._inverse_ellipsoid_map self (map Fin x)) = map Fin x.
Proof.
  intros HU HL Hx self. unfold self.
  pose proof (eigvals_nonzero L HL) as HL0.
  destruct (inverse_of_apply (length L) U L HU eq_refl HL 1 x Hx) as (H1 & _).
  destruct (apply_of_inverse (length L) U L HU eq_refl HL 1 x Hx) as (H2 & _).
  rewrite !scale_1 in H1, H2.
  split.
  - now rewrite ellipsoid_map_fin, inverse_ellipsoid_map_fin, H1.
  - now rewrite inverse_ellipsoid_map_fin, ellipsoid_map_fin, H2.
Qed.

Lemma ellipsoid_map_inverse_map_witness :
  let self := ellipsoid_of eye3 [1; 1; 1] in
  EllipsoidBarrier._inverse_ellipsoid_map self
    (EllipsoidBarrier._ellipsoid_map self (map Fin [0.5; -2; 3])) = map Fin [0.5; -2; 3]
  /\ EllipsoidBarrier._ellipsoid_map self
       (EllipsoidBarrier._inverse_ellipsoid_map self (map Fin [0.5; -2; 3]))
     = map Fin [0.5; -2; 3].
Proof.
  apply (ellipsoid_map_inverse_map eye3 [1; 1; 1] [0.5; -2; 3]);
    [exact eye3_orthogonal | exact ones3_positive | reflexivity].
Defined.












(** *** SimplexBarrier *)








(** X13.  Where every coordinate is positive the value is finite, and it is not
    negative when the coordinates sum to at most one. *)
Theorem simplex_value_interior (self : SimplexBarrier.t) (xs : list R) :
  Forall (fun x => 0 < x) xs ->
  exists v,
    SimplexBarrier.value self (map Fin xs) = Fin v
    /\ (Rsum xs <= 1 -> 0 <= v).
Proof.
  intros Hx. unfold SimplexBarrier.value.
  destruct (simplex_safe_interior_fin self xs true) as (r & Hr & Hr1).
  assert (Hr2 : Rsum xs <= 1 -> r <= 1).
  { intros Hs. unfold SimplexBarrier._safe_interior in Hr.
    rewrite sum_fin in Hr. fold (Rsum xs) in Hr.
    unfold f64.sub in Hr. cbn [f64.neg f64.add] in Hr.
    rewrite f64_clamp_min_fin in Hr. injection Hr as <-.
    pose proof (Rsum_nonneg xs ltac:(eapply Forall_impl; [|exact Hx];
                                     cbv beta; intros; lra)).
    destruct (Rlt_dec (1 + - Rsum xs) 1e-08); lra. }
  rewrite Hr, log_fin by exact Hx.
  rewrite sum_fin. fold (Rsum (map ln xs)). rewrite f64_log_fin by lra.
  unfold f64.sub. cbn [f64.neg f64.add]. eexists. split; [reflexivity|].
  intros Hs.
  assert (H1 : Rsum (map ln xs) <= 0).
  { assert (H0 : Rsum (map ln xs) <= 0 * Rsum xs); [|lra].
    apply Rsum_le_scale. rewrite Forall_forall in *. intros x Hin.
    pose proof (Rsum_in_le xs x
                  ltac:(apply Forall_forall; intros z Hz; specialize (Hx z Hz); lra)
                  Hin).
    specialize (Hx x Hin).
    assert (ln x <= ln 1) by (apply ln_le_mono; lra).
    rewrite ln_1 in *. lra. }
  assert (H2 : ln r <= ln 1) by (apply ln_le_mono; [lra | now apply Hr2]).
  rewrite ln_1 in H2. lra.
Qed.

Lemma simplex_value_interior_witness :
  exists v,
    SimplexBarrier.value (SimplexBarrier.__init__ 3) (map Fin [0.1; 0.2; 0.2]) = Fin v
    /\ (Rsum [0.1; 0.2; 0.2] <= 1 -> 0 <= v).
Proof.
  apply (simplex_value_interior (SimplexBarrier.__init__ 3) [0.1; 0.2; 0.2]).
  repeat (apply Forall_cons; [lra|]). apply Forall_nil.
Defined.

(** *** PolytopeBarrier *)

Lemma f64_add_0_l (v : scalar) : f64.add (Fin 0) v = v.
Proof. destruct v as [x| | |]; try reflexivity. cbn. now rewrite Rplus_0_l. Qed.


Lemma f64_mul_1_r (v : scalar) : f64.mul v (Fin 1) = v.
Proof.
  destruct v as [x| | |]; try reflexivity; cbn [f64.mul].
  - now rewrite Rmult_1_r.
  - apply signed_inf_pos. lra.
  - apply signed_inf_neg. lra.
Qed.

Lemma f64_div_1_r (v : scalar) : f64.div v (Fin 1) = v.
Proof.
  destruct v as [x| | |]; try reflexivity.
  - rewrite f64_div_fin by lra. f_equal. field.
  - cbn [f64.div]. now rbool.
  - cbn [f64.div]. now rbool.
Qed.

Lemma map_const {A B : Type} (c : B) (l : list A) :
  map (fun _ => c) l = repeat c (length l).
Proof. induction l as [|a l IH]; cbn; [reflexivity | now rewrite IH]. Qed.

Lemma map2_repeat_r {A B : Type} (f : A -> B -> A) (c : B) (n : nat) :
  (forall a, f a c = a) ->
  forall v, (length v <= n)%nat -> torch.map2 f v (repeat c n) = v.
Proof.
  intros Hf. induction n as [|n IH]; intros [|a v] Hlen; try reflexivity.
  - cbn in Hlen. lia.
  - cbn [repeat torch.map2]. rewrite Hf, IH; [reflexivity|]. cbn in Hlen. lia.
Qed.

Lemma map2_repeat_l {A B : Type} (f : B -> A -> A) (c : B) (n : nat) :
  (forall a, f c a = a) ->
  forall v, (length v <= n)%nat -> torch.map2 f (repeat c n) v = v.
Proof.
  intros Hf. induction n as [|n IH]; intros [|a v] Hlen; try reflexivity.
  - cbn in Hlen. lia.
  - cbn [repeat torch.map2]. rewrite Hf, IH; [reflexivity|]. cbn in Hlen. lia.
Qed.

Lemma polytope_safe_slack_length (self : PolytopeBarrier.t) (x : vec) :
  (length (PolytopeBarrier._safe_slack self x)
   <= length (PolytopeBarrier.b (PolytopeBarrier.polytope self)))%nat.
Proof.
  unfold PolytopeBarrier._safe_slack, torch.clamp_min, torch.sub.
  rewrite length_map, map2_length_min. lia.
Qed.

(** X14.  Weights that are all one change nothing: the barrier built with them has
    the value, the gradient and the Hessian of the barrier built without
    weights, at every point. *)
Theorem polytope_unit_weights (p : PolytopeBarrier.polytope_dict) (x : vec) :
  let w := repeat (Fin 1) (length (PolytopeBarrier.b p)) in
  exists s1 s0,
    PolytopeBarrier.__init__ p (Some w) = Ok s1
    /\ PolytopeBarrier.__init__ p None = Ok s0
    /\ PolytopeBarrier.feasibility s1 x = PolytopeBarrier.feasibility s0 x
    /\ PolytopeBarrier.value s1 x = PolytopeBarrier.value s0 x
    /\ PolytopeBarrier.gradient s1 x = PolytopeBarrier.gradient s0 x
    /\ PolytopeBarrier.hessian s1 x = PolytopeBarrier.hessian s0 x.
Proof.
  intros w. unfold PolytopeBarrier.__init__.
  assert (Hlen : (length w =? length (PolytopeBarrier.b p))%nat = true).
  { unfold w. rewrite repeat_length. apply Nat.eqb_refl. }
  rewrite Hlen. cbn [negb].
  eexists. eexists. split; [reflexivity|]. split; [reflexivity|].
  set (s1 := PolytopeBarrier.mk p _ _ (Some w)).
  set (s0 := PolytopeBarrier.mk p _ _ None).
  assert (Hslack : PolytopeBarrier._safe_slack s1 x = PolytopeBarrier._safe_slack s0 x)
    by reflexivity.
  pose proof (polytope_safe_slack_length s0 x) as Hl.
  cbn [PolytopeBarrier.polytope s0] in Hl.
  split; [reflexivity|]. split; [|split].
  - unfold PolytopeBarrier.value. cbn [PolytopeBarrier.weights s1 s0].
    rewrite Hslack. f_equal. f_equal. unfold torch.mul, w.
    apply map2_repeat_r; [exact f64_mul_1_r|].
    unfold torch.log. now rewrite length_map.
  - unfold PolytopeBarrier.gradient.
    cbn [PolytopeBarrier.weights PolytopeBarrier.polytope PolytopeBarrier.dimension s1 s0].
    rewrite Hslack. unfold torch.div at 1, w.
    rewrite (map2_repeat_r f64.div (Fin 1) _ f64_div_1_r) by exact Hl.
    reflexivity.
  - unfold PolytopeBarrier.hessian.
    cbn [PolytopeBarrier.weights PolytopeBarrier.polytope PolytopeBarrier.dimension s1 s0].
    rewrite Hslack.
    assert (Hsqrt : torch.sqrt w = w).
    { unfold torch.sqrt, w. rewrite map_repeat. f_equal.
      rewrite f64_sqrt_fin by lra. now rewrite sqrt_1. }
    rewrite Hsqrt. unfold torch.div at 1, w.
    rewrite (map2_repeat_r f64.div (Fin 1) _ f64_div_1_r) by exact Hl.
    reflexivity.
Qed.

(** A diagonal matrix against a vector, row by row. *)










(** The sum of the rows of a diagonal matrix is its diagonal. *)





(** The sum of the outer products of the rows of a finite diagonal matrix is
    the diagonal matrix of the squares. *)


















(** *** ComposeBarrier *)

Lemma fold_andb (l : list bool) (acc : bool) :
  fold_left (fun check c => check && c) l acc = acc && forallb (fun c => c) l.
Proof.
  revert acc. induction l as [|c l IH]; intros acc; cbn [fold_left forallb].
  - now rewrite andb_true_r.
  - rewrite IH. now rewrite andb_assoc.
Qed.

Lemma forallb_id_map {A : Type} (f : A -> bool) (l : list A) :
  forallb (fun c => c) (map f l) = forallb f l.
Proof. induction l as [|a l IH]; cbn; [reflexivity | now rewrite IH]. Qed.

Lemma compose_feasibility_fold (barriers : list barrier) (x : vec) :
  feasibility (ComposeBarrier.__init__ barriers) x
  = forallb (fun b => feasibility b x) barriers.
Proof.
  rewrite compose_init_unfold. cbn [feasibility]. unfold ComposeBarrier.feasibility.
  rewrite fold_andb. cbn [andb]. apply forallb_id_map.
Qed.

(** X17.  A point is feasible for a composition exactly when it is feasible for
    every constituent; the empty composition accepts every point. *)
Theorem compose_feasibility_forallb (barriers : list barrier) (x : vec) :
  feasibility (ComposeBarrier.__init__ barriers) x = true
  <-> Forall (fun b => feasibility b x = true) barriers.
Proof.
  rewrite compose_feasibility_fold, forallb_forall, Forall_forall. reflexivity.
Qed.

Lemma f64_add_assoc (a b c : scalar) :
  f64.add (f64.add a b) c = f64.add a (f64.add b c).
Proof.
  destruct a, b, c; cbn [f64.add]; try reflexivity. now rewrite Rplus_assoc.
Qed.


Lemma add_assoc (a b c : vec) :
  torch.add (torch.add a b) c = torch.add a (torch.add b c).
Proof.
  unfold torch.add. revert b c. induction a as [|x a IH]; intros [|y b] [|z c];
    try reflexivity.
  cbn [torch.map2]. now rewrite f64_add_assoc, IH.
Qed.






Lemma leaf_hessian_ok (b : barrier) (x : vec) :
  is_leaf b = true -> exists h, hessian b x = Ok h.
Proof.
  destruct b; intros H; try discriminate; cbn [hessian]; eexists; reflexivity.
Qed.

Lemma leaf_hessian_diag (b : barrier) (x : vec) :
  is_leaf b = true -> constructed b -> diag_hess b = true ->
  exists v, hessian b x = Ok (HDiag v).
Proof.
  destruct b as [self|self|self|self|bs dh order]; intros Hl Hc Hd; try discriminate.
  - cbn [hessian]. eexists. reflexivity.
  - cbn in Hc, Hd. rewrite Hc in Hd. discriminate.
  - cbn in Hc, Hd. rewrite Hc in Hd. discriminate.
  - pose proof (polytope_flag_form self Hc) as Hf. cbn [diag_hess] in Hd.
    rewrite Hd in Hf. cbn [hessian]. unfold PolytopeBarrier.hessian.
    destruct (PolytopeBarrier.A (PolytopeBarrier.polytope self)); [|discriminate].
    eexists. reflexivity.
Qed.

Lemma fold_iadd_vec_ok (x : vec) (l : list barrier) :
  Forall (fun b => exists v, hessian b x = Ok (HDiag v)) l ->
  forall acc,
    exists r,
      fold_left (fun acc b => a <- acc ;; hi <- hessian b x ;; ComposeBarrier.iadd_vec a hi)
        l (Ok acc) = Ok r.
Proof.
  induction 1 as [|b l (v & Hv) _ IH]; intros acc; cbn [fold_left].
  - now exists acc.
  - rewrite Hv. cbn [bind ComposeBarrier.iadd_vec]. apply IH.
Qed.

Lemma fold_iadd_mat_ok (x : vec) (l : list barrier) :
  Forall (fun b => exists h, hessian b x = Ok h) l ->
  forall acc,
    exists r,
      fold_left (fun acc b => a <- acc ;; hi <- hessian b x ;; ComposeBarrier.iadd_mat a hi)
        l (Ok acc) = Ok r.
Proof.
  induction 1 as [|b l (h & Hh) _ IH]; intros acc; cbn [fold_left].
  - now exists acc.
  - rewrite Hh. cbn [bind]. destruct h; cbn [ComposeBarrier.iadd_mat]; apply IH.
Qed.

Lemma existsb_filter_length {A : Type} (f : A -> bool) (l : list A) :
  existsb f l = true -> (0 <? length (filter f l))%nat = true.
Proof.
  induction l as [|a l IH]; cbn [existsb filter]; [discriminate|].
  destruct (f a); [reflexivity | exact IH].
Qed.

Lemma existsb_false_forallb {A : Type} (f : A -> bool) (l : list A) :
  existsb f l = false -> forallb (fun a => negb (f a)) l = true.
Proof.
  induction l as [|a l IH]; cbn [existsb forallb]; [reflexivity|].
  destruct (f a); [discriminate | exact IH].
Qed.

(** X19.  The Hessian of a composition of barriers that are not compositions
    themselves returns exactly when some constituent has a diagonal
    Hessian. *)
Theorem compose_hessian_returns (barriers : list barrier) (x : vec) :
  Forall (fun b => is_leaf b = true /\ constructed b) barriers ->
  (exists h, hessian (ComposeBarrier.__init__ barriers) x = Ok h)
  <-> existsb diag_hess barriers = true.
Proof.
  intros Hall. destruct (existsb diag_hess barriers) eqn:E.
  - split; [reflexivity|]. intros _.
    rewrite compose_hessian_unfold, (existsb_filter_length _ _ E).
    destruct (fold_iadd_vec_ok x (filter diag_hess barriers)) with
      (acc := ComposeBarrier.zeros_like x) as (v & ->).
    { apply Forall_forall. intros b Hin. apply filter_In in Hin as (Hin & Hd).
      rewrite Forall_forall in Hall. destruct (Hall b Hin) as (Hl & Hc).
      now apply leaf_hessian_diag. }
    cbn [bind ComposeBarrier.read_local].
    destruct (negb (forallb diag_hess barriers)); cbn [bind ComposeBarrier.read_local].
    + destruct (fold_iadd_mat_ok x (filter (fun b => negb (diag_hess b)) barriers)) with
        (acc := torch.diag_embed v) as (m & ->).
      { apply Forall_forall. intros b Hin. apply filter_In in Hin as (Hin & _).
        rewrite Forall_forall in Hall. destruct (Hall b Hin) as (Hl & _).
        now apply leaf_hessian_ok. }
      cbn [bind]. eexists. reflexivity.
    + eexists. reflexivity.
  - split; [|discriminate]. intros (h & Hh).
    rewrite compose_hessian_unbound in Hh by now apply existsb_false_forallb.
    discriminate.
Qed.

Lemma compose_hessian_returns_witness :
  (exists h,
      hessian (ComposeBarrier.__init__ [Box unit_box3; Ellipsoid unit_ball3])
        [Fin 0; Fin 0; Fin 0] = Ok h)
  <-> existsb diag_hess [Box unit_box3; Ellipsoid unit_ball3] = true.
Proof.
  apply (compose_hessian_returns [Box unit_box3; Ellipsoid unit_ball3]
           [Fin 0; Fin 0; Fin 0]).
  repeat (apply Forall_cons; [split; reflexivity|]). apply Forall_nil.
Defined.

(** X20.  The Hessian of the composition of a box and an ellipsoid, in either
    order, is the diagonal matrix of the Hessian of the box plus the Hessian
    of the ellipsoid. *)
Theorem compose_hessian_box_ellipsoid (bounds : vec)
    (e : EllipsoidBarrier.ellipsoid_dict) (x : vec) :
  let box := BoxBarrier.__init__ bounds in
  let ell := EllipsoidBarrier.__init__ e in
  let manual :=
    HFull (torch.madd (torch.diag_embed (BoxBarrier.hessian box x))
             (EllipsoidBarrier.hessian ell x)) in
  hessian (ComposeBarrier.__init__ [Box box; Ellipsoid ell]) x = Ok manual
  /\ hessian (ComposeBarrier.__init__ [Ellipsoid ell; Box box]) x = Ok manual.
Proof.
  intros box ell manual.
  assert (Hz : torch.add (ComposeBarrier.zeros_like x) (BoxBarrier.hessian box x)
               = BoxBarrier.hessian box x).
  { unfold ComposeBarrier.zeros_like, torch.add. rewrite map_const.
    apply map2_repeat_l; [exact f64_add_0_l|].
    rewrite box_hessian_length. lia. }
  split; rewrite compose_hessian_unfold;
    cbn [filter diag_hess BoxBarrier.diag_hess BoxBarrier.__init__ box ell
         EllipsoidBarrier.diag_hess EllipsoidBarrier.__init__ negb forallb andb
         length Nat.ltb Nat.leb fold_left bind hessian ComposeBarrier.iadd_vec
         ComposeBarrier.iadd_mat ComposeBarrier.read_local];
    fold box; fold ell; rewrite Hz; reflexivity.
Qed.

(** The indices [__init__] records. *)

Lemma in_enumerate_from {A : Type} (l : list A) :
  forall k i a,
    In (i, a) (combine (seq k (length l)) l)
    <-> (k <= i)%nat /\ nth_error l (i - k) = Some a.
Proof.
  induction l as [|b l IH]; intros k i a; cbn [length seq combine In].
  - split; [contradiction|]. intros [_ H]. destruct (i - k)%nat; discriminate.
  - rewrite IH. split.
    + intros [H|[Hle Hn]].
      * injection H as <- <-. split; [lia|]. now rewrite Nat.sub_diag.
      * split; [lia|]. replace (i - k)%nat with (S (i - S k)) by lia. exact Hn.
    + intros [Hle Hn]. destruct (Nat.eq_dec i k) as [->|Hne].
      * left. rewrite Nat.sub_diag in Hn. cbn in Hn. now injection Hn as <-.
      * right. split; [lia|].
        replace (i - k)%nat with (S (i - S k)) in Hn by lia. exact Hn.
Qed.

Lemma in_order (p : barrier -> bool) (barriers : list barrier) (i : nat) :
  In i (map fst (filter (fun ib => p (snd ib)) (ComposeBarrier.enumerate barriers)))
  <-> exists b, nth_error barriers i = Some b /\ p b = true.
Proof.
  unfold ComposeBarrier.enumerate. rewrite in_map_iff. split.
  - intros ([j b] & <- & Hin). apply filter_In in Hin as (Hin & Hp).
    apply in_enumerate_from in Hin as (_ & Hn). rewrite Nat.sub_0_r in Hn.
    now exists b.
  - intros (b & Hn & Hp). exists (i, b). split; [reflexivity|].
    apply filter_In. split; [|exact Hp].
    apply in_enumerate_from. split; [lia|]. now rewrite Nat.sub_0_r.
Qed.

Lemma NoDup_fst_filter {A B : Type} (p : A * B -> bool) (l : list (A * B)) :
  NoDup (map fst l) -> NoDup (map fst (filter p l)).
Proof.
  induction l as [|ab l IH]; cbn [map filter]; [constructor|].
  intros H. inversion H as [|? ? Hnin Hnd]; subst.
  destruct (p ab); [|now apply IH].
  cbn [map]. constructor; [|now apply IH].
  intros Hin. apply Hnin. apply in_map_iff in Hin as (cd & E & Hin).
  apply in_map_iff. exists cd. split; [exact E|].
  now apply filter_In in Hin as (Hin & _).
Qed.

Lemma fst_enumerate {A : Type} (l : list A) :
  map fst (ComposeBarrier.enumerate l) = seq 0 (length l).
Proof.
  unfold ComposeBarrier.enumerate. generalize 0%nat.
  induction l as [|a l IH]; intros k; cbn [length seq combine map]; [reflexivity|].
  now rewrite IH.
Qed.

(** X21.  [__init__] files the index of every constituent once: under
    [_hess_compute_order[1]] when the Hessian of the constituent is diagonal,
    and under [_hess_compute_order[0]] otherwise. *)
Theorem compose_hess_compute_order (barriers : list barrier) :
  exists dh o0 o1,
    ComposeBarrier.__init__ barriers = Compose barriers dh (o0, o1)
    /\ (forall i, In i o1
                  <-> exists b, nth_error barriers i = Some b /\ diag_hess b = true)
    /\ (forall i, In i o0
                  <-> exists b, nth_error barriers i = Some b /\ diag_hess b = false)
    /\ NoDup o0 /\ NoDup o1.
Proof.
  rewrite compose_init_unfold. eexists. eexists. eexists.
  split; [reflexivity|]. split; [|split; [|split]].
  - intros i. apply (in_order diag_hess).
  - intros i. rewrite (in_order (fun b => negb (diag_hess b))).
    split; intros (b & Hn & Hp); exists b; split; try assumption.
    + now apply negb_true_iff.
    + now apply negb_true_iff.
  - apply NoDup_fst_filter. rewrite fst_enumerate. apply seq_NoDup.
  - apply NoDup_fst_filter. rewrite fst_enumerate. apply seq_NoDup.
Qed.
